(** * Resume screener: skill taxonomy, skill extractor, experience
       detector, document parsers and screening agent

    A shallow embedding of [app/skills/skill_database.py],
    [app/skills/skill_extractor.py], [app/skills/experience_detector.py],
    [app/parsers/pdf_parser.py], [app/parsers/document_processor.py] and
    of the answer handling of [app/agent.py], together with the part of
    Python's [str], [re] and [os.path] libraries these modules call.

    Text is a list of Unicode code points.  White space follows
    [str.isspace] on every code point.  Case mappings, case folding, the
    word class and the digit class are tabulated for U+0000..U+007F and
    for U+017F (LATIN SMALL LETTER LONG S); every other code point is
    treated as an uncased symbol that is neither a word character nor a
    digit.  Python goes further there: [str.lower] lowers the other
    capitals and turns U+0130 into two code points, so that it can
    lengthen a text; [str.title], [\w] and [\b] know every letter;
    [re.IGNORECASE] equates further pairs of characters; [str.isdigit]
    accepts further digits.  Years are exact integers where the source
    has floats.  Statements whose truth depends on these tables are
    stated for ASCII text ([Py.ascii_text]), where the embedding and
    Python agree. *)

From Stdlib Require Import String Ascii List NArith ZArith Lia Bool.
Import ListNotations.

Set Implicit Arguments.

(* ================================================================== *)
(** ** Python strings *)
(* ================================================================== *)

Module Py.

Definition char := N.
Definition str := list char.

#[local] Open Scope N_scope.

(** String literals of the source. *)
Definition py (s : string) : str := map N_of_ascii (list_ascii_of_string s).

Definition in_range (lo hi c : char) : bool := (N.leb lo c) && (N.leb c hi).

Definition is_ascii (c : char) : bool := N.ltb c 128.
Definition ascii_text (s : str) : Prop := Forall (fun c => is_ascii c = true) s.

(** [str.isspace], also the class [\s] of [re] on [str] patterns. *)
Definition is_space (c : char) : bool :=
  in_range 9 13 c || in_range 28 32 c || N.eqb c 133 || N.eqb c 160
  || N.eqb c 5760 || in_range 8192 8202 c || N.eqb c 8232 || N.eqb c 8233
  || N.eqb c 8239 || N.eqb c 8287 || N.eqb c 12288.

Definition is_digit (c : char) : bool := in_range 48 57 c.
Definition is_upper (c : char) : bool := in_range 65 90 c.
Definition is_lower (c : char) : bool := in_range 97 122 c || N.eqb c 383.
Definition is_cased (c : char) : bool := is_upper c || is_lower c.

(** The class [\w]: alphanumeric or underscore. *)
Definition is_word (c : char) : bool :=
  is_digit c || is_upper c || is_lower c || N.eqb c 95.

Definition char_lower (c : char) : char :=
  if is_upper c then (c + 32)%N else c.

(** Upper-case and title-case mappings coincide on the tabulated range;
    U+017F maps to [S]. *)
Definition char_title (c : char) : char :=
  if in_range 97 122 c then (c - 32)%N
  else if N.eqb c 383 then 83%N else c.

(** Simple case folding used by [re.IGNORECASE]: [s], [S] and U+017F
    are one class. *)
Definition ci_fold (c : char) : char :=
  if N.eqb c 383 then 115%N else char_lower c.

(** [s.lower()] *)
Definition lower (s : str) : str := map char_lower s.

(** [s.strip()] *)
Fixpoint lstrip (s : str) : str :=
  match s with
  | c :: s' => if is_space c then lstrip s' else s
  | [] => []
  end.

Definition rstrip (s : str) : str := rev (lstrip (rev s)).
Definition strip (s : str) : str := rstrip (lstrip s).

(** [s.title()]: a character that follows a cased character is
    lower-cased, any other character is title-cased. *)
Fixpoint title_from (prev_cased : bool) (s : str) : str :=
  match s with
  | [] => []
  | c :: s' =>
      (if prev_cased then char_lower c else char_title c)
        :: title_from (is_cased c) s'
  end.

Definition title (s : str) : str := title_from false s.

(** [a == b] on strings *)
Fixpoint str_eqb (a b : str) : bool :=
  match a, b with
  | [], [] => true
  | x :: a', y :: b' => N.eqb x y && str_eqb a' b'
  | _, _ => false
  end.

Fixpoint starts_with (p s : str) : bool :=
  match p, s with
  | [], _ => true
  | x :: p', y :: s' => N.eqb x y && starts_with p' s'
  | _ :: _, [] => false
  end.

(** [needle in hay] *)
Fixpoint str_in (needle hay : str) : bool :=
  starts_with needle hay ||
  match hay with
  | [] => false
  | _ :: hay' => str_in needle hay'
  end.

(** [x in l] for a list of strings *)
Definition mem (x : str) (l : list str) : bool := existsb (str_eqb x) l.

(** [s.split(sep)] for a one-character separator *)
Fixpoint split_chr (sep : char) (s : str) : list str :=
  match s with
  | [] => [[]]
  | c :: s' =>
      if N.eqb c sep then [] :: split_chr sep s'
      else match split_chr sep s' with
           | x :: xs => (c :: x) :: xs
           | [] => [[c]]
           end
  end.

(** [sep.join(l)] *)
Fixpoint join (sep : str) (l : list str) : str :=
  match l with
  | [] => []
  | [x] => x
  | x :: l' => x ++ sep ++ join sep l'
  end.

(** [s[a:b]] for [0 <= a], [0 <= b] *)
Definition slice (a b : nat) (s : str) : str :=
  firstn (b - a)%nat (skipn a s).

(** [int(s)] on a string of ASCII digits *)
Definition int_of (s : str) : Z :=
  fold_left (fun acc c => (acc * 10 + (Z.of_N c - 48))%Z) s 0%Z.

(** [str(n)] for [0 <= n] *)
Fixpoint digits_fuel (fuel : nat) (n : N) (acc : str) : str :=
  match fuel with
  | O => acc
  | S f =>
      let acc' := (48 + N.modulo n 10)%N :: acc in
      if N.ltb n 10 then acc' else digits_fuel f (N.div n 10) acc'
  end.

Definition str_of_int (n : Z) : str :=
  let m := Z.to_N n in digits_fuel (S (N.to_nat (N.log2 m))) m [].

(** The Python [any(p(x) for x in l)] and [sum(...)] *)
Definition any {A} (p : A -> bool) (l : list A) : bool := existsb p l.
Definition sum (l : list Z) : Z := fold_left Z.add l 0%Z.

(** [s.isdigit()]: at least one character, all of them digits. *)
Definition isdigit (s : str) : bool :=
  match s with
  | [] => false
  | _ :: _ => forallb is_digit s
  end.

(** [s.find(c)] for a one-character [c]: the first index, or -1. *)
Fixpoint find_chr (ch : char) (s : str) : Z :=
  match s with
  | [] => (-1)%Z
  | x :: s' =>
      if N.eqb x ch then 0%Z
      else let i := find_chr ch s' in
           if Z.eqb i (-1) then (-1)%Z else (i + 1)%Z
  end.

(** [s.rfind(c)] for a one-character [c]: the last index, or -1. *)
Fixpoint rfind_chr (ch : char) (s : str) : Z :=
  match s with
  | [] => (-1)%Z
  | x :: s' =>
      let i := rfind_chr ch s' in
      if Z.eqb i (-1) then (if N.eqb x ch then 0%Z else (-1)%Z)
      else (i + 1)%Z
  end.

(** How a slice bound is read against the length: a negative bound
    counts from the end, and every bound is clipped to the string. *)
Definition slice_bound (i len : Z) : Z :=
  if Z.ltb i 0 then Z.max 0 (i + len) else Z.min i len.

(** [s[a:b]] for bounds of either sign. *)
Definition slice_z (a b : Z) (s : str) : str :=
  let len := Z.of_nat (length s) in
  let a' := slice_bound a len in
  let b' := slice_bound b len in
  firstn (Z.to_nat (b' - a')) (skipn (Z.to_nat a') s).

End Py.

(* ================================================================== *)
(** ** Python regular expressions (the fragment the sources use) *)
(* ================================================================== *)

Module Re.
Import Py.

#[local] Open Scope N_scope.

(** Members of a bracket class. *)
Inductive citem : Type :=
| CSpace                      (* \s *)
| CDigit                      (* \d *)
| CRange (lo hi : char)       (* a-z *)
| COne (c : char).

Definition citem_has (i : citem) (c : char) : bool :=
  match i with
  | CSpace => is_space c
  | CDigit => is_digit c
  | CRange lo hi => in_range lo hi c
  | COne x => N.eqb x c
  end.

Inductive regex : Type :=
| Eps
| Chr (c : char)              (* a literal character *)
| Cls (cs : list citem)       (* [...] , \s , \d *)
| Any                         (* .  (no DOTALL) *)
| WordB                       (* \b *)
| Seq (a b : regex)
| Alt (a b : regex)           (* a|b, left alternative first *)
| Star (a : regex)            (* a*, greedy *)
| Grp (n : nat) (a : regex).  (* capturing group number n *)

Definition Plus (a : regex) : regex := Seq a (Star a).      (* a+ *)
Definition Opt (a : regex) : regex := Alt a Eps.            (* a? *)
Definition Sp : regex := Cls [CSpace].                      (* \s *)
Definition Dg : regex := Cls [CDigit].                      (* \d *)

(** A literal string, as produced by [re.escape]. *)
Fixpoint Lit (s : str) : regex :=
  match s with
  | [] => Eps
  | [c] => Chr c
  | c :: s' => Seq (Chr c) (Lit s')
  end.

Definition L (s : string) : regex := Lit (py s).

(** [a|b|c] *)
Fixpoint AltL (l : list regex) : regex :=
  match l with
  | [] => Eps
  | [a] => a
  | a :: l' => Alt a (AltL l')
  end.

Fixpoint SeqL (l : list regex) : regex :=
  match l with
  | [] => Eps
  | [a] => a
  | a :: l' => Seq a (SeqL l')
  end.

(** Matcher state: the character before the cursor, the cursor, the
    text after the cursor, and the groups captured so far (most recent
    binding first). *)
Record mstate : Type := MState {
  m_prev : option char;
  m_pos : nat;
  m_rest : str;
  m_groups : list (nat * str)
}.

Definition advance (c : char) (rest' : str) (st : mstate) : mstate :=
  MState (Some c) (S (m_pos st)) rest' (m_groups st).

Definition chr_eq (ic : bool) (p c : char) : bool :=
  if ic then N.eqb (ci_fold p) (ci_fold c) else N.eqb p c.

Definition cls_has (ic : bool) (cs : list citem) (c : char) : bool :=
  existsb (fun i => citem_has i c) cs
  || (ic && (existsb (fun i => citem_has i (char_lower c)) cs
             || existsb (fun i => citem_has i (char_title c)) cs)).

Definition opt_word (o : option char) : bool :=
  match o with Some c => is_word c | None => false end.

(** [\b]: exactly one side of the cursor is a word character. *)
Definition at_boundary (st : mstate) : bool :=
  xorb (opt_word (m_prev st)) (opt_word (hd_error (m_rest st))).

Definition set_group (n : nat) (from to : mstate) : mstate :=
  MState (m_prev to) (m_pos to) (m_rest to)
         ((n, firstn (m_pos to - m_pos from)%nat (m_rest from)) :: m_groups to).

(** Backtracking matcher in continuation-passing style: [k] is what
    remains to be matched; alternatives are tried left to right and
    repetition is greedy, as in [re].  A repetition runs at most once
    per remaining character, since an iteration that consumes nothing
    is not repeated. *)
Fixpoint rmatch {A : Type} (ic : bool) (r : regex) (st : mstate)
         (k : mstate -> option A) {struct r} : option A :=
  match r with
  | Eps => k st
  | Chr c =>
      match m_rest st with
      | x :: xs => if chr_eq ic c x then k (advance x xs st) else None
      | [] => None
      end
  | Cls cs =>
      match m_rest st with
      | x :: xs => if cls_has ic cs x then k (advance x xs st) else None
      | [] => None
      end
  | Any =>
      match m_rest st with
      | x :: xs => if N.eqb x 10 then None else k (advance x xs st)
      | [] => None
      end
  | WordB => if at_boundary st then k st else None
  | Seq a b => rmatch ic a st (fun st' => rmatch ic b st' k)
  | Alt a b =>
      match rmatch ic a st k with
      | Some x => Some x
      | None => rmatch ic b st k
      end
  | Star a =>
      (fix loop (n : nat) (st : mstate) {struct n} : option A :=
         match n with
         | O => k st
         | S n' =>
             match rmatch ic a st
                     (fun st' => if Nat.ltb (m_pos st) (m_pos st')
                                 then loop n' st' else None) with
             | Some x => Some x
             | None => k st
             end
         end) (length (m_rest st)) st
  | Grp n a => rmatch ic a st (fun st' => k (set_group n st st'))
  end.

(** A match object. *)
Record rmatch_obj : Type := MatchObj {
  m_start : nat;              (* m.start() *)
  m_end : nat;                (* m.end() *)
  m_text : str;               (* m.group(0) *)
  m_caps : list (nat * str)
}.

Fixpoint lookup_group (n : nat) (l : list (nat * str)) : option str :=
  match l with
  | [] => None
  | (i, t) :: l' => if Nat.eqb i n then Some t else lookup_group n l'
  end.

(** [m.group(n)]; a group that took no part in the match reads as the
    empty string, which is what [findall] reports for it. *)
Definition group (n : nat) (m : rmatch_obj) : str :=
  match lookup_group n (m_caps m) with Some t => t | None => [] end.

(** Try to match [r] with the cursor at [pos]. *)
Definition match_here (ic : bool) (r : regex) (prev : option char)
           (pos : nat) (rest : str) : option rmatch_obj :=
  match rmatch ic r (MState prev pos rest []) Some with
  | Some st' =>
      Some (MatchObj pos (m_pos st') (firstn (m_pos st' - pos)%nat rest)
                     (m_groups st'))
  | None => None
  end.

(** Leftmost match at or after the cursor. *)
Fixpoint search_from (ic : bool) (r : regex) (prev : option char)
         (pos : nat) (rest : str) {struct rest} : option rmatch_obj :=
  match match_here ic r prev pos rest with
  | Some m => Some m
  | None =>
      match rest with
      | [] => None
      | c :: rest' => search_from ic r (Some c) (S pos) rest'
      end
  end.

(** [re.search(r, s)] *)
Definition search (ic : bool) (r : regex) (s : str) : option rmatch_obj :=
  search_from ic r None 0%nat s.

(** All non-overlapping matches, left to right.  [skip] counts the
    characters still covered by the previous match. *)
Fixpoint scan (ic : bool) (r : regex) (prev : option char) (pos : nat)
         (rest : str) (skip : nat) {struct rest} : list rmatch_obj :=
  let here := match skip with
              | O => match_here ic r prev pos rest
              | S _ => None
              end in
  match here with
  | Some m =>
      m :: match rest with
           | [] => []
           | c :: rest' => scan ic r (Some c) (S pos) rest' (m_end m - pos - 1)%nat
           end
  | None =>
      match rest with
      | [] => []
      | c :: rest' => scan ic r (Some c) (S pos) rest' (pred skip)
      end
  end.

(** [re.finditer(r, s)] *)
Definition finditer (ic : bool) (r : regex) (s : str) : list rmatch_obj :=
  scan ic r None 0%nat s 0%nat.

(** [re.findall(r, s)] for a pattern with one group *)
Definition findall1 (ic : bool) (r : regex) (s : str) : list str :=
  map (group 1) (finditer ic r s).

(** [re.findall(r, s)] for a pattern with two groups *)
Definition findall2 (ic : bool) (r : regex) (s : str) : list (str * str) :=
  map (fun m => (group 1 m, group 2 m)) (finditer ic r s).

(** [re.split(r, s)] for a pattern without groups *)
Fixpoint split_at (ms : list rmatch_obj) (pos : nat) (s : str) : list str :=
  match ms with
  | [] => [s]
  | m :: ms' =>
      firstn (m_start m - pos)%nat s
        :: split_at ms' (m_end m) (skipn (m_end m - pos)%nat s)
  end.

Definition split (r : regex) (s : str) : list str :=
  split_at (finditer false r s) 0%nat s.

(** [re.sub(r, repl, s)] for a replacement without escapes and a
    pattern that matches no empty string. *)
Fixpoint sub_at (repl : str) (ms : list rmatch_obj) (pos : nat) (s : str)
  : str :=
  match ms with
  | [] => s
  | m :: ms' =>
      firstn (m_start m - pos)%nat s ++ repl
        ++ sub_at repl ms' (m_end m) (skipn (m_end m - pos)%nat s)
  end.

Definition sub (r : regex) (repl s : str) : str :=
  sub_at repl (finditer false r s) 0%nat s.

End Re.

(* ================================================================== *)
(** ** app/skills/skill_database.py *)
(* ================================================================== *)

Module SkillDatabase.
Import Py.

#[local] Open Scope string_scope.

(** [SKILL_ALIASES], in the order of the dictionary literal. *)
Definition SKILL_ALIASES : list (str * str) :=
  map (fun kv => (py (fst kv), py (snd kv)))
  [ ("js", "JavaScript"); ("javascript", "JavaScript"); ("es6", "JavaScript");
    ("es2015", "JavaScript"); ("ecmascript", "JavaScript");
    ("ts", "TypeScript"); ("typescript", "TypeScript");
    ("py", "Python"); ("python", "Python"); ("python3", "Python");
    ("python2", "Python");
    ("react", "React"); ("reactjs", "React"); ("react.js", "React");
    ("node", "Node.js"); ("nodejs", "Node.js"); ("node.js", "Node.js");
    ("postgres", "PostgreSQL"); ("postgresql", "PostgreSQL");
    ("mysql", "MySQL"); ("mongo", "MongoDB"); ("mongodb", "MongoDB");
    ("sql server", "SQL Server"); ("mssql", "SQL Server");
    ("aws", "AWS"); ("amazon web services", "AWS");
    ("azure", "Azure"); ("microsoft azure", "Azure");
    ("gcp", "Google Cloud"); ("google cloud", "Google Cloud");
    ("google cloud platform", "Google Cloud");
    ("docker", "Docker"); ("containerization", "Docker");
    ("k8s", "Kubernetes"); ("kubernetes", "Kubernetes");
    ("c#", "C#"); ("csharp", "C#"); ("c sharp", "C#");
    ("c++", "C++"); ("cpp", "C++");
    (".net", ".NET"); ("dotnet", ".NET"); ("dot net", ".NET");
    ("ml", "Machine Learning"); ("machine learning", "Machine Learning");
    ("ai", "Artificial Intelligence");
    ("artificial intelligence", "Artificial Intelligence");
    ("dl", "Deep Learning"); ("deep learning", "Deep Learning");
    ("nlp", "NLP"); ("natural language processing", "NLP");
    ("tensorflow", "TensorFlow"); ("tf", "TensorFlow");
    ("pytorch", "PyTorch"); ("torch", "PyTorch");
    ("git", "Git"); ("github", "GitHub"); ("gitlab", "GitLab");
    ("bitbucket", "Bitbucket");
    ("ci/cd", "CI/CD"); ("cicd", "CI/CD");
    ("continuous integration", "CI/CD"); ("jenkins", "Jenkins");
    ("agile", "Agile"); ("scrum", "Scrum"); ("kanban", "Kanban");
    ("angular", "Angular"); ("angularjs", "Angular");
    ("vue", "Vue.js"); ("vuejs", "Vue.js"); ("vue.js", "Vue.js");
    ("svelte", "Svelte"); ("nextjs", "Next.js"); ("next.js", "Next.js");
    ("django", "Django"); ("flask", "Flask"); ("fastapi", "FastAPI");
    ("express", "Express.js"); ("expressjs", "Express.js");
    ("spring", "Spring"); ("spring boot", "Spring Boot");
    ("springboot", "Spring Boot");
    ("react native", "React Native"); ("flutter", "Flutter");
    ("swift", "Swift"); ("kotlin", "Kotlin");
    ("ios", "iOS Development"); ("android", "Android Development");
    ("pandas", "Pandas"); ("numpy", "NumPy"); ("scipy", "SciPy");
    ("scikit-learn", "Scikit-learn"); ("sklearn", "Scikit-learn");
    ("matplotlib", "Matplotlib"); ("seaborn", "Seaborn");
    ("spark", "Apache Spark"); ("apache spark", "Apache Spark");
    ("hadoop", "Hadoop"); ("kafka", "Apache Kafka");
    ("apache kafka", "Apache Kafka");
    ("jest", "Jest"); ("mocha", "Mocha"); ("pytest", "pytest");
    ("unittest", "unittest"); ("selenium", "Selenium");
    ("cypress", "Cypress");
    ("rest", "REST API"); ("restful", "REST API"); ("rest api", "REST API");
    ("graphql", "GraphQL"); ("grpc", "gRPC") ].

(** [SKILL_CATEGORIES], in the order of the dictionary literal; each
    set is listed in the order it is written. *)
Definition SKILL_CATEGORIES : list (str * list str) :=
  map (fun kv => (py (fst kv), map py (snd kv)))
  [ ("programming_languages",
     [ "JavaScript"; "TypeScript"; "Python"; "Java"; "C#"; "C++"; "C";
       "Go"; "Rust"; "Ruby"; "PHP"; "Swift"; "Kotlin"; "Scala"; "R";
       "MATLAB"; "Perl"; "Haskell"; "Elixir"; "Clojure" ]);
    ("frontend",
     [ "React"; "Angular"; "Vue.js"; "Svelte"; "Next.js"; "HTML"; "CSS";
       "Sass"; "Less"; "Tailwind CSS"; "Bootstrap"; "Material UI";
       "Redux"; "MobX"; "Webpack"; "Vite"; "jQuery" ]);
    ("backend",
     [ "Node.js"; "Django"; "Flask"; "FastAPI"; "Express.js"; "Spring";
       "Spring Boot"; ".NET"; "Ruby on Rails"; "Laravel"; "ASP.NET" ]);
    ("databases",
     [ "PostgreSQL"; "MySQL"; "MongoDB"; "Redis"; "Elasticsearch";
       "SQL Server"; "Oracle"; "SQLite"; "Cassandra"; "DynamoDB";
       "Firebase"; "Neo4j" ]);
    ("cloud",
     [ "AWS"; "Azure"; "Google Cloud"; "Heroku"; "DigitalOcean";
       "Vercel"; "Netlify"; "Cloudflare" ]);
    ("devops",
     [ "Docker"; "Kubernetes"; "CI/CD"; "Jenkins"; "GitHub Actions";
       "GitLab CI"; "Terraform"; "Ansible"; "Linux"; "Nginx"; "Apache" ]);
    ("data_science",
     [ "Machine Learning"; "Deep Learning"; "NLP"; "TensorFlow";
       "PyTorch"; "Keras"; "Scikit-learn"; "Pandas"; "NumPy";
       "Data Analysis"; "Statistics"; "Computer Vision" ]);
    ("mobile",
     [ "React Native"; "Flutter"; "iOS Development"; "Android Development";
       "Swift"; "Kotlin"; "Xamarin" ]);
    ("tools",
     [ "Git"; "GitHub"; "GitLab"; "Bitbucket"; "Jira"; "Confluence";
       "Slack"; "VS Code"; "IntelliJ"; "Postman"; "Figma" ]);
    ("soft_skills",
     [ "Leadership"; "Communication"; "Teamwork"; "Problem Solving";
       "Critical Thinking"; "Time Management"; "Agile"; "Scrum";
       "Project Management"; "Mentoring" ]);
    ("testing",
     [ "Jest"; "Mocha"; "pytest"; "Selenium"; "Cypress"; "JUnit";
       "TestNG"; "Unit Testing"; "Integration Testing"; "E2E Testing";
       "TDD"; "BDD" ]) ].

(** [d.get(k)] on a dictionary kept as an association list *)
Fixpoint dict_get {V : Type} (k : str) (d : list (str * V)) : option V :=
  match d with
  | [] => None
  | (k', v) :: d' => if str_eqb k k' then Some v else dict_get k d'
  end.

(** Elements of a Python set built from a sequence: duplicates removed,
    first occurrence kept. *)
Fixpoint set_of (l : list str) : list str :=
  match l with
  | [] => []
  | x :: l' => x :: filter (fun y => negb (str_eqb x y)) (set_of l')
  end.

(** [self._aliases = {k.lower(): v for k, v in SKILL_ALIASES.items()}] *)
Definition _aliases : list (str * str) :=
  map (fun kv => (lower (fst kv), snd kv)) SKILL_ALIASES.

Definition _categories : list (str * list str) := SKILL_CATEGORIES.

(** [_build_skill_set]: every category member, then every alias
    target. *)
Definition _build_skill_set : list str :=
  set_of (concat (map snd _categories) ++ map snd _aliases).

Definition _all_skills : list str := _build_skill_set.

Definition normalize (skill : str) : str :=
  let skill_lower := strip (lower skill) in
  match dict_get skill_lower _aliases with
  | Some canonical => canonical
  | None =>
      match find (fun known_skill => str_eqb skill_lower (lower known_skill))
                 _all_skills with
      | Some known_skill => known_skill
      | None => title (strip skill)
      end
  end.

Definition get_category (skill : str) : option str :=
  let normalized := normalize skill in
  option_map fst (find (fun cs => mem normalized (snd cs)) _categories).

Definition is_core_skill (skill : str) : bool :=
  match get_category skill with
  | Some category =>
      mem category (map py ["programming_languages"; "frontend"; "backend";
                            "databases"; "data_science"])
  | None => false
  end.

Definition is_tool (skill : str) : bool :=
  match get_category skill with
  | Some category => mem category (map py ["tools"; "devops"; "testing"])
  | None => false
  end.

(** [get_related_skills]: the member set of the skill's category.  The
    key passed to [self._categories[...]] was returned by
    [get_category], so it is present ([related_lookup_hits] below). *)
Definition get_related_skills (skill : str) : list str :=
  match get_category skill with
  | Some (ch :: s) =>
      match dict_get (ch :: s) _categories with
      | Some members => members
      | None => []
      end
  | _ => []
  end.

End SkillDatabase.

(* ================================================================== *)
(** ** app/skills/skill_extractor.py *)
(* ================================================================== *)

Module SkillExtractor.
Import Py Re SkillDatabase.

#[local] Open Scope string_scope.

(** [years] is a Python float; every value the extractor stores is a
    whole number (a parsed digit string or one of the defaults 5.0, 3.0,
    1.0, 0.0), so it is kept as an integer. *)
Record ExtractedSkill : Type := mkExtractedSkill {
  name : str;
  normalized_name : str;
  category : str;
  experience_level : str;
  context : str;
  years : Z
}.

(** [(?:a|b|c)] over literal words *)
Definition words (l : list string) : regex := AltL (map L l).

(** [\s+] and [\s*] *)
Definition Sp1 : regex := Plus Sp.
Definition Sp0 : regex := Star Sp.

(** [years?] *)
Definition years_q : regex := Seq (L "year") (Opt (L "s")).

(** The pattern lists, after [pattern.format(skill=re.escape(...))]:
    [skill] stands for the escaped literal. *)
Definition EXPERT_PATTERNS (skill : regex) : list regex :=
  [ SeqL [words ["expert"; "advanced"; "senior"; "lead"; "architect"]; Sp1;
          Opt (words ["in"; "with"; "level"]); Sp0; skill];
    SeqL [skill; Sp1; words ["expert"; "architect"; "lead"]];
    SeqL [words ["deep"; "extensive"; "strong"]; Sp1;
          words ["experience"; "expertise"; "knowledge"]; Sp1;
          words ["in"; "with"]; Sp1; skill];
    SeqL [Alt (SeqL [Plus Dg; Opt (L "+"); Sp0; years_q])
              (SeqL [Cls [CRange (N_of_ascii "5") (N_of_ascii "9")];
                     Star Dg; Sp0; years_q]);
          Sp1; Opt (Seq (L "of") Sp1); Opt (Seq (L "experience") Sp1);
          words ["in"; "with"]; Sp1; skill] ].

Definition PROFICIENT_PATTERNS (skill : regex) : list regex :=
  [ SeqL [words ["proficient"; "experienced"; "skilled"]; Sp1;
          words ["in"; "with"]; Sp1; skill];
    SeqL [skill; Sp1; words ["developer"; "engineer"; "specialist"]];
    SeqL [words ["worked"; "working"]; Sp1; Opt (Seq (L "extensively") Sp1);
          words ["with"; "on"]; Sp1; skill];
    SeqL [SeqL [Cls [CRange (N_of_ascii "2") (N_of_ascii "4")]; Sp0; years_q];
          Sp1; Opt (Seq (L "of") Sp1); Opt (Seq (L "experience") Sp1);
          words ["in"; "with"]; Sp1; skill];
    SeqL [words ["built"; "developed"; "created"; "implemented"]; Sp1;
          Star Any; skill] ].

Definition USED_PATTERNS (skill : regex) : list regex :=
  [ SeqL [AltL [L "used"; L "using"; SeqL [L "worked"; Sp1; L "with"]];
          Sp1; skill];
    SeqL [skill; Sp1; words ["for"; "in"]; Sp1];
    SeqL [words ["experience"; "knowledge"]; Sp1; words ["in"; "with"; "of"];
          Sp1; skill];
    SeqL [words ["familiar"; "comfortable"]; Sp1; L "with"; Sp1; skill] ].

(** [re.escape] (Python 3.7 and later): a backslash before each
    special character.  Only the length of the result is used, as the
    sort key of [_compile_patterns]. *)
Definition is_special (c : char) : bool :=
  existsb (N.eqb c) (py "()[]{}?*+-|^$\.&~# ") || in_range 9%N 13%N c.

Definition escape (s : str) : str :=
  flat_map (fun c => if is_special c then [N_of_ascii "\"; c] else [c]) s.

(** [sorted(l, key=len, reverse=True)]: stable, longest first. *)
Fixpoint insert_longest_first (x : str) (l : list str) : list str :=
  match l with
  | [] => [x]
  | y :: l' =>
      if Nat.ltb (length (escape x)) (length (escape y))
      then y :: insert_longest_first x l'
      else x :: l
  end.

Definition sorted_longest_first (l : list str) : list str :=
  fold_right insert_longest_first [] l.

(** The alternatives of the skill pattern: every alias key, then every
    known skill in lower case, as a set, longest first. *)
Definition skill_alternatives : list str :=
  sorted_longest_first
    (set_of (map fst _aliases ++ map lower _all_skills)).

(** [_compile_patterns]: [\b(alt1|alt2|...)\b], [re.IGNORECASE] *)
Definition _skill_pattern : regex :=
  SeqL [WordB; Grp 1 (AltL (map Lit skill_alternatives)); WordB].

(** [_split_sentences] *)
Definition sentence_break : regex :=
  Plus (Cls [COne (N_of_ascii "."); COne (N_of_ascii "!");
             COne (N_of_ascii "?"); COne 10%N]).

Definition _split_sentences (text : str) : list str :=
  map strip
      (filter (fun s => negb (str_eqb (strip s) []))
              (Re.split sentence_break text)).

(** [_extract_years] *)
Definition years_pattern : regex :=
  SeqL [Grp 1 (Plus Dg); Opt (L "+"); Sp0; years_q].

Definition _extract_years (context : str) : Z :=
  match search false years_pattern (lower context) with
  | Some years_match => int_of (group 1 years_match)
  | None => 0%Z
  end.

Definition matches_any (patterns : list regex) (s : str) : bool :=
  existsb (fun pattern =>
             match search false pattern s with
             | Some _ => true
             | None => false
             end) patterns.

(** [_detect_experience_level] *)
Definition _detect_experience_level (context skill : str) : str * Z :=
  let context_lower := lower context in
  let skill_pattern := Lit (lower skill) in
  let years := _extract_years context in
  if matches_any (EXPERT_PATTERNS skill_pattern) context_lower then
    (py "expert", if Z.ltb 0 years then years else 5%Z)
  else if matches_any (PROFICIENT_PATTERNS skill_pattern) context_lower then
    (py "proficient", if Z.ltb 0 years then years else 3%Z)
  else if matches_any (USED_PATTERNS skill_pattern) context_lower then
    (py "used", if Z.ltb 0 years then years else 1%Z)
  else (py "mentioned", 0%Z).

(** The body of the inner loop of [extract_skills]: one match of one
    sentence, threading [skills] and [seen_skills]. *)
Definition extract_match (sentence : str)
           (acc : list ExtractedSkill * list str) (match_ : str)
  : list ExtractedSkill * list str :=
  let (skills, seen_skills) := acc in
  let normalized := normalize match_ in
  if mem (lower normalized) seen_skills then acc
  else
    let seen_skills' := lower normalized :: seen_skills in
    let (level, yrs) := _detect_experience_level sentence match_ in
    let cat := match get_category normalized with
               | Some c => c
               | None => py "other"
               end in
    ((skills ++ [mkExtractedSkill match_ normalized cat level
                                  (strip sentence) yrs])%list,
     seen_skills').

(** The body of the outer loop: one sentence. *)
Definition extract_sentence (acc : list ExtractedSkill * list str)
           (sentence : str) : list ExtractedSkill * list str :=
  let sentence_lower := lower sentence in
  let matches := findall1 true _skill_pattern sentence_lower in
  fold_left (extract_match sentence) matches acc.

Definition extract_skills (text : str) : list ExtractedSkill :=
  fst (fold_left extract_sentence (_split_sentences text) ([], [])).

(** The dictionary [get_skill_summary] returns. *)
Record SkillSummary : Type := mkSkillSummary {
  total_skills : nat;
  by_category : list (str * list str);
  by_level : list (str * list str);
  core_skills : list str;
  tools : list str
}.

(** [d[k].append(v)]; [None] is the [KeyError] of a missing key. *)
Fixpoint dict_append (k v : str) (d : list (str * list str))
  : option (list (str * list str)) :=
  match d with
  | [] => None
  | (k', l) :: d' =>
      if str_eqb k k' then Some ((k', (l ++ [v])%list) :: d')
      else option_map (cons (k', l)) (dict_append k v d')
  end.

(** [if k not in d: d[k] = []] followed by [d[k].append(v)] *)
Definition dict_add_append (k v : str) (d : list (str * list str))
  : list (str * list str) :=
  match dict_append k v d with
  | Some d' => d'
  | None => (d ++ [(k, [v])])%list
  end.

(** The summary before the loop. *)
Definition empty_summary (n : nat) : SkillSummary :=
  mkSkillSummary n []
    [(py "expert", []); (py "proficient", []); (py "used", []);
     (py "mentioned", [])]
    [] [].

(** The body of the loop of [get_skill_summary]; [None] is the
    [KeyError] raised for a level that is not one of the four keys. *)
Definition summary_step (summary : SkillSummary) (skill : ExtractedSkill)
  : option SkillSummary :=
  let by_category' :=
    dict_add_append (category skill) (normalized_name skill)
                    (by_category summary) in
  match dict_append (experience_level skill) (normalized_name skill)
                    (by_level summary) with
  | None => None
  | Some by_level' =>
      let core := is_core_skill (normalized_name skill) in
      let core_skills' :=
        if core then (core_skills summary ++ [normalized_name skill])%list
        else core_skills summary in
      let tools' :=
        if core then tools summary
        else if is_tool (normalized_name skill)
             then (tools summary ++ [normalized_name skill])%list
             else tools summary in
      Some (mkSkillSummary (total_skills summary) by_category' by_level'
                           core_skills' tools')
  end.

Fixpoint summary_loop (summary : SkillSummary) (skills : list ExtractedSkill)
  : option SkillSummary :=
  match skills with
  | [] => Some summary
  | skill :: skills' =>
      match summary_step summary skill with
      | Some summary' => summary_loop summary' skills'
      | None => None
      end
  end.

(** [get_skill_summary] *)
Definition get_skill_summary (skills : list ExtractedSkill)
  : option SkillSummary :=
  summary_loop (empty_summary (length skills)) skills.

End SkillExtractor.

(* ================================================================== *)
(** ** app/skills/experience_detector.py *)
(* ================================================================== *)

Module ExperienceDetector.
Import Py Re.

#[local] Open Scope string_scope.

Module WorkExperience.
Record t : Type := mk {
  title : str;
  company : str;
  duration_months : Z;
  start_date : option str;
  end_date : option str;
  is_current : bool;
  is_internship : bool;
  is_freelance : bool;
  description : str
}.
End WorkExperience.

Module Project.
Record t : Type := mk {
  name : str;
  description : str;
  technologies : list str;
  is_professional : bool
}.
End Project.

Record ExperienceAnalysis : Type := mkExperienceAnalysis {
  total_experience_months : Z;
  relevant_experience_months : Z;
  work_experiences : list WorkExperience.t;
  projects : list Project.t;
  has_career_gaps : bool;
  gap_explanation : option str;
  experience_trajectory : str;
  seniority_estimate : str
}.

(** [datetime.now()], read by [_extract_dates]: the year and the month
    of the day the analysis runs. *)
Record Clock : Type := mkClock { now_year : Z; now_month : Z }.

Definition words (l : list string) : regex := AltL (map L l).
Definition Sp1 : regex := Plus Sp.
Definition Sp0 : regex := Star Sp.
Definition NL : char := 10%N.
Definition c (a : ascii) : char := N_of_ascii a.

(** [projects?] *)
Definition projects_q : regex := Seq (L "project") (Opt (L "s")).

Definition EXPERIENCE_HEADERS : list regex :=
  [ Seq (Opt (Seq (L "work") Sp1)) (L "experience");
    SeqL [L "employment"; Sp1; L "history"];
    SeqL [L "professional"; Sp1; L "experience"];
    SeqL [L "career"; Sp1; L "history"];
    SeqL [L "work"; Sp1; L "history"] ].

Definition PROJECT_HEADERS : list regex :=
  [ projects_q;
    SeqL [L "personal"; Sp1; projects_q];
    SeqL [L "side"; Sp1; projects_q];
    L "portfolio";
    SeqL [L "notable"; Sp1; projects_q] ].

Definition TITLE_PATTERNS : list regex :=
  [ SeqL [Opt (Grp 1 (words ["senior"; "junior"; "lead"; "principal";
                             "staff"; "associate"]));
          Sp0;
          Opt (Grp 2 (AltL [L "software"; L "backend"; L "frontend";
                            SeqL [L "full";
                                  Opt (Cls [CSpace; COne (c "-")]);
                                  L "stack"];
                            L "web"; L "mobile"; L "devops"; L "data";
                            L "ml"; L "ai"]));
          Sp0;
          Grp 3 (words ["engineer"; "developer"; "programmer"; "architect";
                        "analyst"; "scientist"; "manager"; "director"])] ].

Definition INTERNSHIP_INDICATORS : list str :=
  map py ["intern"; "internship"; "trainee"; "apprentice"].

Definition FREELANCE_INDICATORS : list str :=
  map py ["freelance"; "consultant"; "contractor"; "self-employed";
          "independent"].

(** [rf'\n\s*({header})\s*[:\n]'] *)
Definition header_pattern (header : regex) : regex :=
  SeqL [Chr NL; Sp0; Grp 1 header; Sp0; Cls [COne (c ":"); COne NL]].

(** [r'\n\s*(?:education|skills|certif|awards|reference|contact)'] *)
Definition next_section_pattern : regex :=
  SeqL [Chr NL; Sp0;
        words ["education"; "skills"; "certif"; "awards"; "reference";
               "contact"]].

Fixpoint _find_section_loop (text text_lower : str) (headers : list regex)
  : option str :=
  match headers with
  | [] => None
  | header :: headers' =>
      match search false (header_pattern header) text_lower with
      | Some m =>
          let start := m_end m in
          let next_section :=
            search false next_section_pattern (skipn start text_lower) in
          let end_ := match next_section with
                      | Some nx => (start + m_start nx)%nat
                      | None => length text
                      end in
          Some (slice start end_ text)
      | None => _find_section_loop text text_lower headers'
      end
  end.

Definition _find_section (text : str) (headers : list regex) : option str :=
  _find_section_loop text (lower text) headers.

(** [r'\n\s*\n'] *)
Definition blank_line_run : regex := SeqL [Chr NL; Sp0; Chr NL].

Definition _split_into_entries (section : str) : list str :=
  map strip
      (filter (fun e => negb (str_eqb (strip e) [])
                        && Nat.ltb 20 (length (strip e)))
              (Re.split blank_line_run section)).

Fixpoint _extract_title_loop (patterns : list regex) (line : str)
  : option str :=
  match patterns with
  | [] => if Nat.ltb (length (strip line)) 100
          then Some (firstn 100 (strip line)) else None
  | pattern :: patterns' =>
      match search true pattern line with
      | Some m => Some (title (strip (m_text m)))
      | None => _extract_title_loop patterns' line
      end
  end.

Definition _extract_title (line : str) : option str :=
  _extract_title_loop TITLE_PATTERNS line.

(** [[a-zA-Z0-9\s&.]] *)
Definition company_char : regex :=
  Cls [CRange (c "a") (c "z"); CRange (c "A") (c "Z");
       CRange (c "0") (c "9"); CSpace; COne (c "&"); COne (c ".")].

Definition company_name : regex :=
  Seq (Cls [CRange (c "A") (c "Z")]) (Plus company_char).

Definition company_patterns : list regex :=
  [ SeqL [AltL [L "at"; L "@"]; Sp1; Grp 1 company_name];
    SeqL [Grp 1 company_name; Sp0; Cls [COne (c "-"); COne (c "|")]; Sp0;
          words ["senior"; "junior"; "lead"; "software"]] ].

Fixpoint _extract_company_loop (patterns : list regex) (entry : str)
  : option str :=
  match patterns with
  | [] => None
  | pattern :: patterns' =>
      match search false pattern entry with
      | Some m => Some (strip (group 1 m))
      | None => _extract_company_loop patterns' entry
      end
  end.

Definition _extract_company (entry : str) : option str :=
  _extract_company_loop company_patterns entry.

(** [\d{4}] *)
Definition Dg4 : regex := SeqL [Dg; Dg; Dg; Dg].

(** [r'(\d{4})\s*[-–to]+\s*(\d{4}|present|current|now)'];
    8211 is the en dash. *)
Definition year_range_pattern : regex :=
  SeqL [Grp 1 Dg4; Sp0;
        Plus (Cls [COne (c "-"); COne 8211%N; COne (c "t"); COne (c "o")]);
        Sp0;
        Grp 2 (AltL [Dg4; L "present"; L "current"; L "now"])].

(** [r'(jan|feb|...|dec)[a-z]*\.?\s*(\d{4})'] *)
Definition month_year_pattern : regex :=
  SeqL [Grp 1 (words ["jan"; "feb"; "mar"; "apr"; "may"; "jun"; "jul";
                      "aug"; "sep"; "oct"; "nov"; "dec"]);
        Star (Cls [CRange (c "a") (c "z")]); Opt (L "."); Sp0; Grp 2 Dg4].

Definition months : list (str * Z) :=
  map (fun kv => (py (fst kv), snd kv))
  [ ("jan", 1); ("feb", 2); ("mar", 3); ("apr", 4); ("may", 5); ("jun", 6);
    ("jul", 7); ("aug", 8); ("sep", 9); ("oct", 10); ("nov", 11);
    ("dec", 12) ]%Z.

(** [months[k]].  The key is the first group of [month_year_pattern],
    always one of the twelve keys ([month_years_keys] below), so the
    [KeyError] branch is never taken. *)
Definition months_get (k : str) : Z :=
  match SkillDatabase.dict_get k months with
  | Some n => n
  | None => 0%Z
  end.

Definition present_words : list str := map py ["present"; "current"; "now"].

(** [_extract_dates]: start date, end date and duration in months. *)
Definition _extract_dates (clock : Clock) (entry : str)
  : option str * option str * Z :=
  let entry_lower := lower entry in
  match search false year_range_pattern entry_lower with
  | Some year_range =>
      let start_year := int_of (group 1 year_range) in
      let end_str := group 2 year_range in
      let (end_year, end_month) :=
        if mem end_str present_words
        then (now_year clock, now_month clock)
        else (int_of end_str, 12%Z) in
      let duration := ((end_year - start_year) * 12 + (end_month - 6))%Z in
      (Some (str_of_int start_year), Some end_str, Z.max 1 duration)
  | None =>
      let month_years := findall2 false month_year_pattern entry_lower in
      match month_years with
      | (m0, y0) :: (m1, y1) :: _ =>
          let start := (title m0 ++ py " " ++ y0)%list in
          let end_ := (title m1 ++ py " " ++ y1)%list in
          let start_month := months_get (firstn 3 m0) in
          let start_year := int_of y0 in
          let end_month := months_get (firstn 3 m1) in
          let end_year := int_of y1 in
          let duration :=
            ((end_year - start_year) * 12 + (end_month - start_month))%Z in
          (Some start, Some end_, Z.max 1 duration)
      | _ => (None, None, 12%Z)
      end
  end.

(** [x or default] on an optional string *)
Definition or_default (x : option str) (default : str) : str :=
  match x with
  | Some (ch :: s) => ch :: s
  | _ => default
  end.

Definition _parse_experience_entry (clock : Clock) (entry : str)
  : option WorkExperience.t :=
  match split_chr NL entry with
  | [] => None
  | line0 :: _ =>
      let title := or_default (_extract_title line0) (py "Unknown Position") in
      let company := or_default (_extract_company entry)
                                (py "Unknown Company") in
      let '(start_date, end_date, duration) := _extract_dates clock entry in
      let is_internship :=
        any (fun ind => str_in ind (lower entry)) INTERNSHIP_INDICATORS in
      let is_freelance :=
        any (fun ind => str_in ind (lower entry)) FREELANCE_INDICATORS in
      let is_current :=
        match end_date with
        | Some (ch :: s) => mem (ch :: s) present_words
        | _ => true
        end in
      Some (WorkExperience.mk title company duration start_date end_date
                              is_current is_internship is_freelance entry)
  end.

(** [[f(e) for e in entries if f(e)]]-style loop: keep the parsed
    entries. *)
Fixpoint keep_some {A B : Type} (f : A -> option B) (l : list A) : list B :=
  match l with
  | [] => []
  | x :: l' =>
      match f x with
      | Some y => y :: keep_some f l'
      | None => keep_some f l'
      end
  end.

Definition _extract_work_experiences (clock : Clock) (text : str)
  : list WorkExperience.t :=
  let exp_section :=
    match _find_section text EXPERIENCE_HEADERS with
    | Some (ch :: s) => ch :: s
    | _ => text
    end in
  let entries := _split_into_entries exp_section in
  keep_some (_parse_experience_entry clock) entries.

Definition professional_words : list str :=
  map py ["client"; "company"; "production"; "deployed"; "users"].

Definition _parse_project_entry (entry : str) : option Project.t :=
  match split_chr NL entry with
  | [] => None
  | line0 :: lines' =>
      let name := firstn 100 (strip line0) in
      let description := strip (join [NL] lines') in
      let techs :=
        map SkillDatabase.normalize
            (filter (fun alias =>
                       match search true (SeqL [WordB; Lit alias; WordB])
                                    entry with
                       | Some _ => true
                       | None => false
                       end)
                    (map fst SkillDatabase._aliases)) in
      let is_professional :=
        any (fun word => str_in word (lower entry)) professional_words in
      Some (Project.mk name description (SkillDatabase.set_of techs)
                       is_professional)
  end.

Definition _extract_projects (text : str) : list Project.t :=
  match _find_section text PROJECT_HEADERS with
  | Some (ch :: s) =>
      keep_some _parse_project_entry (_split_into_entries (ch :: s))
  | _ => []
  end.

(** [_calculate_relevant_experience]: the two accumulating loops. *)
Definition _calculate_relevant_experience
           (experiences : list WorkExperience.t) (projects : list Project.t)
           (required_skills : list str) : Z :=
  match required_skills with
  | [] => sum (map WorkExperience.duration_months experiences)
  | _ :: _ =>
      let required_lower := map lower required_skills in
      let relevant_months :=
        fold_left
          (fun relevant_months exp =>
             let desc_lower := lower (WorkExperience.description exp) in
             if any (fun skill => str_in skill desc_lower) required_lower
             then (relevant_months + WorkExperience.duration_months exp)%Z
             else relevant_months)
          experiences 0%Z in
      fold_left
        (fun relevant_months proj =>
           let proj_text :=
             lower (Project.name proj ++ py " " ++ Project.description proj)%list in
           if any (fun skill => str_in skill proj_text) required_lower
           then (relevant_months + 6)%Z
           else relevant_months)
        projects relevant_months
  end.

Definition _detect_career_gaps (experiences : list WorkExperience.t)
  : bool * option str := (false, None).

Definition senior_keywords : list str :=
  map py ["senior"; "lead"; "principal"; "staff"; "manager"; "director";
          "architect"].

Definition _analyze_trajectory (experiences : list WorkExperience.t) : str :=
  if Nat.ltb (length experiences) 2 then py "insufficient_data"
  else
    let progression :=
      map (fun exp =>
             let title_lower := lower (WorkExperience.title exp) in
             any (fun kw => str_in kw title_lower) senior_keywords)
          experiences in
    let first := hd false progression in
    let last_ := last progression false in
    if forallb (fun b => b) progression then py "lateral_senior"
    else if last_ && negb first then py "ascending"
    else if first && negb last_ then py "descending"
    else py "mixed".

Definition executive_keywords : list str :=
  map py ["director"; "vp"; "vice president"; "cto"; "ceo"].

Definition lead_keywords : list str :=
  map py ["lead"; "principal"; "staff"; "manager"].

(** The title loop of [_estimate_seniority]; [Some] is an early
    [return]. *)
Fixpoint seniority_of_titles (experiences : list WorkExperience.t)
  : option str :=
  match experiences with
  | [] => None
  | exp :: experiences' =>
      let title_lower := lower (WorkExperience.title exp) in
      if any (fun kw => str_in kw title_lower) executive_keywords
      then Some (py "executive")
      else if any (fun kw => str_in kw title_lower) lead_keywords
      then Some (py "lead")
      else if str_in (py "senior") title_lower
      then Some (py "senior")
      else seniority_of_titles experiences'
  end.

(** [years = total_months / 12] is a float quotient; [years >= 8] holds
    exactly when [total_months >= 96], and [years >= 3] when
    [total_months >= 36]. *)
Definition _estimate_seniority (experiences : list WorkExperience.t)
           (total_months : Z) : str :=
  match seniority_of_titles (firstn 2 experiences) with
  | Some level => level
  | None =>
      if Z.leb 96 total_months then py "senior"
      else if Z.leb 36 total_months then py "mid"
      else py "entry"
  end.

(** [analyze_experience(text, required_skills=None)] *)
Definition analyze_experience (clock : Clock) (text : str)
           (required_skills : option (list str)) : ExperienceAnalysis :=
  let required_skills :=
    match required_skills with Some l => l | None => [] end in
  let work_experiences := _extract_work_experiences clock text in
  let projects := _extract_projects text in
  let total_months :=
    sum (map WorkExperience.duration_months work_experiences) in
  let relevant_months :=
    _calculate_relevant_experience work_experiences projects
                                   required_skills in
  let (has_gaps, gap_explanation) := _detect_career_gaps work_experiences in
  let trajectory := _analyze_trajectory work_experiences in
  let seniority := _estimate_seniority work_experiences total_months in
  mkExperienceAnalysis total_months relevant_months work_experiences
                       projects has_gaps gap_explanation trajectory
                       seniority.

End ExperienceDetector.

(* ================================================================== *)
(** ** app/parsers/pdf_parser.py *)
(* ================================================================== *)

Module PdfParser.
Import Py Re.

#[local] Open Scope string_scope.

Definition NL : char := 10%N.
Definition SPACE : char := 32%N.

(** [_clean_extracted_text]: strip every line, drop the empty lines and
    the lines that are only digits. *)
Definition _clean_extracted_text (text : str) : str :=
  let lines := split_chr NL text in
  let cleaned_lines :=
    filter (fun line => negb (str_eqb line []) && negb (isdigit line))
           (map strip lines) in
  join [NL] cleaned_lines.

(** [r' +'] and [r'\n{3,}'] *)
Definition spaces_pattern : regex := Plus (Chr SPACE).
Definition newlines_pattern : regex :=
  SeqL [Chr NL; Chr NL; Chr NL; Star (Chr NL)].

(** [_normalize_whitespace] *)
Definition _normalize_whitespace (text : str) : str :=
  let text1 := Re.sub spaces_pattern [SPACE] text in
  let text2 := Re.sub newlines_pattern [NL; NL] text1 in
  strip text2.

(** [_extract_text_from_reader], on what [page.extract_text()] gives
    for each page of the reader: [None] when the call raises. *)
Definition _extract_text_from_reader (pages : list (option str)) : str :=
  let text_parts :=
    flat_map (fun page =>
                match page with
                | Some (ch :: page_text) =>
                    [_clean_extracted_text (ch :: page_text)]
                | _ => []
                end) pages in
  _normalize_whitespace (join [NL; NL] text_parts).

End PdfParser.

(* ================================================================== *)
(** ** app/parsers/document_processor.py *)
(* ================================================================== *)

Module DocumentProcessor.
Import Py.

#[local] Open Scope string_scope.

Inductive DocumentType : Type := PDF | DOCX | TEXT | UNKNOWN.

Record ParseResult : Type := mkParseResult {
  success : bool;
  text : str;
  document_type : DocumentType;
  error : option str;
  filename : option str
}.

(** A call that returns or raises; the processor itself raises only
    [NameError]. *)
Inductive outcome (A : Type) : Type :=
| Returns (a : A)
| RaisesNameError.

Arguments Returns {A} a.
Arguments RaisesNameError {A}.

(** What a parser gives: the text, or the message of the exception it
    raised. *)
Inductive parsed : Type :=
| Text (t : str)
| Failed (message : str).

Definition bytes := list N.

Definition SUPPORTED_EXTENSIONS : list str :=
  map py [".pdf"; ".docx"; ".doc"; ".txt"].

Definition DOT : char := N_of_ascii ".".
Definition SLASH : char := N_of_ascii "/".

(** [os.path.splitext] of [posixpath]: the extension starts at the last
    dot of the last component, provided a character other than a dot
    stands before it in that component. *)
Definition splitext (p : str) : str * str :=
  let sepIndex := rfind_chr SLASH p in
  let dotIndex := rfind_chr DOT p in
  if Z.ltb sepIndex dotIndex
  then
    if existsb (fun ch => negb (N.eqb ch DOT))
               (slice (Z.to_nat (sepIndex + 1)) (Z.to_nat dotIndex) p)
    then (firstn (Z.to_nat dotIndex) p, skipn (Z.to_nat dotIndex) p)
    else (p, [])
  else (p, []).

(** [os.path.basename] of [posixpath] *)
Definition basename (p : str) : str :=
  skipn (Z.to_nat (rfind_chr SLASH p + 1)) p.

Definition _detect_type_from_extension (filename : str) : DocumentType :=
  let ext := lower (snd (splitext filename)) in
  if str_eqb ext (py ".pdf") then PDF
  else if mem ext (map py [".docx"; ".doc"]) then DOCX
  else if str_eqb ext (py ".txt") then TEXT
  else UNKNOWN.

(** [_detect_type_from_content].  The third test reads [cls], a name
    that a static method does not have: reaching it raises
    [NameError]. *)
Definition _detect_type_from_content (content : bytes)
  : outcome DocumentType :=
  if starts_with (py "%PDF") content then Returns PDF
  else if starts_with (py "PK") content then Returns DOCX
  else RaisesNameError.

Definition is_unknown (t : DocumentType) : bool :=
  match t with UNKNOWN => true | _ => false end.

Section Parsers.

(** The collaborators: the two parsers on bytes and on paths, the UTF-8
    decoder and the reading of a text file. *)
Variable parse_pdf_from_bytes parse_docx_from_bytes decode_utf8
  : bytes -> parsed.
Variable parse_pdf parse_docx read_text : str -> parsed.

(** The [try] block shared by both entry points. *)
Definition parse_result (doc_type : DocumentType) (name : str)
           (r : parsed) : ParseResult :=
  match r with
  | Text t => mkParseResult true t doc_type None (Some name)
  | Failed message =>
      mkParseResult false [] doc_type (Some message) (Some name)
  end.

Definition process_file (file_path : str) : ParseResult :=
  let name := basename file_path in
  let doc_type := _detect_type_from_extension file_path in
  if is_unknown doc_type
  then mkParseResult false [] doc_type
         (Some (py "Unsupported file type: " ++ snd (splitext file_path))%list)
         (Some name)
  else
    parse_result doc_type name
      match doc_type with
      | PDF => parse_pdf file_path
      | DOCX => parse_docx file_path
      | TEXT => read_text file_path
      | UNKNOWN => Text []
      end.

Definition process_bytes (content : bytes) (name : str)
  : outcome ParseResult :=
  let by_extension := _detect_type_from_extension name in
  match (if is_unknown by_extension
         then _detect_type_from_content content
         else Returns by_extension) with
  | RaisesNameError => RaisesNameError
  | Returns doc_type =>
      if is_unknown doc_type
      then Returns
             (mkParseResult false [] doc_type
                (Some (py "Could not determine file type for: " ++ name)%list)
                (Some name))
      else
        Returns
          (parse_result doc_type name
             match doc_type with
             | PDF => parse_pdf_from_bytes content
             | DOCX => parse_docx_from_bytes content
             | TEXT => decode_utf8 content
             | UNKNOWN => Text []
             end)
  end.

End Parsers.

End DocumentProcessor.

(* ================================================================== *)
(** ** app/agent.py *)
(* ================================================================== *)

Module Agent.
Import Py.

(** The slice of the model's answer that [screen_resume] hands to
    [json.loads]: from the first opening brace to the last closing
    brace of the stripped answer. *)
Definition LBRACE : char := N_of_ascii "{".
Definition RBRACE : char := N_of_ascii "}".

Definition json_text (response_text : str) : str :=
  let content := strip response_text in
  let start := find_chr LBRACE content in
  let end_ := (rfind_chr RBRACE content + 1)%Z in
  slice_z start end_ content.

End Agent.

(* ================================================================== *)
(** ** Vocabulary of the statements *)
(* ================================================================== *)

Unset Implicit Arguments.

Module ReTerms.
Import Py Re.

(** [g] occurs in [s]; [r] is a tail of [s]. *)
Definition infix (g s : str) : Prop := exists a b, s = a ++ g ++ b.
Definition suffix (r s : str) : Prop := exists a, s = a ++ r.

(** The matcher only moves forward in the subject, and every captured
    group is a piece of the subject. *)
Definition state_ok (subject : str) (st : mstate) : Prop :=
  suffix (m_rest st) subject /\
  Forall (fun g => infix (snd g) subject) (m_groups st).

(** Every group of the match object is a piece of the subject. *)
Definition caps_in (subject : str) (m : rmatch_obj) : Prop :=
  Forall (fun g => infix (snd g) subject) (m_caps m).

(** The loop of [Star], by name. *)
Definition star_loop {A : Type} (ic : bool) (a : regex)
           (k : mstate -> option A) : nat -> mstate -> option A :=
  fix loop (n : nat) (st : mstate) {struct n} : option A :=
    match n with
    | O => k st
    | S n' =>
        match rmatch ic a st
                (fun st' => if Nat.ltb (m_pos st) (m_pos st')
                            then loop n' st' else None) with
        | Some x => Some x
        | None => k st
        end
    end.

(** [st'] lies ahead of [st] in the same subject. *)
Definition reach (st st' : mstate) : Prop :=
  length (m_rest st') <= length (m_rest st) /\
  m_pos st' + length (m_rest st') = m_pos st + length (m_rest st).

(** [r] has no capturing group number [n]. *)
Fixpoint no_group (n : nat) (r : regex) : bool :=
  match r with
  | Seq a b | Alt a b => no_group n a && no_group n b
  | Star a => no_group n a
  | Grp i a => negb (Nat.eqb i n) && no_group n a
  | _ => true
  end.

(** [t] is [s] up to the comparison of characters the flag selects. *)
Fixpoint same_text (ic : bool) (s t : str) : bool :=
  match s, t with
  | [], [] => true
  | x :: s', y :: t' => chr_eq ic x y && same_text ic s' t'
  | _, _ => false
  end.

(** The state after the matcher has consumed [t]. *)
Definition consumed (t : str) (st st' : mstate) : Prop :=
  exists rest', m_rest st = t ++ rest' /\ m_rest st' = rest' /\
                m_pos st' = (m_pos st + length t)%nat /\
                m_groups st' = m_groups st.

(** [\b(alt1|alt2|...)\b] over literal alternatives *)
Definition word_alternatives (alts : list str) : regex :=
  SeqL [WordB; Grp 1 (AltL (map Lit alts)); WordB].

(** What one match of [word_alternatives] captures: one of the
    alternatives, up to the comparison of characters. *)
Definition captures_alternative (ic : bool) (alts : list str)
           (m : rmatch_obj) : Prop :=
  exists alt, In alt alts /\ same_text ic alt (group 1 m) = true.

End ReTerms.

Module TaxonomyTerms.
Import Py SkillDatabase.

#[local] Open Scope string_scope.

(** No white space at either end. *)
Definition unpadded (s : str) : Prop := lstrip s = s /\ lstrip (rev s) = rev s.

(** U+017F followed by [ql server]: title-casing turns the long s into
    [S], which makes the second pass hit the alias [sql server]. *)
Definition long_s_ql_server : str := 383%N :: py "ql server".

(** Membership of a name in the set of a category. *)
Definition in_category (x cat : str) : bool :=
  match dict_get cat _categories with
  | Some members => mem x members
  | None => false
  end.

(** Disjointness as the specification states it. *)
Definition categories_disjoint : Prop :=
  forall x c1 c2, c1 <> c2 ->
    in_category x c1 = true -> in_category x c2 = true -> False.

(** Every (category, member) pair of [SKILL_CATEGORIES]. *)
Definition memberships : list (str * str) :=
  flat_map (fun cs => map (fun x => (fst cs, x)) (snd cs)) _categories.

(** [a == b] on optional strings *)
Definition opt_str_eqb (a b : option str) : bool :=
  match a, b with
  | Some x, Some y => str_eqb x y
  | None, None => true
  | _, _ => false
  end.

(** The overlap check run on one pair of memberships. *)
Definition overlap_ok (p q : str * str) : bool :=
  if str_eqb (snd p) (snd q) && negb (str_eqb (fst p) (fst q))
  then (str_eqb (snd p) (py "Swift") || str_eqb (snd p) (py "Kotlin"))
       && ((str_eqb (fst p) (py "programming_languages")
            && str_eqb (fst q) (py "mobile"))
           || (str_eqb (fst p) (py "mobile")
               && str_eqb (fst q) (py "programming_languages")))
       && opt_str_eqb (get_category (snd p))
                      (Some (py "programming_languages"))
  else true.

(** No string occurs twice in the list. *)
Fixpoint distinct (l : list str) : bool :=
  match l with
  | [] => true
  | x :: l' => negb (mem x l') && distinct l'
  end.

(** The categories that make a skill a core skill, and those that make
    it a tool, as [is_core_skill] and [is_tool] list them. *)
Definition core_categories : list str :=
  map py ["programming_languages"; "frontend"; "backend"; "databases";
          "data_science"].

Definition tool_categories : list str :=
  map py ["tools"; "devops"; "testing"].

End TaxonomyTerms.

Module ExtractorTerms.
Import Py Re SkillDatabase SkillExtractor.

#[local] Open Scope string_scope.
#[local] Open Scope list_scope.

(** A record that stems from one of the sentences. *)
Definition from_sentences (sentences : list str) (r : ExtractedSkill)
  : Prop :=
  exists sentence,
    In sentence sentences /\
    context r = strip sentence /\
    In (name r) (findall1 true _skill_pattern (lower sentence)) /\
    normalized_name r = normalize (name r).

(** A sentence with one capitalised mention. *)
Definition sentence_with_python : str := py "Learned Python at school".

(** A text that is exactly [a] yields exactly one record, with the
    canonical name of [a]. *)
Definition extracts_itself (a : str) : bool :=
  match extract_skills a with
  | [r] => str_eqb (normalized_name r) (normalize a)
  | _ => false
  end.

(** The aliases and canonical names for which that fails. *)
Definition missed_names : list str :=
  map py [ "react.js"; "node.js"; "c#"; "c++"; ".net"; "vue.js"; "next.js";
           "C#"; "C++"; "Vue.js"; "Next.js"; "Node.js"; "Express.js";
           ".NET"; "ASP.NET" ].

(** The letter [j] followed by U+017F, LATIN SMALL LETTER LONG S. *)
Definition js_with_long_s : str := [106%N; 383%N].

(** The names of the taxonomy: the alias keys and the canonical
    names. *)
Definition taxonomy_names : list str := map fst _aliases ++ _all_skills.

(** An ASCII character that is not a capital letter. *)
Definition lower_ascii (c : char) : bool := is_ascii c && negb (is_upper c).

(** An explicit two-year phrase and no other qualifier. *)
Definition two_years_python : str := py "2 years of experience with Python".

(** The key under which [extract_skills] remembers a skill it has
    seen. *)
Definition seen_key (r : ExtractedSkill) : str := lower (normalized_name r).

(** The four keys of [by_level]. *)
Definition four_levels : list str :=
  map py ["expert"; "proficient"; "used"; "mentioned"].

(** The level and the years of a record agree: a bare mention has no
    years, every other level has a positive number of years. *)
Definition level_years_ok (r : ExtractedSkill) : Prop :=
  (experience_level r = py "mentioned" /\ years r = 0%Z) \/
  (In (experience_level r) (map py ["expert"; "proficient"; "used"]) /\
   (0 < years r)%Z).

(** The names a record's [category] can take. *)
Definition category_names : list str :=
  map fst SKILL_CATEGORIES ++ [py "other"].

(** Number of names filed in a dictionary of lists. *)
Definition filed (d : list (str * list str)) : nat :=
  list_sum (map (fun kv => length (snd kv)) d).

(** [v] is filed under [k]. *)
Definition filed_under (k v : str) (d : list (str * list str)) : Prop :=
  exists l, dict_get k d = Some l /\ In v l.

(** What the summary holds after the records [done] have been filed. *)
Definition summary_of (summary : SkillSummary) (done : list ExtractedSkill)
  : Prop :=
  map fst (by_level summary) = four_levels /\
  filed (by_level summary) = length done /\
  filed (by_category summary) = length done /\
  length (core_skills summary) + length (tools summary) <= length done /\
  forall r, In r done ->
    filed_under (experience_level r) (normalized_name r)
                (by_level summary) /\
    filed_under (category r) (normalized_name r) (by_category summary).

End ExtractorTerms.

Module ExperienceTerms.
Import Py ExperienceDetector.

#[local] Open Scope Z_scope.
#[local] Open Scope string_scope.

(** Case-insensitive substring test. *)
Definition contains_ci (text skill : str) : bool :=
  str_in (lower skill) (lower text).

(** The text mentions at least one of the required skills. *)
Definition mentions_required (required : list str) (text : str) : bool :=
  existsb (contains_ci text) required.

(** Name plus description of a project. *)
Definition project_text (p : Project.t) : str :=
  (Project.name p ++ py " " ++ Project.description p)%list.

(** The work entries whose description mentions a required skill. *)
Definition relevant_work (required : list str) (ws : list WorkExperience.t)
  : list WorkExperience.t :=
  filter (fun w => mentions_required required (WorkExperience.description w))
         ws.

(** The projects whose name plus description mentions a required
    skill. *)
Definition relevant_projects (required : list str) (ps : list Project.t)
  : list Project.t :=
  filter (fun p => mentions_required required (project_text p)) ps.


(** [required_skills or []] *)
Definition required_list (required_skills : option (list str)) : list str :=
  match required_skills with Some l => l | None => [] end.

(** A text given line by line. *)
Definition text_of_lines (l : list string) : str := join [NL] (map py l).

(** A reading of the clock: November 2026. *)
Definition clock_2026_11 : Clock := mkClock 2026 11.

(** One dated job and one project, both about Python. *)
Definition resume_with_project : str :=
  text_of_lines
    [ "Jane Doe";
      "Experience:";
      "Backend Developer at Acme 2020 - 2021, built Python services";
      "Education";
      "BSc";
      "Projects:";
      "Python log parser for nightly builds" ].




(** A section that is one fragment of exactly 20 characters. *)
Definition twenty_char_section : str := py "Engineer, Acme, 2019".

(** The twelve keys of [months]. *)
Definition month_names : list str := map fst months.

(** The trajectory read in the other direction. *)
Definition opposite_trajectory (t : str) : str :=
  if str_eqb t (py "ascending") then py "descending"
  else if str_eqb t (py "descending") then py "ascending"
  else t.

(** The section [_extract_work_experiences] segments: the experience
    section when a header is found, the whole text otherwise. *)
Definition experience_section (text : str) : str :=
  match _find_section text EXPERIENCE_HEADERS with
  | Some (ch :: s) => ch :: s
  | _ => text
  end.

End ExperienceTerms.

Module ProcessorTerms.
Import Py DocumentProcessor.

#[local] Open Scope string_scope.

(** The type depends on the extension alone. *)
Definition type_of_extension (ext : str) : DocumentType :=
  if str_eqb ext (py ".pdf") then PDF
  else if mem ext (map py [".docx"; ".doc"]) then DOCX
  else if str_eqb ext (py ".txt") then TEXT
  else UNKNOWN.

(** The type an upload is processed as: the type of the extension, and
    only when that is unknown the type the first bytes announce. *)
Definition upload_type (content : bytes) (name : str) : DocumentType :=
  if is_unknown (_detect_type_from_extension name)
  then if starts_with (py "%PDF") content then PDF else DOCX
  else _detect_type_from_extension name.

End ProcessorTerms.

Module RunTerms.
Import Py Re.

(** [a{min,}] for a pattern [a] of one character. *)
Fixpoint at_least (min : nat) (a : regex) : regex :=
  match min with
  | O => Star a
  | S m => Seq a (at_least m a)
  end.

(** The number of leading characters of [s] that satisfy [p]. *)
Fixpoint run_length (p : char -> bool) (s : str) : nat :=
  match s with
  | x :: s' => if p x then S (run_length p s') else 0
  | [] => 0
  end.

(** The matcher state [n] characters further. *)
Fixpoint run_state (n : nat) (st : mstate) : mstate :=
  match n with
  | O => st
  | S n' =>
      match m_rest st with
      | x :: xs => run_state n' (advance x xs st)
      | [] => st
      end
  end.

(** What stands for a run of [run] characters [c] once every run of
    [min] or more is replaced by [repl]. *)
Definition flush (c : char) (min : nat) (repl : str) (run : nat) : str :=
  if Nat.leb min run then repl else repeat c run.

(** [s] with every maximal run of [min] or more characters [c] replaced
    by [repl]; [run] counts the characters [c] read since the last other
    character. *)
Fixpoint squeeze (c : char) (min : nat) (repl : str) (run : nat) (s : str)
  : str :=
  match s with
  | [] => flush c min repl run
  | x :: s' =>
      if N.eqb c x then squeeze c min repl (S run) s'
      else (flush c min repl run ++ x :: squeeze c min repl 0 s')%list
  end.

(** No [n] characters [c] in a row, [r] of them having just been read. *)
Fixpoint no_run (c : char) (n r : nat) (s : str) : bool :=
  match s with
  | [] => true
  | x :: s' =>
      if N.eqb c x then Nat.ltb (S r) n && no_run c n (S r) s'
      else no_run c n 0 s'
  end.

(** The characters [_split_sentences] cuts at. *)
Definition sentence_breaks : str :=
  [N_of_ascii "."; N_of_ascii "!"; N_of_ascii "?"; 10%N].

End RunTerms.

(* ================================================================== *)
(** ** Properties of the string primitives *)
(* ================================================================== *)

Module PyFacts.
Import Py.

Lemma str_eqb_eq (a b : str) : str_eqb a b = true <-> a = b.
Proof.
  revert b; induction a as [|x a IH]; intros [|y b]; simpl;
    try (split; [discriminate | discriminate]); try tauto.
  rewrite andb_true_iff, N.eqb_eq, IH.
  split; [intros [-> ->]; reflexivity | intros E; inversion E; auto].
Qed.

Lemma str_eqb_refl (a : str) : str_eqb a a = true.
Proof. apply str_eqb_eq; reflexivity. Qed.

Lemma mem_In (x : str) (l : list str) : mem x l = true <-> In x l.
Proof.
  unfold mem; rewrite existsb_exists; split.
  - intros [y [Hy E]]; apply str_eqb_eq in E; subst; assumption.
  - intros H; exists x; split; [assumption | apply str_eqb_refl].
Qed.

(** A property of characters checked on a whole interval. *)
Lemma range_forall (P : char -> bool) (lo : N) (len : nat) :
  forallb P (map N.of_nat (seq (N.to_nat lo) len)) = true ->
  forall ch, (lo <= ch)%N -> (ch < lo + N.of_nat len)%N -> P ch = true.
Proof.
  intros H ch Hlo Hhi.
  rewrite forallb_forall in H; apply H.
  apply in_map_iff; exists (N.to_nat ch); split; [apply N2Nat.id|].
  apply in_seq; lia.
Qed.

Lemma in_range_bounds (lo hi ch : char) :
  in_range lo hi ch = true <-> (lo <= ch /\ ch <= hi)%N.
Proof. unfold in_range; rewrite andb_true_iff, !N.leb_le; tauto. Qed.

Lemma upper_forall (P : char -> bool) :
  forallb P (map N.of_nat (seq 65 26)) = true ->
  forall ch, is_upper ch = true -> P ch = true.
Proof.
  intros H ch Hu; apply in_range_bounds in Hu.
  apply (range_forall P 65 26 H); lia.
Qed.

Lemma small_forall (P : char -> bool) :
  forallb P (map N.of_nat (seq 0 384)) = true ->
  forall ch, (ch < 384)%N -> P ch = true.
Proof. intros H ch Hc; apply (range_forall P 0 384 H); lia. Qed.

(** Outside the tabulated range the case mappings are the identity
    and the character is uncased. *)
Lemma char_lower_big (ch : char) : (384 <= ch)%N -> char_lower ch = ch.
Proof.
  intros H; unfold char_lower, is_upper, in_range.
  replace (N.leb ch 90) with false by (symmetry; apply N.leb_gt; lia).
  rewrite andb_false_r; reflexivity.
Qed.

Lemma char_title_big (ch : char) : (384 <= ch)%N -> char_title ch = ch.
Proof.
  intros H; unfold char_title, in_range.
  replace (N.leb ch 122) with false by (symmetry; apply N.leb_gt; lia).
  replace (N.eqb ch 383) with false by (symmetry; apply N.eqb_neq; lia).
  rewrite andb_false_r; reflexivity.
Qed.

(** Lift a closed check on the tabulated range to every character,
    given that it holds wherever both mappings are the identity. *)
Lemma char_cases (P : char -> bool) :
  forallb P (map N.of_nat (seq 0 384)) = true ->
  (forall ch, (384 <= ch)%N -> P ch = true) ->
  forall ch, P ch = true.
Proof.
  intros Hsmall Hbig ch.
  destruct (N.lt_ge_cases ch 384) as [Hc|Hc];
    [apply (small_forall P Hsmall ch Hc) | apply Hbig; exact Hc].
Qed.

Lemma char_lower_idem (ch : char) : char_lower (char_lower ch) = char_lower ch.
Proof.
  apply N.eqb_eq.
  apply (char_cases (fun x => N.eqb (char_lower (char_lower x)) (char_lower x)));
    [vm_compute; reflexivity|].
  intros x Hx; rewrite !(char_lower_big x Hx); apply N.eqb_refl.
Qed.

Lemma char_title_idem (ch : char) : char_title (char_title ch) = char_title ch.
Proof.
  apply N.eqb_eq.
  apply (char_cases (fun x => N.eqb (char_title (char_title x)) (char_title x)));
    [vm_compute; reflexivity|].
  intros x Hx; rewrite !(char_title_big x Hx); apply N.eqb_refl.
Qed.

Lemma is_space_lower (ch : char) : is_space (char_lower ch) = is_space ch.
Proof.
  apply eqb_prop.
  apply (char_cases (fun x => eqb (is_space (char_lower x)) (is_space x)));
    [vm_compute; reflexivity|].
  intros x Hx; rewrite (char_lower_big x Hx); apply eqb_reflx.
Qed.

Lemma is_space_title (ch : char) : is_space (char_title ch) = is_space ch.
Proof.
  apply eqb_prop.
  apply (char_cases (fun x => eqb (is_space (char_title x)) (is_space x)));
    [vm_compute; reflexivity|].
  intros x Hx; rewrite (char_title_big x Hx); apply eqb_reflx.
Qed.

Lemma is_cased_lower (ch : char) : is_cased (char_lower ch) = is_cased ch.
Proof.
  apply eqb_prop.
  apply (char_cases (fun x => eqb (is_cased (char_lower x)) (is_cased x)));
    [vm_compute; reflexivity|].
  intros x Hx; rewrite (char_lower_big x Hx); apply eqb_reflx.
Qed.

Lemma is_cased_title (ch : char) : is_cased (char_title ch) = is_cased ch.
Proof.
  apply eqb_prop.
  apply (char_cases (fun x => eqb (is_cased (char_title x)) (is_cased x)));
    [vm_compute; reflexivity|].
  intros x Hx; rewrite (char_title_big x Hx); apply eqb_reflx.
Qed.

(** On ASCII, lower-casing forgets the title-casing. *)
Lemma char_lower_title_ascii (ch : char) :
  is_ascii ch = true -> char_lower (char_title ch) = char_lower ch.
Proof.
  intros Ha; apply N.ltb_lt in Ha.
  apply N.eqb_eq.
  apply (range_forall
           (fun x => N.eqb (char_lower (char_title x)) (char_lower x))
           0 128); [vm_compute; reflexivity | lia | lia].
Qed.

Lemma lower_idem (s : str) : lower (lower s) = lower s.
Proof.
  unfold lower; rewrite map_map; apply map_ext; intros; apply char_lower_idem.
Qed.

Lemma lower_app (a b : str) : lower (a ++ b) = lower a ++ lower b.
Proof. apply map_app. Qed.

(** *** [strip] *)

Lemma lstrip_map (f : char -> char) (s : str) :
  (forall ch, is_space (f ch) = is_space ch) ->
  lstrip (map f s) = map f (lstrip s).
Proof.
  intros Hf; induction s as [|x s IH]; simpl; [reflexivity|].
  rewrite Hf; destruct (is_space x); [exact IH | reflexivity].
Qed.

Lemma strip_map (f : char -> char) (s : str) :
  (forall ch, is_space (f ch) = is_space ch) ->
  strip (map f s) = map f (strip s).
Proof.
  intros Hf; unfold strip, rstrip.
  rewrite (lstrip_map f s Hf), <- map_rev, (lstrip_map f _ Hf), map_rev.
  reflexivity.
Qed.

Lemma strip_lower (s : str) : strip (lower s) = lower (strip s).
Proof. apply strip_map, is_space_lower. Qed.

Lemma lstrip_idem (s : str) : lstrip (lstrip s) = lstrip s.
Proof.
  induction s as [|x s IH]; simpl; [reflexivity|].
  destruct (is_space x) eqn:E; [exact IH | simpl; rewrite E; reflexivity].
Qed.

Lemma lstrip_app_nonspace (l : str) (ch : char) :
  is_space ch = false -> lstrip (l ++ [ch]) = lstrip l ++ [ch].
Proof.
  intros Hc; induction l as [|x l IH]; simpl.
  - rewrite Hc; reflexivity.
  - destruct (is_space x); [exact IH | reflexivity].
Qed.

Lemma rstrip_idem (s : str) : rstrip (rstrip s) = rstrip s.
Proof. unfold rstrip; rewrite rev_involutive, lstrip_idem; reflexivity. Qed.

Lemma rstrip_cons_nonspace (ch : char) (s : str) :
  is_space ch = false -> rstrip (ch :: s) = ch :: rstrip s.
Proof.
  intros Hc; unfold rstrip; simpl.
  rewrite (lstrip_app_nonspace _ _ Hc), rev_app_distr; reflexivity.
Qed.

Lemma lstrip_head (s : str) :
  lstrip s = [] \/ exists ch s', lstrip s = ch :: s' /\ is_space ch = false.
Proof.
  induction s as [|x s IH]; simpl; [left; reflexivity|].
  destruct (is_space x) eqn:E; [exact IH | right; eauto].
Qed.

Lemma lstrip_strip (s : str) : lstrip (strip s) = strip s.
Proof.
  unfold strip.
  destruct (lstrip_head s) as [E | [ch [s' [E Hc]]]]; rewrite E.
  - reflexivity.
  - rewrite (rstrip_cons_nonspace _ _ Hc); simpl; rewrite Hc; reflexivity.
Qed.

Lemma strip_idem (s : str) : strip (strip s) = strip s.
Proof.
  unfold strip at 1; rewrite lstrip_strip.
  unfold strip; apply rstrip_idem.
Qed.

Lemma lstrip_Forall (P : char -> Prop) (s : str) :
  Forall P s -> Forall P (lstrip s).
Proof.
  induction 1 as [|x s Hx Hs IH]; simpl; [constructor|].
  destruct (is_space x); [exact IH | constructor; assumption].
Qed.

Lemma strip_Forall (P : char -> Prop) (s : str) :
  Forall P s -> Forall P (strip s).
Proof.
  intros H; unfold strip, rstrip.
  apply Forall_rev, lstrip_Forall, Forall_rev, lstrip_Forall, H.
Qed.

(** *** [title] *)

Lemma title_from_map_space (b : bool) (s : str) :
  map is_space (title_from b s) = map is_space s.
Proof.
  revert b; induction s as [|x s IH]; intros b; simpl; [reflexivity|].
  rewrite IH; f_equal.
  destruct b; [apply is_space_lower | apply is_space_title].
Qed.

Lemma title_from_idem (b : bool) (s : str) :
  title_from b (title_from b s) = title_from b s.
Proof.
  revert b; induction s as [|x s IH]; intros b; simpl; [reflexivity|].
  destruct b.
  - rewrite char_lower_idem, is_cased_lower, IH; reflexivity.
  - rewrite char_title_idem, is_cased_title, IH; reflexivity.
Qed.

Lemma title_idem (s : str) : title (title s) = title s.
Proof. apply title_from_idem. Qed.

Lemma lower_title_from_ascii (b : bool) (s : str) :
  ascii_text s -> lower (title_from b s) = lower s.
Proof.
  intros H; revert b; induction H as [|x s Hx Hs IH]; intros b; simpl;
    [reflexivity|].
  unfold lower in IH; rewrite IH; f_equal.
  destruct b; [apply char_lower_idem | apply char_lower_title_ascii, Hx].
Qed.

Lemma lower_title_ascii (s : str) : ascii_text s -> lower (title s) = lower s.
Proof. apply lower_title_from_ascii. Qed.

Lemma ascii_text_check (s : str) : forallb is_ascii s = true -> ascii_text s.
Proof. intros H; apply Forall_forall; rewrite forallb_forall in H; exact H. Qed.

Lemma str_neq_check (a b : str) : str_eqb a b = false -> a <> b.
Proof. intros H E; rewrite E, str_eqb_refl in H; discriminate. Qed.

End PyFacts.

(* ================================================================== *)
(** ** Properties of the matcher *)
(* ================================================================== *)

Module ReFacts.
Import Py PyFacts Re ReTerms.

Lemma suffix_refl (s : str) : suffix s s.
Proof. exists []; reflexivity. Qed.

Lemma suffix_tail (x : char) (r s : str) : suffix (x :: r) s -> suffix r s.
Proof.
  intros [a E]; exists (a ++ [x]); rewrite <- app_assoc; exact E.
Qed.

Lemma infix_firstn (n : nat) (r s : str) : suffix r s -> infix (firstn n r) s.
Proof.
  intros [a E]; exists a, (skipn n r).
  rewrite firstn_skipn; exact E.
Qed.

Lemma infix_nil (s : str) : infix [] s.
Proof. exists [], s; reflexivity. Qed.

Lemma starts_with_app (g b : str) : starts_with g (g ++ b) = true.
Proof.
  induction g as [|x g IH]; simpl; [reflexivity|].
  rewrite N.eqb_refl; exact IH.
Qed.

Lemma str_in_unfold (needle hay : str) :
  str_in needle hay
  = starts_with needle hay
    || match hay with [] => false | _ :: hay' => str_in needle hay' end.
Proof. destruct hay; reflexivity. Qed.

Lemma str_in_infix (g s : str) : infix g s -> str_in g s = true.
Proof.
  intros [a [b E]]; subst s.
  induction a as [|x a IH].
  - simpl app; rewrite str_in_unfold, starts_with_app; reflexivity.
  - simpl; rewrite IH; apply orb_true_r.
Qed.

Lemma infix_lower (g s : str) : infix g (lower s) -> lower g = g.
Proof.
  intros [a [b E]]; unfold lower in E.
  apply map_eq_app in E.
  destruct E as [a' [t [_ [_ E]]]].
  apply map_eq_app in E; destruct E as [g' [b' [_ [E _]]]].
  rewrite <- E; apply lower_idem.
Qed.

Lemma state_ok_advance (subject : str) (st : mstate) (x : char) (xs : str) :
  state_ok subject st -> m_rest st = x :: xs ->
  state_ok subject (advance x xs st).
Proof.
  intros [S G] E; split; simpl; [|exact G].
  rewrite E in S; exact (suffix_tail _ _ _ S).
Qed.

Lemma state_ok_group (subject : str) (n : nat) (from to : mstate) :
  state_ok subject from -> state_ok subject to ->
  state_ok subject (set_group n from to).
Proof.
  intros [S _] [S' G']; split; simpl; [exact S'|].
  constructor; [apply infix_firstn, S | exact G'].
Qed.

(** Whatever the matcher answers was answered by its continuation, on a
    state reached inside the subject. *)
Lemma rmatch_inv {A : Type} (ic : bool) (subject : str) (r : regex) :
  forall (st : mstate) (k : mstate -> option A) (x : A),
    state_ok subject st -> rmatch ic r st k = Some x ->
    exists st', state_ok subject st' /\ k st' = Some x.
Proof.
  induction r as [|ch|cs| | |a IHa b IHb|a IHa b IHb|a IHa|n a IHa];
    intros st k x Hok H; simpl in H.
  - eauto.
  - destruct (m_rest st) as [|y ys] eqn:E; [discriminate|].
    destruct (chr_eq ic ch y); [|discriminate].
    eauto using state_ok_advance.
  - destruct (m_rest st) as [|y ys] eqn:E; [discriminate|].
    destruct (cls_has ic cs y); [|discriminate].
    eauto using state_ok_advance.
  - destruct (m_rest st) as [|y ys] eqn:E; [discriminate|].
    destruct (N.eqb y 10); [discriminate|].
    eauto using state_ok_advance.
  - destruct (at_boundary st); [eauto | discriminate].
  - apply IHa in H; [|exact Hok].
    destruct H as [st1 [Hok1 H1]]; exact (IHb _ _ _ Hok1 H1).
  - destruct (rmatch ic a st k) eqn:E.
    + inversion H; subst; exact (IHa _ _ _ Hok E).
    + exact (IHb _ _ _ Hok H).
  - set (fuel := length (m_rest st)) in H; clearbody fuel.
    revert st Hok H; induction fuel as [|fuel IHf]; intros st Hok H.
    + eauto.
    + match type of H with
      | match ?m with _ => _ end = _ => destruct m eqn:E
      end.
      * inversion H; subst.
        apply IHa in E; [|exact Hok].
        destruct E as [st1 [Hok1 E1]].
        destruct (Nat.ltb (m_pos st) (m_pos st1)); [|discriminate].
        exact (IHf _ Hok1 E1).
      * eauto.
  - apply IHa in H; [|exact Hok].
    destruct H as [st1 [Hok1 H1]].
    eauto using state_ok_group.
Qed.

Lemma match_here_caps (ic : bool) (r : regex) (prev : option char)
      (pos : nat) (rest subject : str) (m : rmatch_obj) :
  suffix rest subject ->
  match_here ic r prev pos rest = Some m -> caps_in subject m.
Proof.
  intros S H; unfold match_here in H.
  destruct (rmatch ic r (MState prev pos rest []) Some) as [st'|] eqn:E;
    [|discriminate].
  inversion H; subst; unfold caps_in; simpl.
  apply (rmatch_inv ic subject) in E; [|split; [exact S | constructor]].
  destruct E as [st1 [[_ G] E1]]; inversion E1; subst; exact G.
Qed.

Lemma scan_caps (ic : bool) (r : regex) (subject : str) :
  forall (rest : str) (prev : option char) (pos skip : nat),
    suffix rest subject ->
    Forall (caps_in subject) (scan ic r prev pos rest skip).
Proof.
  induction rest as [|x rest IH]; intros prev pos skip S; simpl.
  - destruct skip; [|constructor].
    destruct (match_here ic r prev pos []) eqn:E; [|constructor].
    constructor; [exact (match_here_caps _ _ _ _ _ _ _ S E) | constructor].
  - assert (S' : suffix rest subject) by exact (suffix_tail _ _ _ S).
    destruct skip.
    + destruct (match_here ic r prev pos (x :: rest)) eqn:E.
      * constructor; [exact (match_here_caps _ _ _ _ _ _ _ S E)|].
        apply IH, S'.
      * apply IH, S'.
    + apply IH, S'.
Qed.

Lemma lookup_group_In (n : nat) (l : list (nat * str)) (t : str) :
  lookup_group n l = Some t -> In (n, t) l.
Proof.
  induction l as [|[i u] l IH]; simpl; [discriminate|].
  destruct (Nat.eqb i n) eqn:E.
  - intros H; inversion H; subst; apply Nat.eqb_eq in E; subst; left;
      reflexivity.
  - intros H; right; exact (IH H).
Qed.

Lemma group_infix (n : nat) (subject : str) (m : rmatch_obj) :
  caps_in subject m -> infix (group n m) subject.
Proof.
  intros C; unfold group.
  destruct (lookup_group n (m_caps m)) as [t|] eqn:E; [|apply infix_nil].
  apply lookup_group_In in E.
  unfold caps_in in C; rewrite Forall_forall in C.
  exact (C _ E).
Qed.

(** Every string reported by [findall] occurs in the subject. *)
Lemma findall1_infix (ic : bool) (r : regex) (s g : str) :
  In g (findall1 ic r s) -> infix g s.
Proof.
  unfold findall1, finditer; intros H.
  apply in_map_iff in H; destruct H as [m [E H]]; subst g.
  apply group_infix.
  pose proof (scan_caps ic r s s None 0 0 (suffix_refl s)) as C.
  rewrite Forall_forall in C; exact (C _ H).
Qed.

(** *** The repetition never runs out of iterations *)

Lemma rmatch_star {A : Type} (ic : bool) (a : regex) (st : mstate)
      (k : mstate -> option A) :
  rmatch ic (Star a) st k = star_loop ic a k (length (m_rest st)) st.
Proof. reflexivity. Qed.

Lemma reach_refl (st : mstate) : reach st st.
Proof. split; lia. Qed.

Lemma reach_trans (a b c : mstate) : reach a b -> reach b c -> reach a c.
Proof. intros [H1 H2] [H3 H4]; split; lia. Qed.

Lemma reach_advance (st : mstate) (x : char) (xs : str) :
  m_rest st = x :: xs -> reach st (advance x xs st).
Proof. intros E; split; simpl; rewrite E; simpl; lia. Qed.

Lemma reach_group (n : nat) (st st' : mstate) :
  reach st st' -> reach st (set_group n st st').
Proof. intros H; exact H. Qed.

(** The matcher consults its continuation only on states ahead of the
    current one. *)
Lemma rmatch_ext {A : Type} (ic : bool) (r : regex) :
  forall (st : mstate) (k1 k2 : mstate -> option A),
    (forall st', reach st st' -> k1 st' = k2 st') ->
    rmatch ic r st k1 = rmatch ic r st k2.
Proof.
  induction r as [|ch|cs| | |a IHa b IHb|a IHa b IHb|a IHa|n a IHa];
    intros st k1 k2 H.
  - simpl; apply H, reach_refl.
  - simpl; destruct (m_rest st) as [|y ys] eqn:E; [reflexivity|].
    destruct (chr_eq ic ch y); [|reflexivity].
    apply H, reach_advance, E.
  - simpl; destruct (m_rest st) as [|y ys] eqn:E; [reflexivity|].
    destruct (cls_has ic cs y); [|reflexivity].
    apply H, reach_advance, E.
  - simpl; destruct (m_rest st) as [|y ys] eqn:E; [reflexivity|].
    destruct (N.eqb y 10); [reflexivity|].
    apply H, reach_advance, E.
  - simpl; destruct (at_boundary st); [apply H, reach_refl | reflexivity].
  - simpl; apply IHa; intros st1 R1.
    apply IHb; intros st2 R2; apply H; exact (reach_trans _ _ _ R1 R2).
  - simpl; rewrite (IHa st k1 k2 H), (IHb st k1 k2 H); reflexivity.
  - rewrite !rmatch_star.
    assert (G : forall n st0, reach st st0 ->
                  star_loop ic a k1 n st0 = star_loop ic a k2 n st0).
    { induction n as [|n IHn]; intros st0 R0; simpl.
      - apply H, R0.
      - rewrite (IHa st0 _
                   (fun st' => if Nat.ltb (m_pos st0) (m_pos st')
                               then star_loop ic a k2 n st' else None)).
        + rewrite (H st0 R0); reflexivity.
        + intros st1 R1; destruct (Nat.ltb (m_pos st0) (m_pos st1));
            [|reflexivity].
          apply IHn; exact (reach_trans _ _ _ R0 R1). }
    apply G, reach_refl.
  - simpl; apply IHa; intros st1 R1; apply H, reach_group, R1.
Qed.

Lemma rmatch_none {A : Type} (ic : bool) (r : regex) (st : mstate) :
  rmatch ic r st (fun _ => @None A) = None.
Proof.
  revert st;
    induction r as [|ch|cs| | |a IHa b IHb|a IHa b IHb|a IHa|n a IHa];
    intros st; simpl.
  - reflexivity.
  - destruct (m_rest st); [|destruct (chr_eq ic ch c)]; reflexivity.
  - destruct (m_rest st); [|destruct (cls_has ic cs c)]; reflexivity.
  - destruct (m_rest st); [|destruct (N.eqb c 10)]; reflexivity.
  - destruct (at_boundary st); reflexivity.
  - rewrite (rmatch_ext ic a st _ (fun _ => None)); [apply IHa|].
    intros st1 _; apply IHb.
  - rewrite IHa; apply IHb.
  - generalize (length (m_rest st)); intros n; revert st.
    induction n as [|n IHn]; intros st; [reflexivity|].
    rewrite (rmatch_ext ic a st _ (fun _ => None)); [rewrite IHa; reflexivity|].
    intros st1 _; destruct (Nat.ltb (m_pos st) (m_pos st1));
      [apply IHn | reflexivity].
  - apply IHa.
Qed.

(** Any number of iterations at least the remaining length gives the
    same result. *)
Lemma star_loop_fuel {A : Type} (ic : bool) (a : regex)
      (k : mstate -> option A) :
  forall (n m : nat) (st : mstate),
    length (m_rest st) <= n -> length (m_rest st) <= m ->
    star_loop ic a k n st = star_loop ic a k m st.
Proof.
  assert (Z0 : forall (st : mstate) (f : mstate -> option A),
             length (m_rest st) = 0 ->
             rmatch ic a st
               (fun st' => if Nat.ltb (m_pos st) (m_pos st')
                           then f st' else None) = None).
  { intros st f E.
    rewrite (rmatch_ext ic a st _ (fun _ => None)); [apply rmatch_none|].
    intros st1 [R1 R2].
    replace (Nat.ltb (m_pos st) (m_pos st1)) with false; [reflexivity|].
    symmetry; apply Nat.ltb_ge; lia. }
  induction n as [|n IHn]; intros m st Hn Hm.
  - destruct m as [|m]; [reflexivity|].
    simpl; rewrite Z0 by lia; reflexivity.
  - destruct m as [|m].
    + simpl; rewrite Z0 by lia; reflexivity.
    + simpl.
      rewrite (rmatch_ext ic a st _
                 (fun st' => if Nat.ltb (m_pos st) (m_pos st')
                             then star_loop ic a k m st' else None));
        [reflexivity|].
      intros st1 [R1 R2].
      destruct (Nat.ltb (m_pos st) (m_pos st1)) eqn:E; [|reflexivity].
      apply Nat.ltb_lt in E; apply IHn; lia.
Qed.

(** The greedy repetition satisfies its defining equation: one more
    iteration that consumes something, then the repetition again, or
    else what follows. *)
Lemma rmatch_star_unfold {A : Type} (ic : bool) (a : regex) (st : mstate)
      (k : mstate -> option A) :
  rmatch ic (Star a) st k
  = match rmatch ic a st
            (fun st' => if Nat.ltb (m_pos st) (m_pos st')
                        then rmatch ic (Star a) st' k else None) with
    | Some x => Some x
    | None => k st
    end.
Proof.
  rewrite rmatch_star.
  rewrite (star_loop_fuel ic a k _ (S (length (m_rest st))) st) by lia.
  simpl.
  rewrite (rmatch_ext ic a st _
             (fun st' => if Nat.ltb (m_pos st) (m_pos st')
                         then rmatch ic (Star a) st' k else None));
    [reflexivity|].
  intros st1 [R1 R2].
  destruct (Nat.ltb (m_pos st) (m_pos st1)); [|reflexivity].
  rewrite rmatch_star; apply star_loop_fuel; lia.
Qed.

(** *** A group captured from literal alternatives *)

Lemma rmatch_keeps_group {A : Type} (ic : bool) (n : nat) (r : regex) :
  no_group n r = true ->
  forall (st : mstate) (k : mstate -> option A) (x : A),
    rmatch ic r st k = Some x ->
    exists st', lookup_group n (m_groups st') = lookup_group n (m_groups st)
                /\ k st' = Some x.
Proof.
  induction r as [|ch|cs| | |a IHa b IHb|a IHa b IHb|a IHa|i a IHa];
    intros N st k x H; simpl in H, N.
  - eauto.
  - destruct (m_rest st) as [|y ys]; [discriminate|].
    destruct (chr_eq ic ch y); [|discriminate].
    exists (advance y ys st); auto.
  - destruct (m_rest st) as [|y ys]; [discriminate|].
    destruct (cls_has ic cs y); [|discriminate].
    exists (advance y ys st); auto.
  - destruct (m_rest st) as [|y ys]; [discriminate|].
    destruct (N.eqb y 10); [discriminate|].
    exists (advance y ys st); auto.
  - destruct (at_boundary st); [eauto | discriminate].
  - apply andb_true_iff in N; destruct N as [Na Nb].
    apply (IHa Na) in H; destruct H as [st1 [G1 H1]].
    apply (IHb Nb) in H1; destruct H1 as [st2 [G2 H2]].
    exists st2; split; [congruence | exact H2].
  - apply andb_true_iff in N; destruct N as [Na Nb].
    destruct (rmatch ic a st k) eqn:E.
    + inversion H; subst; exact (IHa Na _ _ _ E).
    + exact (IHb Nb _ _ _ H).
  - set (fuel := length (m_rest st)) in H; clearbody fuel.
    revert st H; induction fuel as [|fuel IHf]; intros st H.
    + eauto.
    + match type of H with
      | match ?m with _ => _ end = _ => destruct m eqn:E
      end.
      * inversion H; subst.
        apply (IHa N) in E; destruct E as [st1 [G1 E1]].
        destruct (Nat.ltb (m_pos st) (m_pos st1)); [|discriminate].
        apply IHf in E1; destruct E1 as [st2 [G2 E2]].
        exists st2; split; [congruence | exact E2].
      * eauto.
  - apply andb_true_iff in N; destruct N as [Ni Na].
    apply (IHa Na) in H; destruct H as [st1 [G1 H1]].
    exists (set_group i st st1); split; [|exact H1].
    apply negb_true_iff in Ni; simpl; rewrite Ni; exact G1.
Qed.

(** *** Literal alternatives *)

Lemma same_text_cons (ic : bool) (x y : char) (s t : str) :
  same_text ic (x :: s) (y :: t) = chr_eq ic x y && same_text ic s t.
Proof. reflexivity. Qed.

Lemma consumed_nil (st : mstate) : consumed [] st st.
Proof. exists (m_rest st); repeat split; simpl; lia. Qed.

Lemma consumed_one (st : mstate) (y : char) (ys : str) :
  m_rest st = y :: ys -> consumed [y] st (advance y ys st).
Proof. intros E; exists ys; repeat split; simpl; [exact E | lia]. Qed.

Lemma consumed_cons (st : mstate) (y : char) (ys t : str) (st' : mstate) :
  m_rest st = y :: ys -> consumed t (advance y ys st) st' ->
  consumed (y :: t) st st'.
Proof.
  intros E [rest' [R [R' [P G]]]]; simpl in *.
  exists rest'; repeat split; simpl; try assumption.
  - rewrite E, R; reflexivity.
  - lia.
Qed.

Lemma rmatch_Lit {A : Type} (ic : bool) (s : str) :
  forall (st : mstate) (k : mstate -> option A) (x : A),
    rmatch ic (Lit s) st k = Some x ->
    exists t st', same_text ic s t = true /\ consumed t st st' /\
                  k st' = Some x.
Proof.
  induction s as [|ch s IH]; intros st k x H.
  - exists [], st; simpl in *; auto using consumed_nil.
  - destruct s as [|ch' s'].
    + simpl in H.
      destruct (m_rest st) as [|y ys] eqn:E; [discriminate|].
      destruct (chr_eq ic ch y) eqn:C; [|discriminate].
      exists [y], (advance y ys st); simpl; rewrite C.
      auto using consumed_one.
    + change (Lit (ch :: ch' :: s')) with (Seq (Chr ch) (Lit (ch' :: s'))) in H.
      simpl rmatch in H.
      destruct (m_rest st) as [|y ys] eqn:E; [discriminate|].
      destruct (chr_eq ic ch y) eqn:C; [|discriminate].
      apply IH in H; destruct H as [t [st' [T [Hc K]]]].
      exists (y :: t), st'; rewrite same_text_cons, C, T.
      eauto using consumed_cons.
Qed.

Lemma rmatch_AltL_Lit {A : Type} (ic : bool) (alts : list str) :
  forall (st : mstate) (k : mstate -> option A) (x : A),
    alts <> [] ->
    rmatch ic (AltL (map Lit alts)) st k = Some x ->
    exists alt t st', In alt alts /\ same_text ic alt t = true /\
                      consumed t st st' /\ k st' = Some x.
Proof.
  induction alts as [|a alts IH]; intros st k x Hne H; [contradiction|].
  destruct alts as [|b alts].
  - simpl in H; apply rmatch_Lit in H.
    destruct H as [t [st' [T [Hc K]]]]; exists a, t, st'; simpl; auto.
  - change (AltL (map Lit (a :: b :: alts)))
      with (Alt (Lit a) (AltL (map Lit (b :: alts)))) in H.
    simpl rmatch in H.
    destruct (rmatch ic (Lit a) st k) eqn:E.
    + inversion H; subst; apply rmatch_Lit in E.
      destruct E as [t [st' [T [Hc K]]]]; exists a, t, st'; simpl; auto.
    + apply IH in H; [|discriminate].
      destruct H as [alt [t [st' [I [T [Hc K]]]]]].
      exists alt, t, st'; simpl; auto.
Qed.

Lemma rmatch_word_alternatives {A : Type} (ic : bool) (alts : list str)
      (st : mstate) (k : mstate -> option A) :
  rmatch ic (word_alternatives alts) st k
  = if at_boundary st
    then rmatch ic (AltL (map Lit alts)) st
                (fun st' => if at_boundary (set_group 1 st st')
                            then k (set_group 1 st st') else None)
    else None.
Proof. reflexivity. Qed.

Lemma word_alternatives_captures (ic : bool) (alts : list str)
      (prev : option char) (pos : nat) (rest : str) (m : rmatch_obj) :
  alts <> [] ->
  match_here ic (word_alternatives alts) prev pos rest = Some m ->
  captures_alternative ic alts m.
Proof.
  unfold match_here; intros Hne H.
  destruct (rmatch ic (word_alternatives alts) (MState prev pos rest []) Some)
    as [st'|] eqn:E; [|discriminate].
  inversion H; subst; clear H.
  rewrite rmatch_word_alternatives in E.
  destruct (at_boundary (MState prev pos rest [])); [|discriminate].
  apply rmatch_AltL_Lit in E; [|exact Hne].
  destruct E as [alt [t [st1 [I [T [[rest' [R [R' [P G]]]] K]]]]]].
  destruct (at_boundary _); [|discriminate].
  inversion K; subst st'; clear K.
  exists alt; split; [exact I|].
  unfold group; cbn [m_caps m_groups set_group lookup_group Nat.eqb m_pos
                     m_rest] in *.
  rewrite P, R.
  replace (pos + length t - pos)%nat with (length t) by lia.
  rewrite firstn_app, Nat.sub_diag, firstn_all; cbn [firstn].
  rewrite app_nil_r; exact T.
Qed.

Lemma scan_Forall (P : rmatch_obj -> Prop) (ic : bool) (r : regex) :
  (forall prev pos rest m, match_here ic r prev pos rest = Some m -> P m) ->
  forall (rest : str) (prev : option char) (pos skip : nat),
    Forall P (scan ic r prev pos rest skip).
Proof.
  intros HP; induction rest as [|x rest IH]; intros prev pos skip; simpl.
  - destruct skip; [|constructor].
    destruct (match_here ic r prev pos []) eqn:E; [|constructor].
    constructor; [exact (HP _ _ _ _ E) | constructor].
  - destruct skip; [|apply IH].
    destruct (match_here ic r prev pos (x :: rest)) eqn:E; [|apply IH].
    constructor; [exact (HP _ _ _ _ E) | apply IH].
Qed.

Lemma same_text_exact (s t : str) : same_text false s t = true -> s = t.
Proof.
  revert t; induction s as [|x s IH]; intros [|y t] H; simpl in H;
    try discriminate; [reflexivity|].
  apply andb_true_iff in H; destruct H as [C T].
  apply N.eqb_eq in C; subst y; f_equal; exact (IH _ T).
Qed.

(** A pattern that opens with group 1 over literal alternatives and
    has no other group 1 reports one of the alternatives as group 1. *)
Lemma group1_alternative {A : Type} (ic : bool) (alts : list str)
      (tail : regex) (st : mstate) (k : mstate -> option A) (x : A) :
  alts <> [] -> no_group 1 tail = true ->
  rmatch ic (Seq (Grp 1 (AltL (map Lit alts))) tail) st k = Some x ->
  exists alt t st',
    In alt alts /\ same_text ic alt t = true /\
    lookup_group 1 (m_groups st') = Some t /\ k st' = Some x.
Proof.
  intros Hne N H.
  change (rmatch ic (AltL (map Lit alts)) st
            (fun st' => rmatch ic tail (set_group 1 st st') k) = Some x) in H.
  apply rmatch_AltL_Lit in H; [|exact Hne].
  destruct H as [alt [t [st1 [I [T [[rest' [R [R' [P G]]]] K]]]]]].
  apply (rmatch_keeps_group ic 1 tail N) in K.
  destruct K as [st' [G' K]].
  exists alt, t, st'; repeat split; try assumption.
  rewrite G'; simpl; f_equal.
  rewrite P, R.
  replace (m_pos st + length t - m_pos st)%nat with (length t) by lia.
  rewrite firstn_app, Nat.sub_diag, firstn_all; simpl.
  apply app_nil_r.
Qed.

End ReFacts.

(* ================================================================== *)
(** ** Properties of the taxonomy *)
(* ================================================================== *)

Module TaxonomyProps.
Import Py PyFacts SkillDatabase TaxonomyTerms.

#[local] Open Scope string_scope.

(** *** Strings without surrounding white space *)

Lemma lstrip_length (s : str) : length (lstrip s) <= length s.
Proof.
  induction s as [|x s IH]; simpl; [lia|].
  destruct (is_space x); simpl; lia.
Qed.

Lemma lstrip_fixed_head (s : str) :
  lstrip s = s <->
  match s with [] => True | ch :: _ => is_space ch = false end.
Proof.
  destruct s as [|x s]; simpl; [tauto|].
  destruct (is_space x) eqn:E; split; intros H; try reflexivity;
    try discriminate.
  pose proof (lstrip_length s) as L; rewrite H in L; simpl in L; lia.
Qed.

Lemma lstrip_fixed_same_spaces (a b : str) :
  map is_space a = map is_space b -> lstrip b = b -> lstrip a = a.
Proof.
  intros E Hb; apply lstrip_fixed_head; apply lstrip_fixed_head in Hb.
  destruct a as [|x a], b as [|y b]; simpl in *; try discriminate; auto.
  inversion E; congruence.
Qed.

Lemma unpadded_same_spaces (a b : str) :
  map is_space a = map is_space b -> unpadded b -> unpadded a.
Proof.
  intros E [H1 H2]; split.
  - exact (lstrip_fixed_same_spaces a b E H1).
  - apply (lstrip_fixed_same_spaces (rev a) (rev b)); [|exact H2].
    rewrite !map_rev, E; reflexivity.
Qed.

Lemma unpadded_strip (s : str) : unpadded (strip s).
Proof.
  split; [apply lstrip_strip|].
  unfold strip, rstrip; rewrite rev_involutive; apply lstrip_idem.
Qed.

Lemma strip_unpadded (s : str) : unpadded s -> strip s = s.
Proof.
  intros [H1 H2]; unfold strip, rstrip.
  rewrite H1, H2; apply rev_involutive.
Qed.

Lemma strip_title_strip (s : str) : strip (title (strip s)) = title (strip s).
Proof.
  apply strip_unpadded.
  apply (unpadded_same_spaces _ (strip s));
    [apply title_from_map_space | apply unpadded_strip].
Qed.

(** *** Dictionary lookups *)

Lemma dict_get_In {V : Type} (k : str) (d : list (str * V)) (v : V) :
  dict_get k d = Some v -> In (k, v) d.
Proof.
  induction d as [|[k' v'] d IH]; simpl; [discriminate|].
  destruct (str_eqb k k') eqn:E.
  - intros H; inversion H; subst; apply str_eqb_eq in E; subst; left;
      reflexivity.
  - intros H; right; exact (IH H).
Qed.

(** *** Canonical names are fixed points *)

Lemma alias_targets_known (canonical : str) :
  In canonical (map snd _aliases) -> In canonical _all_skills.
Proof.
  intros H.
  assert (C : forallb (fun x => mem x _all_skills) (map snd _aliases) = true)
    by (vm_compute; reflexivity).
  rewrite forallb_forall in C; apply mem_In, C, H.
Qed.

Lemma normalize_canonical (canonical : str) :
  In canonical _all_skills -> normalize canonical = canonical.
Proof.
  intros H.
  assert (C : forallb (fun x => str_eqb (normalize x) x) _all_skills = true)
    by (vm_compute; reflexivity).
  rewrite forallb_forall in C; apply str_eqb_eq, C, H.
Qed.

(** No two known skills share a lower-case form, so the result of the
    scan over [_all_skills] in [normalize] does not depend on the order
    in which the set is iterated. *)
Lemma all_skills_lower_distinct (a b : str) :
  In a _all_skills -> In b _all_skills -> lower a = lower b -> a = b.
Proof.
  intros Ha Hb E.
  assert (C : forallb (fun x => forallb (fun y =>
                implb (str_eqb (lower x) (lower y)) (str_eqb x y))
                _all_skills) _all_skills = true)
    by (vm_compute; reflexivity).
  rewrite forallb_forall in C; specialize (C a Ha).
  rewrite forallb_forall in C; specialize (C b Hb).
  apply str_eqb_eq.
  destruct (str_eqb (lower a) (lower b)) eqn:F; [exact C|].
  rewrite E, str_eqb_refl in F; discriminate.
Qed.

(** The three outcomes of [normalize]. *)
Lemma normalize_cases (x : str) :
  In (normalize x) _all_skills \/
  (dict_get (strip (lower x)) _aliases = None /\
   find (fun known_skill => str_eqb (strip (lower x)) (lower known_skill))
        _all_skills = None /\
   normalize x = title (strip x)).
Proof.
  unfold normalize.
  destruct (dict_get (strip (lower x)) _aliases) as [canonical|] eqn:D.
  - left; apply alias_targets_known.
    apply dict_get_In in D; apply in_map_iff.
    exists (strip (lower x), canonical); split; [reflexivity | exact D].
  - destruct (find _ _all_skills) as [known|] eqn:F.
    + left; apply find_some in F; tauto.
    + right; auto.
Qed.

Lemma normalize_fallback_fixed (x : str) :
  ascii_text x ->
  dict_get (strip (lower x)) _aliases = None ->
  find (fun known_skill => str_eqb (strip (lower x)) (lower known_skill))
       _all_skills = None ->
  normalize (title (strip x)) = title (strip x).
Proof.
  intros Ha D F.
  assert (E : strip (lower (title (strip x))) = strip (lower x)).
  { rewrite (lower_title_ascii (strip x)) by (apply strip_Forall, Ha).
    rewrite <- strip_lower; apply strip_idem. }
  unfold normalize; rewrite E, D, F.
  rewrite strip_title_strip; apply title_idem.
Qed.

(** C8, as stated, fails: [normalize] is not idempotent on the string
    U+017F [ql server], which normalizes to [Sql Server] and then to
    [SQL Server]. *)
Lemma normalize_not_idempotent_long_s :
  normalize long_s_ql_server = py "Sql Server" /\
  normalize (normalize long_s_ql_server) = py "SQL Server" /\
  normalize (normalize long_s_ql_server) <> normalize long_s_ql_server.
Proof.
  split; [vm_compute; reflexivity|].
  split; [vm_compute; reflexivity|].
  apply str_neq_check; vm_compute; reflexivity.
Qed.

(** C8 (amended): on ASCII strings [normalize] is idempotent; every
    canonical name normalizes to itself; and when an ASCII string takes
    the title-case fallback, the fallback value is a fixed point of
    [normalize]. *)
Theorem normalize_idempotent_ascii (x : str) :
  ascii_text x ->
  normalize (normalize x) = normalize x /\
  (In x _all_skills -> normalize x = x) /\
  (normalize x = title (strip x) ->
   normalize (title (strip x)) = title (strip x)).
Proof.
  intros Ha.
  assert (I : normalize (normalize x) = normalize x).
  { destruct (normalize_cases x) as [K | [D [F E]]].
    - apply normalize_canonical, K.
    - rewrite E; apply normalize_fallback_fixed; assumption. }
  split; [exact I|].
  split; [apply normalize_canonical|].
  intros E; rewrite <- E; exact I.
Qed.

Lemma normalize_idempotent_ascii_witness :
  ascii_text (py " Rest Api ") /\
  normalize (normalize (py " Rest Api ")) = normalize (py " Rest Api ").
Proof.
  assert (H : ascii_text (py " Rest Api "))
    by (apply ascii_text_check; vm_compute; reflexivity).
  split; [exact H | exact (proj1 (normalize_idempotent_ascii _ H))].
Defined.

(** *** Categories *)

(** C3, as stated, fails: [Swift] is a member of both
    [programming_languages] and [mobile]. *)
Lemma swift_in_two_categories : ~ categories_disjoint.
Proof.
  intros D.
  apply (D (py "Swift") (py "programming_languages") (py "mobile")).
  - apply str_neq_check; vm_compute; reflexivity.
  - vm_compute; reflexivity.
  - vm_compute; reflexivity.
Qed.

Lemma in_category_In (x cat : str) :
  in_category x cat = true -> In (cat, x) memberships.
Proof.
  unfold in_category.
  destruct (dict_get cat _categories) as [members|] eqn:D; [|discriminate].
  intros M; apply mem_In in M; apply dict_get_In in D.
  apply in_flat_map; exists (cat, members); split; [exact D|].
  apply in_map_iff; exists x; auto.
Qed.

Lemma overlap_ok_all (p q : str * str) :
  In p memberships -> In q memberships -> overlap_ok p q = true.
Proof.
  intros Hp Hq.
  assert (C : forallb (fun a => forallb (overlap_ok a) memberships)
                      memberships = true) by (vm_compute; reflexivity).
  rewrite forallb_forall in C; specialize (C p Hp).
  rewrite forallb_forall in C; exact (C q Hq).
Qed.

(** C3 (amended): the category sets are pairwise disjoint except for
    [Swift] and [Kotlin], which are members of both
    [programming_languages] and [mobile]; for these two names the
    first-match lookup [get_category] answers [programming_languages]. *)
Theorem categories_disjoint_except_swift_kotlin (x c1 c2 : str) :
  c1 <> c2 -> in_category x c1 = true -> in_category x c2 = true ->
  (x = py "Swift" \/ x = py "Kotlin") /\
  ((c1 = py "programming_languages" /\ c2 = py "mobile") \/
   (c1 = py "mobile" /\ c2 = py "programming_languages")) /\
  get_category x = Some (py "programming_languages").
Proof.
  intros Hne H1 H2.
  pose proof (overlap_ok_all (c1, x) (c2, x)
                (in_category_In _ _ H1) (in_category_In _ _ H2)) as C.
  unfold overlap_ok in C; simpl fst in C; simpl snd in C.
  rewrite str_eqb_refl in C.
  destruct (str_eqb c1 c2) eqn:E;
    [apply str_eqb_eq in E; contradiction|].
  simpl in C.
  rewrite !andb_true_iff, !orb_true_iff, !andb_true_iff in C.
  rewrite !str_eqb_eq in C.
  destruct C as [[Hx Hc] Hg].
  split; [exact Hx|]. split; [exact Hc|].
  destruct (get_category x) as [g|]; simpl in Hg; [|discriminate].
  apply str_eqb_eq in Hg; subst; reflexivity.
Qed.

Lemma categories_disjoint_except_swift_kotlin_witness :
  py "mobile" <> py "programming_languages" /\
  in_category (py "Kotlin") (py "mobile") = true /\
  in_category (py "Kotlin") (py "programming_languages") = true /\
  get_category (py "Kotlin") = Some (py "programming_languages").
Proof.
  assert (N : py "mobile" <> py "programming_languages")
    by (apply str_neq_check; vm_compute; reflexivity).
  assert (A : in_category (py "Kotlin") (py "mobile") = true)
    by (vm_compute; reflexivity).
  assert (B : in_category (py "Kotlin") (py "programming_languages") = true)
    by (vm_compute; reflexivity).
  split; [exact N|]. split; [exact A|]. split; [exact B|].
  exact (proj2 (proj2 (categories_disjoint_except_swift_kotlin _ _ _ N A B))).
Defined.

End TaxonomyProps.

(* ================================================================== *)
(** ** Properties of the skill extractor *)
(* ================================================================== *)

Module ExtractorProps.
Import Py PyFacts Re ReTerms ReFacts SkillDatabase SkillExtractor ExtractorTerms.

#[local] Open Scope string_scope.
#[local] Open Scope list_scope.

Lemma skill_alternatives_nonempty : skill_alternatives <> [].
Proof.
  intros E.
  assert (H : mem (py "python") skill_alternatives = true)
    by (vm_compute; reflexivity).
  rewrite E in H; discriminate.
Qed.

Lemma skill_pattern_shape : _skill_pattern = word_alternatives skill_alternatives.
Proof. reflexivity. Qed.

(** Every string the skill pattern reports is one of its alternatives
    up to case folding. *)
Lemma skill_findall_alternative (s g : str) :
  In g (findall1 true _skill_pattern s) ->
  exists alt, In alt skill_alternatives /\ same_text true alt g = true.
Proof.
  unfold findall1, finditer; intros H.
  apply in_map_iff in H; destruct H as [m [E H]]; subst g.
  rewrite skill_pattern_shape in H.
  pose proof (scan_Forall
                (captures_alternative true skill_alternatives) true
                (word_alternatives skill_alternatives)
                (fun prev pos rest m =>
                   word_alternatives_captures true skill_alternatives
                     prev pos rest m skill_alternatives_nonempty)
                s None 0 0) as C.
  rewrite Forall_forall in C; exact (C _ H).
Qed.

(** *** The records of one extraction *)

Lemma extract_match_from (sentences : list str) (sentence : str)
      (acc : list ExtractedSkill * list str) (m : str) :
  In sentence sentences ->
  In m (findall1 true _skill_pattern (lower sentence)) ->
  Forall (from_sentences sentences) (fst acc) ->
  Forall (from_sentences sentences) (fst (extract_match sentence acc m)).
Proof.
  intros Hs Hm Hacc; unfold extract_match.
  destruct acc as [skills seen]; simpl in Hacc.
  destruct (mem (lower (normalize m)) seen); [exact Hacc|].
  destruct (_detect_experience_level sentence m) as [level yrs]; simpl.
  apply Forall_app; split; [exact Hacc|].
  constructor; [|constructor].
  exists sentence; simpl; auto.
Qed.

Lemma extract_matches_from (sentences : list str) (sentence : str)
      (matches : list str) :
  In sentence sentences ->
  (forall m, In m matches ->
             In m (findall1 true _skill_pattern (lower sentence))) ->
  forall acc,
    Forall (from_sentences sentences) (fst acc) ->
    Forall (from_sentences sentences)
           (fst (fold_left (extract_match sentence) matches acc)).
Proof.
  intros Hs; induction matches as [|m matches IH]; intros Hm acc Hacc;
    simpl; [exact Hacc|].
  apply IH; [intros m' H'; apply Hm; right; exact H'|].
  apply extract_match_from; auto; apply Hm; left; reflexivity.
Qed.

Lemma extract_sentences_from (sentences todo : list str) :
  (forall s, In s todo -> In s sentences) ->
  forall acc,
    Forall (from_sentences sentences) (fst acc) ->
    Forall (from_sentences sentences)
           (fst (fold_left extract_sentence todo acc)).
Proof.
  induction todo as [|s todo IH]; intros Hin acc Hacc; simpl; [exact Hacc|].
  apply IH; [intros s' H'; apply Hin; right; exact H'|].
  unfold extract_sentence.
  apply extract_matches_from; auto; apply Hin; left; reflexivity.
Qed.

Lemma extract_skills_from (text : str) :
  Forall (from_sentences (_split_sentences text)) (extract_skills text).
Proof.
  unfold extract_skills.
  apply extract_sentences_from; [auto | constructor].
Qed.

Lemma split_sentences_stripped (text s : str) :
  In s (_split_sentences text) -> strip s = s.
Proof.
  unfold _split_sentences; intros H.
  apply in_map_iff in H; destruct H as [s0 [E _]]; subst s.
  apply strip_idem.
Qed.

Lemma infix_of_lower (g s : str) :
  infix g (lower s) -> exists g', infix g' s /\ g = lower g'.
Proof.
  intros [a [b E]]; unfold lower in E.
  apply map_eq_app in E; destruct E as [a' [t [E1 [_ E]]]].
  apply map_eq_app in E; destruct E as [g' [b' [E2 [E _]]]].
  exists g'; split; [|symmetry; exact E].
  exists a', b'; rewrite E1, E2; reflexivity.
Qed.

(** *** Order of the alternatives *)

(** An alternative that is a proper prefix of another has a strictly
    shorter escaped form, so it stands after it whatever order the set
    of names is iterated in: alternatives of equal escaped length never
    compete at one position. *)
Lemma alternatives_prefix_shorter (a b : str) :
  In a skill_alternatives -> In b skill_alternatives ->
  starts_with a b = true -> a <> b ->
  length (escape a) < length (escape b).
Proof.
  intros Ha Hb P Hne.
  assert (C : forallb (fun x => forallb (fun y =>
                if starts_with x y && negb (str_eqb x y)
                then Nat.ltb (length (escape x)) (length (escape y))
                else true) skill_alternatives) skill_alternatives = true)
    by (vm_compute; reflexivity).
  rewrite forallb_forall in C; specialize (C a Ha).
  rewrite forallb_forall in C; specialize (C b Hb).
  rewrite P in C.
  destruct (str_eqb a b) eqn:E; [apply str_eqb_eq in E; contradiction|].
  simpl in C; apply Nat.ltb_lt, C.
Qed.

(** The alternatives stand longest first. *)
Lemma alternatives_longest_first :
  forall i j, i <= j -> j < length skill_alternatives ->
    length (escape (nth j skill_alternatives []))
    <= length (escape (nth i skill_alternatives [])).
Proof.
  assert (S : forall l : list str,
             (fix ok (l : list str) : bool :=
                match l with
                | x :: ((y :: _) as l') =>
                    Nat.leb (length (escape y)) (length (escape x)) && ok l'
                | _ => true
                end) l = true ->
             forall i j, i <= j -> j < length l ->
               length (escape (nth j l [])) <= length (escape (nth i l []))).
  { induction l as [|x l IH]; intros Hok i j Hij Hj; [simpl in Hj; lia|].
    destruct l as [|y l].
    - simpl in Hj; assert (j = 0) by lia; assert (i = 0) by lia; subst; lia.
    - apply andb_true_iff in Hok; destruct Hok as [Hxy Hok].
      apply Nat.leb_le in Hxy.
      destruct j as [|j]; [assert (i = 0) by lia; subst; lia|].
      destruct i as [|i].
      + change (nth (S j) (x :: y :: l) []) with (nth j (y :: l) []).
        change (nth 0 (x :: y :: l) []) with x.
        specialize (IH Hok 0 j ltac:(lia) ltac:(simpl in *; lia)).
        simpl nth at 2 in IH; lia.
      + change (nth (S j) (x :: y :: l) []) with (nth j (y :: l) []).
        change (nth (S i) (x :: y :: l) []) with (nth i (y :: l) []).
        apply IH; [exact Hok | lia | simpl in *; lia]. }
  apply S; vm_compute; reflexivity.
Qed.

(** *** Names of ASCII text *)

Lemma split_at_Forall (P : char -> Prop) (ms : list rmatch_obj) :
  forall (pos : nat) (s : str),
    Forall P s -> Forall (Forall P) (split_at ms pos s).
Proof.
  assert (F : forall n (s : str), Forall P s -> Forall P (firstn n s)).
  { induction n as [|n IH]; intros s H; simpl; [constructor|].
    destruct H as [|x s Hx Hs]; constructor; auto. }
  assert (K : forall n (s : str), Forall P s -> Forall P (skipn n s)).
  { induction n as [|n IH]; intros s H; simpl; [exact H|].
    destruct H as [|x s Hx Hs]; [constructor | auto]. }
  induction ms as [|m ms IH]; intros pos s H; simpl.
  - constructor; [exact H | constructor].
  - constructor; [apply F, H | apply IH, K, H].
Qed.

Lemma split_sentences_Forall (P : char -> Prop) (text s : str) :
  Forall P text -> In s (_split_sentences text) -> Forall P s.
Proof.
  unfold _split_sentences; intros H I.
  apply in_map_iff in I; destruct I as [piece [E I]]; subst s.
  apply filter_In in I; destruct I as [I _].
  apply strip_Forall.
  pose proof (split_at_Forall P (finditer false sentence_break text) 0 text H)
    as F.
  rewrite Forall_forall in F; exact (F _ I).
Qed.

(** Lower-casing ASCII text leaves ASCII text without capitals. *)
Lemma lower_is_lower_ascii (s : str) :
  ascii_text s -> Forall (fun c => lower_ascii c = true) (lower s).
Proof.
  assert (C : forall c, (if is_ascii c then lower_ascii (char_lower c)
                         else true) = true).
  { apply char_cases; [vm_compute; reflexivity|].
    intros c Hc; unfold is_ascii.
    replace (N.ltb c 128) with false; [reflexivity|].
    symmetry; apply N.ltb_ge; lia. }
  unfold ascii_text, lower; intros H.
  apply Forall_forall; intros y Hy.
  apply in_map_iff in Hy; destruct Hy as [c [E Hc]]; subst y.
  rewrite Forall_forall in H; specialize (H c Hc); specialize (C c).
  rewrite H in C; exact C.
Qed.

(** Case folding tells two such characters apart. *)
Lemma chr_eq_lower_ascii (x y : char) :
  lower_ascii x = true -> lower_ascii y = true ->
  chr_eq true x y = true -> x = y.
Proof.
  unfold lower_ascii, chr_eq, ci_fold, char_lower, is_ascii.
  intros Hx Hy E.
  apply andb_true_iff in Hx, Hy; destruct Hx as [Ax Ux], Hy as [Ay Uy].
  apply negb_true_iff in Ux, Uy; rewrite Ux, Uy in E.
  apply N.ltb_lt in Ax, Ay.
  replace (N.eqb x 383) with false in E
    by (symmetry; apply N.eqb_neq; lia).
  replace (N.eqb y 383) with false in E
    by (symmetry; apply N.eqb_neq; lia).
  apply N.eqb_eq, E.
Qed.

Lemma same_text_lower_ascii (s t : str) :
  Forall (fun c => lower_ascii c = true) s ->
  Forall (fun c => lower_ascii c = true) t ->
  same_text true s t = true -> s = t.
Proof.
  intros Hs; revert t; induction Hs as [|x s Hx Hs IH]; intros t Ht E.
  - destruct t; [reflexivity | discriminate].
  - destruct Ht as [|y t Hy Ht]; [discriminate|].
    simpl in E; apply andb_true_iff in E; destruct E as [E1 E2].
    rewrite (chr_eq_lower_ascii x y Hx Hy E1), (IH t Ht E2); reflexivity.
Qed.

(** The alternatives of the pattern are written without capitals, and
    each is the lower-case form of a name of the taxonomy. *)
Lemma skill_alternatives_lower_ascii (alt : str) :
  In alt skill_alternatives ->
  Forall (fun c => lower_ascii c = true) alt /\
  exists a, In a taxonomy_names /\ alt = lower a.
Proof.
  intros H.
  assert (C : forallb (fun x =>
                         forallb lower_ascii x
                         && existsb (fun a => str_eqb x (lower a))
                                    taxonomy_names)
                      skill_alternatives = true)
    by (vm_compute; reflexivity).
  rewrite forallb_forall in C; specialize (C alt H).
  apply andb_true_iff in C; destruct C as [C1 C2].
  split.
  - apply Forall_forall; rewrite forallb_forall in C1; exact C1.
  - apply existsb_exists in C2; destruct C2 as [a [Ha E]].
    exists a; split; [exact Ha | apply str_eqb_eq, E].
Qed.

Lemma not_mem_In (x : str) (l : list str) : mem x l = false -> ~ In x l.
Proof.
  intros E H; apply (proj2 (mem_In x l)) in H.
  rewrite H in E; discriminate.
Qed.

Lemma no_lower_form (x : str) (l : list str) :
  existsb (fun a => str_eqb (lower a) x) l = false ->
  forall a, In a l -> lower a <> x.
Proof.
  intros E a Ha K.
  assert (T : existsb (fun a => str_eqb (lower a) x) l = true).
  { apply existsb_exists; exists a; split; [exact Ha|].
    rewrite K; apply str_eqb_refl. }
  rewrite T in E; discriminate.
Qed.

(** C10, as first worded, fails on the code at the text [j] followed by
    U+017F: the pattern, which ignores case, takes the long s for the
    [s] of the alternative [js], and the record's name is the text as
    it stands, which is the lower-case form of no name of the
    taxonomy. *)
Theorem long_s_name_is_no_alias :
  map name (extract_skills js_with_long_s) = [js_with_long_s] /\
  map context (extract_skills js_with_long_s) = [js_with_long_s] /\
  In (py "js") skill_alternatives /\
  same_text true (py "js") js_with_long_s = true /\
  ~ In js_with_long_s skill_alternatives /\
  (forall a, In a taxonomy_names -> lower a <> js_with_long_s).
Proof.
  split; [vm_compute; reflexivity|].
  split; [vm_compute; reflexivity|].
  split; [apply (proj1 (mem_In _ _)); vm_compute; reflexivity|].
  split; [vm_compute; reflexivity|].
  split.
  - apply not_mem_In; vm_compute; reflexivity.
  - apply no_lower_form; vm_compute; reflexivity.
Qed.

(** C10, amended: for ASCII text the [name] field of every extracted
    record is the lower-case form of an alias key or of a canonical
    name, one of the alternatives of the skill pattern; it is in lower
    case, and it is the lower-cased form of a mention that stands in the
    record's context.  The casing of the mention survives in [context]
    only. *)
Theorem extracted_name_is_lowercased_alias_ascii (text : str)
        (r : ExtractedSkill) :
  ascii_text text ->
  In r (extract_skills text) ->
  (exists a, In a taxonomy_names /\ name r = lower a) /\
  In (name r) skill_alternatives /\
  lower (name r) = name r /\
  (exists mention, infix mention (context r) /\ name r = lower mention).
Proof.
  intros A H.
  pose proof (extract_skills_from text) as F.
  rewrite Forall_forall in F.
  destruct (F r H) as [sentence [Hs [Hc [Hm _]]]].
  rewrite (split_sentences_stripped text sentence Hs) in Hc.
  pose proof (findall1_infix _ _ _ _ Hm) as I.
  destruct (skill_findall_alternative _ _ Hm) as [alt [Halt E]].
  destruct (skill_alternatives_lower_ascii alt Halt) as [La [a [Ha Ea]]].
  assert (Ln : Forall (fun c => lower_ascii c = true) (name r)).
  { pose proof (lower_is_lower_ascii sentence
                  (split_sentences_Forall _ text sentence A Hs)) as L.
    destruct I as [u [v K]]; rewrite K in L.
    apply Forall_app in L; destruct L as [_ L].
    apply Forall_app in L; destruct L as [L _]; exact L. }
  pose proof (same_text_lower_ascii alt (name r) La Ln E) as N.
  split; [exists a; split; [exact Ha | rewrite <- N; exact Ea]|].
  split; [rewrite <- N; exact Halt|].
  split; [exact (infix_lower _ _ I)|].
  rewrite Hc; exact (infix_of_lower _ _ I).
Qed.

Lemma extracted_name_is_lowercased_alias_ascii_witness :
  ascii_text sentence_with_python /\
  exists r,
    In r (extract_skills sentence_with_python) /\
    name r = py "python" /\
    context r = sentence_with_python /\
    In (name r) skill_alternatives.
Proof.
  assert (A : ascii_text sentence_with_python)
    by (apply ascii_text_check; vm_compute; reflexivity).
  split; [exact A|].
  eexists.
  assert (H : In (mkExtractedSkill (py "python") (py "Python")
                    (py "programming_languages") (py "mentioned")
                    sentence_with_python 0%Z)
                 (extract_skills sentence_with_python))
    by (vm_compute; left; reflexivity).
  split; [exact H|].
  split; [reflexivity|].
  split; [reflexivity|].
  exact (proj1 (proj2 (extracted_name_is_lowercased_alias_ascii _ _ A H))).
Defined.

(** *** Aliases that the extractor misses *)

(** C1 fails on the code at the text [C++]: the trailing [\b] of the
    skill pattern cannot hold after [+] at the end of the text, so the
    alternative [c++] is passed over and [c] matches; the one record
    has canonical name [C], while [normalize] of [C++] is [C++]. *)
Theorem extract_cpp_yields_c :
  map normalized_name (extract_skills (py "C++")) = [py "C"] /\
  normalize (py "C++") = py "C++" /\
  In (py "c++") (map fst _aliases) /\
  In (py "c++") skill_alternatives.
Proof.
  split; [vm_compute; reflexivity|].
  split; [vm_compute; reflexivity|].
  split; apply (proj1 (mem_In _ _)); vm_compute; reflexivity.
Qed.

(** Other shapes of the same defect: a leading [.] defeats the leading
    [\b], and a [.] inside a name ends the sentence. *)
Lemma extract_dotnet_yields_nothing : extract_skills (py ".NET") = [].
Proof. vm_compute; reflexivity. Qed.

Lemma extract_nodejs_yields_two :
  map normalized_name (extract_skills (py "Node.js"))
  = [py "Node.js"; py "JavaScript"].
Proof. vm_compute; reflexivity. Qed.

(** Every other alias and canonical name is extracted as C1 says. *)
Lemma extract_alias_covered (a : str) :
  In a (map fst _aliases ++ _all_skills) ->
  extracts_itself a = negb (mem a missed_names).
Proof.
  intros H.
  assert (C : forallb (fun x => Bool.eqb (extracts_itself x)
                                         (negb (mem x missed_names)))
                      (map fst _aliases ++ _all_skills) = true)
    by (vm_compute; reflexivity).
  rewrite forallb_forall in C; apply eqb_prop, C, H.
Qed.

(** *** Year phrases *)

(** C2 fails on the code at [2 years of experience with Python]: the
    year alternative of the expert tier accepts any number of years
    (its [+] is optional), so the sentence is classified [expert]
    although none of the other expert patterns matches and the 2-to-4
    year pattern of the proficient tier matches it. *)
Theorem two_years_classified_expert :
  _detect_experience_level two_years_python (py "python")
  = (py "expert", 2%Z) /\
  map (fun r => (normalized_name r, experience_level r))
      (extract_skills two_years_python)
  = [(py "Python", py "expert")] /\
  matches_any (firstn 3 (EXPERT_PATTERNS (L "python")))
              (lower two_years_python) = false /\
  matches_any (firstn 1 (skipn 3 (PROFICIENT_PATTERNS (L "python"))))
              (lower two_years_python) = true.
Proof.
  split; [vm_compute; reflexivity|].
  split; [vm_compute; reflexivity|].
  split; vm_compute; reflexivity.
Qed.

(** The same for three and four years. *)
Lemma three_and_four_years_classified_expert :
  fst (_detect_experience_level (py "3 years with Django") (py "django"))
  = py "expert" /\
  fst (_detect_experience_level (py "4 years in Java") (py "java"))
  = py "expert".
Proof. split; vm_compute; reflexivity. Qed.

End ExtractorProps.

(* ================================================================== *)
(** ** Properties of the experience detector *)
(* ================================================================== *)

Module ExperienceProps.
Import Py PyFacts Re ReTerms ReFacts ExperienceDetector ExperienceTerms.

#[local] Open Scope Z_scope.
#[local] Open Scope string_scope.

(** *** Sums and accumulating loops *)

Lemma fold_add_shift (l : list Z) (a : Z) :
  fold_left Z.add l a = a + fold_left Z.add l 0.
Proof.
  revert a; induction l as [|x l IH]; intros a; simpl; [lia|].
  rewrite (IH (a + x)), (IH x); lia.
Qed.

Lemma sum_cons (x : Z) (l : list Z) : sum (x :: l) = x + sum l.
Proof. unfold sum; simpl; apply fold_add_shift. Qed.

Lemma sum_nil : sum [] = 0.
Proof. reflexivity. Qed.

(** A loop that adds [d x] to the accumulator for every [x] that
    passes the test [p]. *)
Lemma accumulate_filter {A : Type} (step : Z -> A -> Z) (p : A -> bool)
      (d : A -> Z) (l : list A) (a : Z) :
  (forall acc x, step acc x = if p x then acc + d x else acc) ->
  fold_left step l a = a + sum (map d (filter p l)).
Proof.
  intros Hstep; revert a; induction l as [|x l IH]; intros a; simpl.
  - rewrite sum_nil; lia.
  - rewrite IH, Hstep; destruct (p x); simpl; [rewrite sum_cons|]; lia.
Qed.

Lemma sum_const_six {A : Type} (l : list A) :
  sum (map (fun _ => 6) l) = 6 * Z.of_nat (length l).
Proof.
  induction l as [|x l IH]; [reflexivity|].
  simpl map; rewrite sum_cons, IH; simpl length; lia.
Qed.

Lemma sum_filter_le {A : Type} (p : A -> bool) (d : A -> Z) (l : list A) :
  Forall (fun x => 0 <= d x) l ->
  sum (map d (filter p l)) <= sum (map d l).
Proof.
  induction 1 as [|x l Hx Hl IH]; simpl; [lia|].
  destruct (p x); simpl; rewrite ?sum_cons; lia.
Qed.

Lemma existsb_map {A B : Type} (f : B -> bool) (g : A -> B) (l : list A) :
  existsb f (map g l) = existsb (fun x => f (g x)) l.
Proof.
  induction l as [|x l IH]; simpl; [reflexivity | rewrite IH; reflexivity].
Qed.

Lemma keep_some_Forall {A B : Type} (f : A -> option B) (P : B -> Prop)
      (l : list A) :
  (forall x y, f x = Some y -> P y) -> Forall P (keep_some f l).
Proof.
  intros H; induction l as [|x l IH]; simpl; [constructor|].
  destruct (f x) as [y|] eqn:E; [constructor; eauto | exact IH].
Qed.

(** *** Durations *)

Lemma extract_dates_floor (clock : Clock) (entry : str) :
  1 <= snd (_extract_dates clock entry).
Proof.
  unfold _extract_dates.
  destruct (Re.search false year_range_pattern (lower entry)) as [m|].
  - destruct (mem (Re.group 2 m) present_words); simpl; lia.
  - destruct (Re.findall2 false month_year_pattern (lower entry))
      as [|[m0 y0] [|[m1 y1] l]]; simpl; lia.
Qed.

Lemma extract_dates_default (clock : Clock) (entry : str) :
  fst (fst (_extract_dates clock entry)) = None ->
  snd (_extract_dates clock entry) = 12.
Proof.
  unfold _extract_dates.
  destruct (Re.search false year_range_pattern (lower entry)) as [m|].
  - destruct (mem (Re.group 2 m) present_words); simpl; discriminate.
  - destruct (Re.findall2 false month_year_pattern (lower entry))
      as [|[m0 y0] [|[m1 y1] l]]; simpl; try discriminate; reflexivity.
Qed.

Lemma parse_entry_duration (clock : Clock) (entry : str)
      (w : WorkExperience.t) :
  _parse_experience_entry clock entry = Some w ->
  WorkExperience.duration_months w = snd (_extract_dates clock entry) /\
  WorkExperience.start_date w = fst (fst (_extract_dates clock entry)).
Proof.
  unfold _parse_experience_entry.
  destruct (split_chr NL entry) as [|line0 lines]; [discriminate|].
  destruct (_extract_dates clock entry) as [[sd ed] d].
  intros H; inversion H; subst; simpl; auto.
Qed.

Lemma work_experiences_floor (clock : Clock) (text : str) :
  Forall (fun w => 1 <= WorkExperience.duration_months w)
         (_extract_work_experiences clock text).
Proof.
  unfold _extract_work_experiences.
  apply keep_some_Forall; intros entry w H.
  apply parse_entry_duration in H; destruct H as [-> _].
  apply extract_dates_floor.
Qed.

(** *** Month names *)

Lemma month_year_pattern_shape :
  month_year_pattern
  = Seq (Grp 1 (AltL (map Lit month_names)))
        (SeqL [Star (Cls [CRange (c "a") (c "z")]); Opt (L "."); Sp0;
               Grp 2 Dg4]).
Proof. reflexivity. Qed.

Lemma month_match_key (prev : option char) (pos : nat) (rest : str)
      (m : rmatch_obj) :
  match_here false month_year_pattern prev pos rest = Some m ->
  In (group 1 m) month_names.
Proof.
  unfold match_here; rewrite month_year_pattern_shape; intros H.
  match type of H with
  | match ?e with _ => _ end = _ => destruct e as [st'|] eqn:E
  end; [|discriminate].
  inversion H; subst; clear H.
  apply group1_alternative in E; [|discriminate | reflexivity].
  destruct E as [alt [t [st1 [I [T [G K]]]]]].
  inversion K; subst st1; clear K.
  unfold group; simpl; rewrite G.
  apply same_text_exact in T; subst t; exact I.
Qed.

(** The first component of every pair [findall] reports for the
    month-year pattern is a key of [months], so the lookups of
    [_extract_dates] never miss. *)
Lemma month_years_keys (s m y : str) :
  In (m, y) (findall2 false month_year_pattern s) ->
  exists n, SkillDatabase.dict_get (firstn 3 m) months = Some n /\
            months_get (firstn 3 m) = n /\ 1 <= n <= 12.
Proof.
  unfold findall2, finditer; intros H.
  apply in_map_iff in H; destruct H as [mo [E H]].
  inversion E; subst; clear E.
  pose proof (scan_Forall (fun mo => In (group 1 mo) month_names) false
                month_year_pattern month_match_key s None 0%nat 0%nat) as C.
  rewrite Forall_forall in C; specialize (C _ H).
  assert (K : forallb (fun k =>
                match SkillDatabase.dict_get (firstn 3 k) months with
                | Some n => Z.eqb (months_get (firstn 3 k)) n
                            && Z.leb 1 n && Z.leb n 12
                | None => false
                end) month_names = true) by (vm_compute; reflexivity).
  rewrite forallb_forall in K; specialize (K _ C).
  destruct (SkillDatabase.dict_get (firstn 3 (group 1 mo)) months) as [n|];
    [|discriminate].
  apply andb_true_iff in K; destruct K as [K K3].
  apply andb_true_iff in K; destruct K as [K1 K2].
  exists n; rewrite Z.eqb_eq in K1; rewrite Z.leb_le in K2, K3; auto.
Qed.

(** C9: every work entry of the analysis lasts at least one month, and
    an entry without a recognizable date (no start date) has the
    12-month default. *)
Theorem work_durations_at_least_one (clock : Clock) (text : str)
        (required_skills : option (list str)) :
  let a := analyze_experience clock text required_skills in
  Forall (fun w => 1 <= WorkExperience.duration_months w)
         (work_experiences a) /\
  Forall (fun w => WorkExperience.start_date w = None ->
                   WorkExperience.duration_months w = 12)
         (work_experiences a).
Proof.
  simpl; split; [apply work_experiences_floor|].
  unfold _extract_work_experiences.
  apply keep_some_Forall; intros entry w H.
  apply parse_entry_duration in H; destruct H as [-> ->].
  apply extract_dates_default.
Qed.

(** *** Relevant experience, in the words of the specification *)

Lemma any_required_lower (required : list str) (text : str) :
  any (fun skill => str_in skill (lower text)) (map lower required)
  = mentions_required required text.
Proof. unfold any, mentions_required; rewrite existsb_map; reflexivity. Qed.

Lemma calculate_relevant_nonempty (ws : list WorkExperience.t)
      (ps : list Project.t) (required : list str) :
  required <> [] ->
  _calculate_relevant_experience ws ps required
  = sum (map WorkExperience.duration_months (relevant_work required ws))
    + 6 * Z.of_nat (length (relevant_projects required ps)).
Proof.
  intros Hne; unfold _calculate_relevant_experience.
  destruct required as [|r0 required]; [contradiction|].
  set (req := r0 :: required).
  rewrite (accumulate_filter _
             (fun proj => mentions_required req (project_text proj))
             (fun _ => 6)).
  2:{ intros acc proj; unfold project_text.
      rewrite <- any_required_lower; reflexivity. }
  rewrite (accumulate_filter _
             (fun exp => mentions_required req (WorkExperience.description exp))
             WorkExperience.duration_months).
  2:{ intros acc exp; rewrite <- any_required_lower; reflexivity. }
  rewrite sum_const_six.
  unfold relevant_work, relevant_projects; lia.
Qed.


(** *** Relevant experience against total experience *)

Lemma analyze_fields (clock : Clock) (text : str)
      (required_skills : option (list str)) :
  let a := analyze_experience clock text required_skills in
  work_experiences a = _extract_work_experiences clock text /\
  projects a = _extract_projects text /\
  total_experience_months a
  = sum (map WorkExperience.duration_months
             (_extract_work_experiences clock text)) /\
  relevant_experience_months a
  = _calculate_relevant_experience
      (_extract_work_experiences clock text) (_extract_projects text)
      (required_list required_skills) /\
  seniority_estimate a
  = _estimate_seniority
      (_extract_work_experiences clock text)
      (sum (map WorkExperience.duration_months
                (_extract_work_experiences clock text))).
Proof. repeat split. Qed.

(** C5, as stated, fails: one 18-month work entry and one project both
    mention the required skill, so the relevant months are 18 + 6 = 24
    against a total of 18. *)
Lemma relevant_exceeds_total :
  let a := analyze_experience clock_2026_11 resume_with_project
                              (Some [py "Python"]) in
  total_experience_months a = 18 /\
  relevant_experience_months a = 24 /\
  ~ (relevant_experience_months a <= total_experience_months a).
Proof.
  split; [vm_compute; reflexivity|].
  split; [vm_compute; reflexivity|].
  vm_compute; intros H; apply H; reflexivity.
Qed.

(** C5 (amended): the relevant months exceed the total by at most six
    months per project that mentions a required skill; with no such
    project, or with no required skill, they are at most the total. *)
Theorem relevant_at_most_total_plus_projects (clock : Clock) (text : str)
        (required_skills : option (list str)) :
  let a := analyze_experience clock text required_skills in
  relevant_experience_months a
  <= total_experience_months a
     + 6 * Z.of_nat (length (relevant_projects
                               (required_list required_skills) (projects a))).
Proof.
  destruct (analyze_fields clock text required_skills) as [_ [P [T [R _]]]].
  cbv zeta; rewrite P, T, R.
  destruct (required_list required_skills) as [|r0 required] eqn:E.
  - unfold _calculate_relevant_experience; lia.
  - rewrite calculate_relevant_nonempty by discriminate.
    apply Z.add_le_mono_r.
    apply sum_filter_le.
    apply (Forall_impl _ (P := fun w => 1 <= WorkExperience.duration_months w));
      [intros w Hw; lia | apply work_experiences_floor].
Qed.

(** *** Seniority *)





(** *** Entry segmentation *)

(** C7, as stated, fails: a fragment of exactly 20 characters is
    dropped. *)
Lemma twenty_char_fragment_dropped :
  In twenty_char_section (Re.split blank_line_run twenty_char_section) /\
  length (strip twenty_char_section) = 20%nat /\
  _split_into_entries twenty_char_section = [].
Proof.
  split; [vm_compute; left; reflexivity|].
  split; vm_compute; reflexivity.
Qed.

(** C7 (amended): the entries are exactly the stripped fragments of 21
    characters or more; fragments whose stripped length is 20 or less
    are dropped. *)
Theorem entries_are_fragments_over_twenty (section entry : str) :
  In entry (_split_into_entries section) <->
  exists fragment,
    In fragment (Re.split blank_line_run section) /\
    entry = strip fragment /\ (21 <= length entry)%nat.
Proof.
  unfold _split_into_entries; rewrite in_map_iff; split.
  - intros [fragment [E H]]; apply filter_In in H; destruct H as [H K].
    apply andb_true_iff in K; destruct K as [_ K].
    apply Nat.ltb_lt in K.
    exists fragment; subst entry; repeat split; [exact H | lia].
  - intros [fragment [H [E K]]]; exists fragment; split; [auto|].
    apply filter_In; split; [exact H|].
    subst entry; apply andb_true_iff; split.
    + destruct (strip fragment); [simpl in K; lia | reflexivity].
    + apply Nat.ltb_lt; lia.
Qed.

End ExperienceProps.

(* ================================================================== *)
(** ** Further properties of the taxonomy *)
(* ================================================================== *)

Module TaxonomyMore.
Import Py PyFacts SkillDatabase TaxonomyTerms TaxonomyProps.

#[local] Open Scope string_scope.

(** *** Dictionaries with distinct keys *)

Lemma distinct_NoDup (l : list str) : distinct l = true -> NoDup l.
Proof.
  induction l as [|x l IH]; simpl; intros H; constructor.
  - apply andb_true_iff in H; destruct H as [H _].
    intros I; apply mem_In in I; rewrite I in H; discriminate.
  - apply IH; apply andb_true_iff in H; tauto.
Qed.

(** With distinct keys the first binding of a key is its only one, so
    the association list reads like the dictionary. *)
Lemma dict_get_distinct {V : Type} (d : list (str * V)) (k : str) (v : V) :
  NoDup (map fst d) -> In (k, v) d -> dict_get k d = Some v.
Proof.
  induction d as [|[k' v'] d IH]; simpl; intros N I; [contradiction|].
  inversion N as [|? ? Hnot N']; subst.
  destruct I as [E | I].
  - inversion E; subst; rewrite str_eqb_refl; reflexivity.
  - destruct (str_eqb k k') eqn:E; [|exact (IH N' I)].
    apply str_eqb_eq in E; subst k'.
    exfalso; apply Hnot; apply in_map_iff; exists (k, v); auto.
Qed.

Lemma alias_keys_distinct : NoDup (map fst _aliases).
Proof. apply distinct_NoDup; vm_compute; reflexivity. Qed.

Lemma alias_keys_lower : _aliases = SKILL_ALIASES.
Proof. vm_compute; reflexivity. Qed.

(** *** Aliases *)

(** Every alias reaches its canonical name whatever the case and the
    surrounding white space of the input: [normalize] looks up the
    lower-cased, stripped input. *)
Theorem normalize_alias_any_case (x alias canonical : str) :
  In (alias, canonical) SKILL_ALIASES ->
  strip (lower x) = alias ->
  normalize x = canonical.
Proof.
  intros I E; unfold normalize; rewrite E.
  rewrite <- alias_keys_lower in I.
  rewrite (dict_get_distinct _ _ _ alias_keys_distinct I); reflexivity.
Qed.

Lemma normalize_alias_any_case_witness :
  In (py "k8s", py "Kubernetes") SKILL_ALIASES /\
  strip (lower (py "  K8S ")) = py "k8s" /\
  normalize (py "  K8S ") = py "Kubernetes".
Proof.
  assert (I : In (py "k8s", py "Kubernetes") SKILL_ALIASES).
  { apply in_map_iff; exists ("k8s", "Kubernetes"); split; [reflexivity|].
    simpl; tauto. }
  assert (E : strip (lower (py "  K8S ")) = py "k8s")
    by (vm_compute; reflexivity).
  split; [exact I|]. split; [exact E|].
  exact (normalize_alias_any_case _ _ _ I E).
Defined.

(** *** Case and padding *)

Lemma char_title_lower_ascii (ch : char) :
  is_ascii ch = true -> char_title (char_lower ch) = char_title ch.
Proof.
  intros Ha; apply N.ltb_lt in Ha.
  apply N.eqb_eq.
  apply (range_forall
           (fun x => N.eqb (char_title (char_lower x)) (char_title x))
           0 128); [vm_compute; reflexivity | lia | lia].
Qed.

Lemma title_from_lower_ascii (b : bool) (s : str) :
  ascii_text s -> title_from b (lower s) = title_from b s.
Proof.
  intros H; revert b; induction H as [|x s Hx Hs IH]; intros b; simpl;
    [reflexivity|].
  rewrite is_cased_lower; unfold lower in IH; rewrite IH; f_equal.
  destruct b; [apply char_lower_idem | apply char_title_lower_ascii, Hx].
Qed.

(** On ASCII input [normalize] ignores the case of its argument, and on
    every input it ignores surrounding white space. *)
Theorem normalize_ignores_case_and_padding (x : str) :
  ascii_text x ->
  normalize (lower x) = normalize x /\ normalize (strip x) = normalize x.
Proof.
  intros Ha; split; unfold normalize.
  - assert (T : title (strip (lower x)) = title (strip x)).
    { rewrite strip_lower; unfold title.
      apply title_from_lower_ascii, strip_Forall, Ha. }
    rewrite lower_idem, T; reflexivity.
  - assert (K : strip (lower (strip x)) = strip (lower x))
      by (rewrite (strip_lower (strip x)), strip_idem, strip_lower;
          reflexivity).
    rewrite K, strip_idem; reflexivity.
Qed.

Lemma normalize_ignores_case_and_padding_witness :
  ascii_text (py " Fortran IV ") /\
  normalize (lower (py " Fortran IV ")) = normalize (py " Fortran IV ") /\
  normalize (py " Fortran IV ") = py "Fortran Iv".
Proof.
  assert (H : ascii_text (py " Fortran IV "))
    by (apply ascii_text_check; vm_compute; reflexivity).
  split; [exact H|].
  split; [exact (proj1 (normalize_ignores_case_and_padding _ H))|].
  vm_compute; reflexivity.
Defined.

(** *** Categories *)

Lemma category_keys_distinct : NoDup (map fst _categories).
Proof. apply distinct_NoDup; vm_compute; reflexivity. Qed.

Lemma category_keys_nonempty (c : str) :
  In c (map fst _categories) -> c <> [].
Proof.
  intros I E; subst c.
  assert (C : mem [] (map fst _categories) = false)
    by (vm_compute; reflexivity).
  apply mem_In in I; rewrite I in C; discriminate.
Qed.

(** What [get_category] answers: a category of the table whose member
    set holds the canonical name. *)
Lemma get_category_Some (skill c : str) :
  get_category skill = Some c ->
  exists members, In (c, members) _categories /\
                  In (normalize skill) members.
Proof.
  unfold get_category; intros H.
  destruct (find (fun cs => mem (normalize skill) (snd cs)) _categories)
    as [[c' members]|] eqn:F; [|discriminate].
  simpl in H; inversion H; subst c'.
  apply find_some in F; destruct F as [I M].
  exists members; split; [exact I | apply mem_In, M].
Qed.

(** The lookup of [get_related_skills] never misses. *)
Lemma related_lookup_hits (skill c : str) :
  get_category skill = Some c ->
  exists members, dict_get c _categories = Some members /\
                  In (normalize skill) members.
Proof.
  intros H; destruct (get_category_Some _ _ H) as [members [I M]].
  exists members; split; [|exact M].
  exact (dict_get_distinct _ _ _ category_keys_distinct I).
Qed.

(** A skill is never both a core skill and a tool, and a skill without
    a category is neither. *)
Theorem core_and_tool_exclusive (skill : str) :
  is_core_skill skill && is_tool skill = false /\
  (get_category skill = None ->
   is_core_skill skill = false /\ is_tool skill = false).
Proof.
  unfold is_core_skill, is_tool.
  destruct (get_category skill) as [c|]; [|auto].
  split; [|discriminate].
  fold core_categories; fold tool_categories.
  destruct (mem c core_categories) eqn:M; [|reflexivity].
  apply mem_In in M; simpl in M.
  destruct M as [<-|[<-|[<-|[<-|[<-|[]]]]]]; vm_compute; reflexivity.
Qed.

(** On ASCII input the category of a skill is the category of its
    canonical name, and a category that is answered holds that
    canonical name. *)
Theorem category_of_canonical_name (x : str) :
  ascii_text x ->
  get_category (normalize x) = get_category x /\
  forall c, get_category x = Some c -> in_category (normalize x) c = true.
Proof.
  intros Ha; split.
  - unfold get_category.
    assert (I : normalize (normalize x) = normalize x).
    { destruct (normalize_cases x) as [K | [D [F E]]].
      - apply normalize_canonical, K.
      - rewrite E; apply normalize_fallback_fixed; assumption. }
    rewrite I; reflexivity.
  - intros c H; destruct (related_lookup_hits _ _ H) as [members [D M]].
    unfold in_category; rewrite D; apply mem_In, M.
Qed.

Lemma category_of_canonical_name_witness :
  ascii_text (py "ReactJS") /\
  get_category (normalize (py "ReactJS")) = Some (py "frontend") /\
  get_category (py "ReactJS") = Some (py "frontend").
Proof.
  assert (H : ascii_text (py "ReactJS"))
    by (apply ascii_text_check; vm_compute; reflexivity).
  split; [exact H|].
  assert (G : get_category (py "ReactJS") = Some (py "frontend"))
    by (vm_compute; reflexivity).
  split; [|exact G].
  rewrite (proj1 (category_of_canonical_name _ H)); exact G.
Defined.

(** [get_related_skills] answers the whole member set of the skill's
    category, which holds the skill's canonical name, and the empty set
    for a skill without a category. *)
Theorem related_skills_hold_the_skill (skill : str) :
  match get_category skill with
  | Some c =>
      exists members, In (c, members) SKILL_CATEGORIES /\
                      get_related_skills skill = members /\
                      In (normalize skill) members
  | None => get_related_skills skill = []
  end.
Proof.
  unfold get_related_skills.
  destruct (get_category skill) as [c|] eqn:G; [|reflexivity].
  destruct (get_category_Some _ _ G) as [members [I M]].
  exists members; split; [exact I|].
  split; [|exact M].
  assert (N : c <> []).
  { apply category_keys_nonempty, in_map_iff; exists (c, members); auto. }
  destruct c as [|ch c]; [contradiction|].
  rewrite (dict_get_distinct _ _ _ category_keys_distinct I); reflexivity.
Qed.

End TaxonomyMore.

(* ================================================================== *)
(** ** Further properties of the skill extractor *)
(* ================================================================== *)

Module ExtractorMore.
Import Py PyFacts Re ReTerms ReFacts SkillDatabase SkillExtractor.
Import ExtractorTerms TaxonomyTerms TaxonomyProps TaxonomyMore.

#[local] Open Scope string_scope.
#[local] Open Scope list_scope.

(** *** Loop invariants of [extract_skills] *)

(** A property of the pair (records, seen keys) that holds at the
    start and is kept by every step of the inner loop holds at the
    end. *)
Lemma extract_skills_invariant
      (Q : list ExtractedSkill * list str -> Prop) (text : str) :
  Q ([], []) ->
  (forall sentence m acc, Q acc -> Q (extract_match sentence acc m)) ->
  Q (fold_left extract_sentence (_split_sentences text) ([], [])).
Proof.
  intros Q0 Qstep.
  generalize (_split_sentences text) as sentences.
  generalize (@nil ExtractedSkill, @nil str) Q0.
  intros acc Hacc sentences; revert acc Hacc.
  induction sentences as [|s sentences IH]; intros acc Hacc; simpl;
    [exact Hacc|].
  apply IH; unfold extract_sentence.
  generalize (findall1 true _skill_pattern (lower s)) as matches.
  intros matches; revert acc Hacc.
  induction matches as [|m matches IHm]; intros acc Hacc; simpl;
    [exact Hacc|].
  apply IHm, Qstep, Hacc.
Qed.

(** The record a step appends, if it appends one. *)
Lemma extract_match_cases (sentence m : str)
      (skills : list ExtractedSkill) (seen : list str) :
  extract_match sentence (skills, seen) m = (skills, seen) /\
  mem (lower (normalize m)) seen = true
  \/
  exists r,
    extract_match sentence (skills, seen) m
    = (skills ++ [r], lower (normalize m) :: seen) /\
    mem (lower (normalize m)) seen = false /\
    name r = m /\ normalized_name r = normalize m /\
    (experience_level r, years r) = _detect_experience_level sentence m /\
    category r = match get_category (normalize m) with
                 | Some c => c
                 | None => py "other"
                 end.
Proof.
  unfold extract_match.
  destruct (mem (lower (normalize m)) seen) eqn:M; [left; auto|].
  right.
  destruct (_detect_experience_level sentence m) as [level yrs].
  eexists; split; [reflexivity|]; simpl; auto.
Qed.

Lemma extract_skills_Forall (P : ExtractedSkill -> Prop) (text : str) :
  (forall sentence m r,
      name r = m -> normalized_name r = normalize m ->
      (experience_level r, years r) = _detect_experience_level sentence m ->
      category r = match get_category (normalize m) with
                   | Some c => c
                   | None => py "other"
                   end ->
      P r) ->
  Forall P (extract_skills text).
Proof.
  intros HP; unfold extract_skills.
  apply (extract_skills_invariant (fun acc => Forall P (fst acc)));
    [constructor|].
  intros sentence m [skills seen] Hacc; simpl in Hacc.
  destruct (extract_match_cases sentence m skills seen)
    as [[E _] | [r [E [_ [N [C [L K]]]]]]]; rewrite E; simpl; [exact Hacc|].
  apply Forall_app; split; [exact Hacc|].
  constructor; [exact (HP _ _ _ N C L K) | constructor].
Qed.

(** *** No skill twice *)

Lemma NoDup_snoc {A : Type} (l : list A) (x : A) :
  NoDup l -> ~ In x l -> NoDup (l ++ [x]).
Proof.
  induction 1 as [|y l Hy Hl IH]; intros Hx; simpl.
  - constructor; [intros [] | constructor].
  - constructor.
    + intros I; apply in_app_or in I; destruct I as [I | [I | []]];
        [exact (Hy I) | subst; apply Hx; left; reflexivity].
    + apply IH; intros I; apply Hx; right; exact I.
Qed.

(** No two records of one extraction have the same canonical name,
    compared case-insensitively. *)
Theorem extract_no_duplicate_skills (text : str) :
  NoDup (map seen_key (extract_skills text)).
Proof.
  unfold extract_skills.
  apply (extract_skills_invariant
           (fun acc => NoDup (map seen_key (fst acc)) /\
                       forall r, In r (fst acc) -> In (seen_key r) (snd acc)));
    [split; [constructor | intros r []]|].
  intros sentence m [skills seen] [N S]; simpl in N, S.
  destruct (extract_match_cases sentence m skills seen)
    as [[E _] | [r [E [M [_ [C _]]]]]]; rewrite E; simpl; [auto|].
  assert (K : seen_key r = lower (normalize m))
    by (unfold seen_key; rewrite C; reflexivity).
  split.
  - rewrite map_app; simpl; apply NoDup_snoc; [exact N|].
    intros I; apply in_map_iff in I; destruct I as [r' [E' I']].
    apply S in I'; rewrite E', K in I'.
    apply mem_In in I'; rewrite I' in M; discriminate.
  - intros r' I; apply in_app_or in I; destruct I as [I | [I | []]].
    + right; exact (S _ I).
    + subst r'; left; symmetry; exact K.
Qed.

(** *** Levels, years and categories *)

Lemma detect_level_cases (context0 skill level : str) (yrs : Z) :
  (level, yrs) = _detect_experience_level context0 skill ->
  (level = py "mentioned" /\ yrs = 0%Z) \/
  (In level (map py ["expert"; "proficient"; "used"]) /\ (0 < yrs)%Z).
Proof.
  unfold _detect_experience_level.
  destruct (matches_any (EXPERT_PATTERNS _) _);
    [|destruct (matches_any (PROFICIENT_PATTERNS _) _);
      [|destruct (matches_any (USED_PATTERNS _) _)]];
    intros H; inversion H; subst; clear H;
    try (left; split; reflexivity);
    right; (split; [simpl; tauto|]);
    destruct (Z.ltb 0 (_extract_years context0)) eqn:E;
    try (apply Z.ltb_lt in E; exact E); reflexivity.
Qed.

Lemma category_or_other (x : str) :
  In (match get_category x with Some c => c | None => py "other" end)
     category_names.
Proof.
  unfold category_names.
  destruct (get_category x) as [c|] eqn:G.
  - apply in_or_app; left.
    destruct (get_category_Some _ _ G) as [members [I _]].
    apply in_map_iff; exists (c, members); auto.
  - apply in_or_app; right; left; reflexivity.
Qed.

(** Every record of an extraction is well formed: its canonical name is
    the normal form of its name, its level is one of the four levels
    with zero years for a bare mention and a positive number of years
    otherwise, and its category is one of the eleven categories or
    [other]. *)
Theorem extracted_records_well_formed (text : str) :
  Forall (fun r =>
            normalized_name r = normalize (name r) /\
            level_years_ok r /\
            In (category r) category_names)
         (extract_skills text).
Proof.
  apply extract_skills_Forall; intros sentence m r N C L K.
  split; [rewrite N; exact C|].
  split; [exact (detect_level_cases _ _ _ _ L)|].
  rewrite K; apply category_or_other.
Qed.

(** *** The summary *)

Lemma filed_cons (k : str) (l : list str) (d : list (str * list str)) :
  filed ((k, l) :: d) = length l + filed d.
Proof. reflexivity. Qed.

Lemma filed_app (d e : list (str * list str)) :
  filed (d ++ e) = filed d + filed e.
Proof.
  induction d as [|[k l] d IH]; [reflexivity|].
  simpl app; rewrite !filed_cons, IH; lia.
Qed.

(** Appending under a key that is present. *)
Lemma dict_append_Some (k v : str) (d : list (str * list str)) :
  In k (map fst d) ->
  exists d',
    dict_append k v d = Some d' /\
    map fst d' = map fst d /\
    filed d' = S (filed d) /\
    filed_under k v d' /\
    forall k0 v0, filed_under k0 v0 d -> filed_under k0 v0 d'.
Proof.
  induction d as [|[k' l] d IH]; simpl; intros I; [contradiction|].
  destruct (str_eqb k k') eqn:E.
  - apply str_eqb_eq in E; subst k'.
    eexists; split; [reflexivity|].
    split; [reflexivity|].
    split; [rewrite !filed_cons, length_app; simpl; lia|].
    split.
    + exists (l ++ [v]); simpl; rewrite str_eqb_refl; split; [reflexivity|].
      apply in_or_app; right; left; reflexivity.
    + intros k0 v0 [l0 [G I0]]; simpl in G.
      unfold filed_under; simpl.
      destruct (str_eqb k0 k); [|exists l0; auto].
      inversion G; subst l0.
      exists (l ++ [v]); split; [reflexivity | apply in_or_app; auto].
  - destruct I as [I | I];
      [subst k'; rewrite str_eqb_refl in E; discriminate|].
    destruct (IH I) as [d' [A [K [F [U P]]]]].
    exists ((k', l) :: d'); rewrite A; simpl.
    split; [reflexivity|].
    split; [rewrite K; reflexivity|].
    split; [rewrite !filed_cons, F; lia|].
    split.
    + destruct U as [l0 [G I0]]; exists l0; simpl; rewrite E; auto.
    + intros k0 v0 [l0 [G I0]]; simpl in G.
      unfold filed_under; simpl.
      destruct (str_eqb k0 k'); [exists l0; auto|].
      apply P; exists l0; auto.
Qed.

(** Appending under a key that is missing: the [KeyError]. *)
Lemma dict_append_None (k v : str) (d : list (str * list str)) :
  ~ In k (map fst d) -> dict_append k v d = None.
Proof.
  induction d as [|[k' l] d IH]; simpl; intros I; [reflexivity|].
  destruct (str_eqb k k') eqn:E.
  - apply str_eqb_eq in E; subst; exfalso; apply I; left; reflexivity.
  - rewrite IH; [reflexivity | intros J; apply I; right; exact J].
Qed.

Lemma dict_get_app_missing {V : Type} (k : str) (d e : list (str * V)) :
  ~ In k (map fst d) -> dict_get k (d ++ e) = dict_get k e.
Proof.
  induction d as [|[k' l] d IH]; simpl; intros I; [reflexivity|].
  destruct (str_eqb k k') eqn:E.
  - apply str_eqb_eq in E; subst; exfalso; apply I; left; reflexivity.
  - apply IH; intros J; apply I; right; exact J.
Qed.

Lemma dict_get_app_present {V : Type} (k : str) (d e : list (str * V))
      (v : V) :
  dict_get k d = Some v -> dict_get k (d ++ e) = Some v.
Proof.
  induction d as [|[k' l] d IH]; simpl; [discriminate|].
  destruct (str_eqb k k'); [auto | exact IH].
Qed.

Lemma in_keys_dec (k : str) (l : list str) : In k l \/ ~ In k l.
Proof.
  destruct (mem k l) eqn:M; [left; apply mem_In, M|].
  right; intros I; apply mem_In in I; rewrite I in M; discriminate.
Qed.

(** Appending under a key that is created when missing. *)
Lemma dict_add_append_spec (k v : str) (d : list (str * list str)) :
  filed (dict_add_append k v d) = S (filed d) /\
  filed_under k v (dict_add_append k v d) /\
  forall k0 v0, filed_under k0 v0 d ->
                filed_under k0 v0 (dict_add_append k v d).
Proof.
  unfold dict_add_append.
  destruct (in_keys_dec k (map fst d)) as [I | I].
  - destruct (dict_append_Some k v d I) as [d' [A [_ [F [U P]]]]].
    rewrite A; auto.
  - rewrite (dict_append_None k v d I).
    split; [rewrite filed_app; unfold filed at 2; simpl; lia|].
    split.
    + exists [v]; rewrite (dict_get_app_missing _ _ _ I); simpl.
      rewrite str_eqb_refl; split; [reflexivity | left; reflexivity].
    + intros k0 v0 [l0 [G I0]]; exists l0; split; [|exact I0].
      apply dict_get_app_present, G.
Qed.

(** One step of the loop on a record whose level is a key. *)
Lemma summary_step_Some (summary : SkillSummary) (r : ExtractedSkill)
      (done : list ExtractedSkill) :
  summary_of summary done ->
  In (experience_level r) four_levels ->
  exists summary',
    summary_step summary r = Some summary' /\
    total_skills summary' = total_skills summary /\
    summary_of summary' (done ++ [r]).
Proof.
  intros [K [FL [FC [CT M]]]] I; unfold summary_step.
  rewrite <- K in I.
  destruct (dict_append_Some (experience_level r) (normalized_name r)
              (by_level summary) I) as [bl [A [K' [F [U P]]]]].
  destruct (dict_add_append_spec (category r) (normalized_name r)
              (by_category summary)) as [F2 [U2 P2]].
  rewrite A; eexists; split; [reflexivity|].
  split; [reflexivity|].
  unfold summary_of; simpl; rewrite length_app; simpl.
  split; [congruence|].
  split; [lia|].
  split; [lia|].
  split.
  - destruct (is_core_skill (normalized_name r));
      [|destruct (is_tool (normalized_name r))];
      rewrite ?length_app; simpl; lia.
  - intros r' J; apply in_app_or in J; destruct J as [J | [J | []]].
    + destruct (M _ J) as [M1 M2]; split; [apply P, M1 | apply P2, M2].
    + subst r'; split; [exact U | exact U2].
Qed.

Lemma summary_step_None (summary : SkillSummary) (r : ExtractedSkill) :
  map fst (by_level summary) = four_levels ->
  ~ In (experience_level r) four_levels ->
  summary_step summary r = None.
Proof.
  intros K I; unfold summary_step.
  rewrite dict_append_None; [reflexivity | rewrite K; exact I].
Qed.

Lemma summary_loop_valid (skills : list ExtractedSkill) :
  forall (summary : SkillSummary) (done : list ExtractedSkill),
    summary_of summary done ->
    Forall (fun r => In (experience_level r) four_levels) skills ->
    exists s, summary_loop summary skills = Some s /\
              total_skills s = total_skills summary /\
              summary_of s (done ++ skills).
Proof.
  induction skills as [|r skills IH]; intros summary done S V; simpl.
  - exists summary; rewrite app_nil_r; auto.
  - inversion V as [|? ? Vr Vs]; subst.
    destruct (summary_step_Some summary r done S Vr) as [s1 [E [T S1]]].
    rewrite E.
    destruct (IH s1 (done ++ [r]) S1 Vs) as [s [L [T' S']]].
    exists s; rewrite <- app_assoc in S'; simpl in S'.
    split; [exact L|]. split; [congruence | exact S'].
Qed.

Lemma summary_loop_invalid (skills : list ExtractedSkill) :
  forall (summary : SkillSummary) (done : list ExtractedSkill),
    summary_of summary done ->
    Exists (fun r => ~ In (experience_level r) four_levels) skills ->
    summary_loop summary skills = None.
Proof.
  induction skills as [|r skills IH]; intros summary done S X; simpl;
    [inversion X|].
  destruct (in_keys_dec (experience_level r) four_levels) as [I | I].
  - destruct (summary_step_Some summary r done S I) as [s1 [E [_ S1]]].
    rewrite E; apply (IH s1 (done ++ [r]) S1).
    inversion X; subst; [contradiction | assumption].
  - destruct S as [K _]; rewrite (summary_step_None summary r K I).
    reflexivity.
Qed.

Lemma empty_summary_of (n : nat) : summary_of (empty_summary n) [].
Proof.
  unfold summary_of; simpl.
  split; [reflexivity|]. split; [reflexivity|]. split; [reflexivity|].
  split; [lia | intros r []].
Qed.

Lemma levels_valid_or_not (skills : list ExtractedSkill) :
  Forall (fun r => In (experience_level r) four_levels) skills \/
  Exists (fun r => ~ In (experience_level r) four_levels) skills.
Proof.
  induction skills as [|r skills [V | X]]; [left; constructor | |].
  - destruct (in_keys_dec (experience_level r) four_levels) as [I | I];
      [left; constructor; assumption | right; left; exact I].
  - right; right; exact X.
Qed.

(** [get_skill_summary] raises [KeyError] exactly when some record
    carries a level that is not one of the four keys of [by_level]. *)
Theorem summary_key_error (skills : list ExtractedSkill) :
  get_skill_summary skills = None <->
  Exists (fun r => ~ In (experience_level r) four_levels) skills.
Proof.
  unfold get_skill_summary; split.
  - intros H.
    destruct (levels_valid_or_not skills) as [V | X]; [|exact X].
    destruct (summary_loop_valid skills _ [] (empty_summary_of (length skills)) V)
      as [s [L _]]; rewrite L in H; discriminate.
  - intros X.
    exact (summary_loop_invalid skills _ []
             (empty_summary_of (length skills)) X).
Qed.

(** The summary of an extraction is always defined.  It counts the
    records; [by_level] and [by_category] each file every record once,
    under its level and under its category; and the core skills and the
    tools together are at most as many as the records. *)
Theorem summary_of_extraction (text : str) :
  exists s,
    get_skill_summary (extract_skills text) = Some s /\
    total_skills s = length (extract_skills text) /\
    summary_of s (extract_skills text).
Proof.
  unfold get_skill_summary.
  assert (V : Forall (fun r => In (experience_level r) four_levels)
                     (extract_skills text)).
  { apply extract_skills_Forall; intros sentence m r _ _ L _.
    destruct (detect_level_cases _ _ _ _ L) as [[E _] | [I _]].
    - rewrite E; simpl; tauto.
    - simpl in *; tauto. }
  destruct (summary_loop_valid _ _ []
              (empty_summary_of (length (extract_skills text))) V)
    as [s [L [T S]]].
  exists s; split; [exact L|]. split; [exact T | exact S].
Qed.

End ExtractorMore.

(* ================================================================== *)
(** ** Further properties of the experience detector *)
(* ================================================================== *)

Module ExperienceMore.
Import Py PyFacts Re ReTerms ReFacts ExperienceDetector ExperienceTerms.
Import ExperienceProps.

#[local] Open Scope string_scope.
#[local] Open Scope list_scope.

(** *** Pieces of a text *)

Lemma infix_refl (s : str) : infix s s.
Proof. exists [], []; rewrite app_nil_r; reflexivity. Qed.

Lemma infix_trans (a b c : str) : infix a b -> infix b c -> infix a c.
Proof.
  intros [p [q E]] [p' [q' E']]; subst.
  exists (p' ++ p), (q ++ q'); rewrite <- !app_assoc; reflexivity.
Qed.

Lemma infix_skipn (n : nat) (s : str) : infix (skipn n s) s.
Proof.
  exists (firstn n s), []; rewrite app_nil_r, firstn_skipn; reflexivity.
Qed.

Lemma infix_slice (a b : nat) (s : str) : infix (slice a b s) s.
Proof.
  unfold slice; apply (infix_trans _ (skipn a s)); [|apply infix_skipn].
  apply infix_firstn, suffix_refl.
Qed.

Lemma infix_lstrip (s : str) : infix (lstrip s) s.
Proof.
  induction s as [|x s IH]; simpl; [apply infix_nil|].
  destruct (is_space x); [|apply infix_refl].
  destruct IH as [p [q E]]; exists (x :: p), q; simpl; rewrite <- E.
  reflexivity.
Qed.

Lemma infix_rev (a b : str) : infix a b -> infix (rev a) (rev b).
Proof.
  intros [p [q E]]; subst; exists (rev q), (rev p).
  rewrite !rev_app_distr, <- app_assoc; reflexivity.
Qed.

Lemma infix_strip (s : str) : infix (strip s) s.
Proof.
  unfold strip, rstrip.
  apply (infix_trans _ (lstrip s)); [|apply infix_lstrip].
  rewrite <- (rev_involutive (lstrip s)) at 2.
  apply infix_rev, infix_lstrip.
Qed.

(** Whatever the matches are, the pieces [re.split] returns are pieces
    of the subject. *)
Lemma split_at_infix (ms : list rmatch_obj) :
  forall (pos : nat) (s : str), Forall (fun piece => infix piece s)
                                       (split_at ms pos s).
Proof.
  induction ms as [|m ms IH]; intros pos s; simpl.
  - constructor; [apply infix_refl | constructor].
  - constructor; [apply infix_firstn, suffix_refl|].
    apply (Forall_impl _ (P := fun piece =>
                                 infix piece (skipn (m_end m - pos) s)));
      [|apply IH].
    intros piece H; exact (infix_trans _ _ _ H (infix_skipn _ _)).
Qed.

(** *** Sections and entries *)

Lemma find_section_infix (text : str) (headers : list regex) (section : str) :
  _find_section text headers = Some section -> infix section text.
Proof.
  unfold _find_section; generalize (lower text) as text_lower.
  intros text_lower; induction headers as [|h headers IH]; simpl;
    [discriminate|].
  destruct (search false (header_pattern h) text_lower) as [m|]; [|exact IH].
  intros H; inversion H; subst; apply infix_slice.
Qed.


(** Every entry is a stripped piece of its section, longer than 20
    characters. *)
Lemma split_into_entries_shape (section : str) :
  Forall (fun e => infix e section /\ 21 <= length e /\ strip e = e)
         (_split_into_entries section).
Proof.
  unfold _split_into_entries; apply Forall_forall; intros e H.
  apply in_map_iff in H; destruct H as [f [E H]]; subst e.
  apply filter_In in H; destruct H as [H K].
  apply andb_true_iff in K; destruct K as [_ K]; apply Nat.ltb_lt in K.
  split; [|split; [lia | apply strip_idem]].
  apply (infix_trans _ f); [apply infix_strip|].
  pose proof (split_at_infix (finditer false blank_line_run section) 0
                             section) as P.
  rewrite Forall_forall in P; exact (P _ H).
Qed.

Lemma split_chr_nonempty (sep : char) (s : str) : split_chr sep s <> [].
Proof.
  destruct s as [|x s]; simpl; [discriminate|].
  destruct (N.eqb x sep); [discriminate|].
  destruct (split_chr sep s); discriminate.
Qed.

(** An entry always parses, and the record keeps the entry as its
    description. *)
Lemma parse_experience_entry_total (clock : Clock) (entry : str) :
  exists w, _parse_experience_entry clock entry = Some w /\
            WorkExperience.description w = entry /\
            WorkExperience.title w <> [] /\
            WorkExperience.company w <> [] /\
            (WorkExperience.start_date w = None <->
             WorkExperience.end_date w = None) /\
            (WorkExperience.end_date w = None ->
             WorkExperience.is_current w = true) /\
            (WorkExperience.is_current w = true ->
             match WorkExperience.end_date w with
             | Some (ch :: e) => In (ch :: e) present_words
             | _ => True
             end).
Proof.
  unfold _parse_experience_entry.
  destruct (split_chr NL entry) as [|line0 lines] eqn:S;
    [exfalso; exact (split_chr_nonempty _ _ S)|].
  assert (D : forall x d, d <> [] -> or_default x d <> []).
  { intros [[|ch t]|] d Hd; simpl; auto; discriminate. }
  assert (P : (fst (fst (_extract_dates clock entry)) = None <->
               snd (fst (_extract_dates clock entry)) = None)).
  { unfold _extract_dates.
    destruct (search false year_range_pattern (lower entry)) as [m|].
    - destruct (mem (group 2 m) present_words); simpl; split; discriminate.
    - destruct (findall2 false month_year_pattern (lower entry))
        as [|[m0 y0] [|[m1 y1] l]]; simpl; split; auto; discriminate. }
  destruct (_extract_dates clock entry) as [[sd ed] d]; simpl in P.
  eexists; split; [reflexivity|].
  cbn [WorkExperience.description WorkExperience.title
       WorkExperience.company WorkExperience.start_date
       WorkExperience.end_date WorkExperience.is_current].
  split; [reflexivity|].
  split; [apply D; discriminate|].
  split; [apply D; discriminate|].
  split; [exact P|].
  split; [intros ->; reflexivity|].
  destruct ed as [[|ch e]|]; auto.
  intros M; exact (proj1 (mem_In _ _) M).
Qed.





(** Every work experience has a title and a company (a placeholder at
    least); it has a start date exactly when it has an end date; without
    dates it is current; and when it is current its end date, if any, is
    one of [present], [current], [now]. *)
Theorem work_experiences_well_formed (clock : Clock) (text : str)
        (required_skills : option (list str)) :
  Forall (fun w =>
            WorkExperience.title w <> [] /\
            WorkExperience.company w <> [] /\
            (WorkExperience.start_date w = None <->
             WorkExperience.end_date w = None) /\
            (WorkExperience.end_date w = None ->
             WorkExperience.is_current w = true) /\
            (WorkExperience.is_current w = true ->
             match WorkExperience.end_date w with
             | Some (ch :: e) => In (ch :: e) present_words
             | _ => True
             end))
         (work_experiences
            (analyze_experience clock text required_skills)).
Proof.
  destruct (analyze_fields clock text required_skills) as [W _].
  cbv zeta in W; rewrite W; unfold _extract_work_experiences.
  apply keep_some_Forall; intros e w H.
  destruct (parse_experience_entry_total clock e) as [w' [E [_ R]]].
  rewrite E in H; inversion H; subst; exact R.
Qed.

(** *** Totals *)

Lemma sum_at_least_length {A : Type} (d : A -> Z) (l : list A) :
  Forall (fun x => (1 <= d x)%Z) l ->
  (Z.of_nat (length l) <= sum (map d l))%Z.
Proof.
  induction 1 as [|x l Hx Hl IH]; [reflexivity|].
  simpl map; rewrite sum_cons; simpl length; lia.
Qed.

(** The total is at least one month per work experience; it is zero
    only when there is none. *)
Theorem total_months_at_least_entries (clock : Clock) (text : str)
        (required_skills : option (list str)) :
  let a := analyze_experience clock text required_skills in
  (Z.of_nat (length (work_experiences a)) <= total_experience_months a)%Z /\
  (total_experience_months a = 0%Z <-> work_experiences a = []).
Proof.
  destruct (analyze_fields clock text required_skills) as [W [_ [T _]]].
  cbv zeta in *; rewrite W, T.
  pose proof (sum_at_least_length WorkExperience.duration_months _
                (work_experiences_floor clock text)) as L.
  split; [exact L|].
  split.
  - intros Z0; rewrite Z0 in L.
    destruct (_extract_work_experiences clock text); [reflexivity|].
    simpl in L; lia.
  - intros ->; reflexivity.
Qed.

(** *** Trajectory *)

Lemma hd_rev {A : Type} (d : A) (l : list A) : hd d (rev l) = last l d.
Proof.
  induction l as [|x l IH]; [reflexivity|].
  simpl rev; destruct l as [|y l]; [reflexivity|].
  change (last (x :: y :: l) d) with (last (y :: l) d).
  rewrite <- IH; simpl rev.
  destruct (rev l ++ [y]) eqn:E; [|reflexivity].
  destruct (rev l); discriminate.
Qed.

Lemma last_rev {A : Type} (d : A) (l : list A) : last (rev l) d = hd d l.
Proof.
  rewrite <- (rev_involutive l) at 2; symmetry; apply hd_rev.
Qed.

Lemma forallb_rev {A : Type} (f : A -> bool) (l : list A) :
  forallb f (rev l) = forallb f l.
Proof.
  induction l as [|x l IH]; [reflexivity|].
  simpl; rewrite forallb_app, IH; simpl.
  rewrite andb_true_r; apply andb_comm.
Qed.

(** Reading the work history in the other order turns an ascending
    trajectory into a descending one and back, and leaves every other
    trajectory as it is. *)
Theorem trajectory_of_reversed (experiences : list WorkExperience.t) :
  _analyze_trajectory (rev experiences)
  = opposite_trajectory (_analyze_trajectory experiences).
Proof.
  unfold _analyze_trajectory; rewrite length_rev.
  destruct (Nat.ltb (length experiences) 2); [reflexivity|].
  rewrite map_rev, forallb_rev, hd_rev, last_rev.
  set (progression := map _ experiences).
  destruct (forallb (fun b => b) progression); [reflexivity|].
  destruct (hd false progression), (last progression false); reflexivity.
Qed.

(** *** Projects *)

(** Joining what [split] returned gives the string back. *)
Lemma join_split_chr (sep : char) (s : str) :
  join [sep] (split_chr sep s) = s.
Proof.
  induction s as [|x s IH]; [reflexivity|].
  simpl split_chr.
  destruct (N.eqb x sep) eqn:E.
  - apply N.eqb_eq in E; subst x.
    destruct (split_chr sep s) as [|y ys] eqn:S;
      [exfalso; exact (split_chr_nonempty _ _ S)|].
    change (join [sep] ([] :: y :: ys)) with (sep :: join [sep] (y :: ys)).
    rewrite IH; reflexivity.
  - destruct (split_chr sep s) as [|y ys] eqn:S;
      [exfalso; exact (split_chr_nonempty _ _ S)|].
    destruct ys as [|z zs]; simpl in *; rewrite <- IH; reflexivity.
Qed.

(** The first line and the remaining lines are pieces of the entry. *)
Lemma split_chr_pieces (sep : char) (s line0 : str) (lines : list str) :
  split_chr sep s = line0 :: lines ->
  infix line0 s /\ infix (join [sep] lines) s.
Proof.
  intros S; pose proof (join_split_chr sep s) as J; rewrite S in J.
  destruct lines as [|l1 lines].
  - simpl in J; subst; split; [apply infix_refl | apply infix_nil].
  - change (join [sep] (line0 :: l1 :: lines))
      with (line0 ++ [sep] ++ join [sep] (l1 :: lines)) in J.
    split.
    + exists [], ([sep] ++ join [sep] (l1 :: lines)); symmetry; exact J.
    + exists (line0 ++ [sep]), []; rewrite app_nil_r, <- app_assoc.
      symmetry; exact J.
Qed.

Lemma set_of_In (l : list str) (x : str) :
  In x (SkillDatabase.set_of l) -> In x l.
Proof.
  induction l as [|y l IH]; simpl; [tauto|].
  intros [E | I]; [left; exact E|].
  apply filter_In in I; right; apply IH; tauto.
Qed.

Lemma set_of_NoDup (l : list str) : NoDup (SkillDatabase.set_of l).
Proof.
  induction l as [|y l IH]; simpl; constructor.
  - intros I; apply filter_In in I; destruct I as [_ N].
    rewrite str_eqb_refl in N; discriminate.
  - apply NoDup_filter, IH.
Qed.

Lemma normalize_alias_key (alias : str) :
  In alias (map fst SkillDatabase._aliases) ->
  In (SkillDatabase.normalize alias) (map snd SkillDatabase.SKILL_ALIASES).
Proof.
  intros I.
  assert (C : forallb (fun k => mem (SkillDatabase.normalize k)
                                    (map snd SkillDatabase.SKILL_ALIASES))
                      (map fst SkillDatabase._aliases) = true)
    by (vm_compute; reflexivity).
  rewrite forallb_forall in C; apply mem_In, C, I.
Qed.

Lemma parse_project_entry_total (entry : str) :
  exists p, _parse_project_entry entry = Some p /\
            length (Project.name p) <= 100 /\
            infix (Project.name p) entry /\
            infix (Project.description p) entry /\
            strip (Project.description p) = Project.description p /\
            NoDup (Project.technologies p) /\
            Forall (fun t => In t (map snd SkillDatabase.SKILL_ALIASES))
                   (Project.technologies p).
Proof.
  unfold _parse_project_entry.
  destruct (split_chr NL entry) as [|line0 lines] eqn:S;
    [exfalso; exact (split_chr_nonempty _ _ S)|].
  destruct (split_chr_pieces _ _ _ _ S) as [I0 I1].
  eexists; split; [reflexivity|].
  cbn [Project.name Project.description Project.technologies].
  split; [apply firstn_le_length|].
  split.
  { apply (infix_trans _ line0); [|exact I0].
    apply (infix_trans _ (strip line0)); [|apply infix_strip].
    apply infix_firstn, suffix_refl. }
  split; [exact (infix_trans _ _ _ (infix_strip _) I1)|].
  split; [apply strip_idem|].
  split; [apply set_of_NoDup|].
  apply Forall_forall; intros t I; apply set_of_In in I.
  apply in_map_iff in I; destruct I as [alias [E I]]; subst t.
  apply filter_In in I; apply normalize_alias_key; tauto.
Qed.

(** Every project has a name of at most 100 characters; its name and
    its description are pieces of the resume text; and its technologies
    are canonical names of aliases, each listed once. *)
Theorem projects_well_formed (clock : Clock) (text : str)
        (required_skills : option (list str)) :
  Forall (fun p =>
            length (Project.name p) <= 100 /\
            infix (Project.name p) text /\
            infix (Project.description p) text /\
            strip (Project.description p) = Project.description p /\
            NoDup (Project.technologies p) /\
            Forall (fun t => In t (map snd SkillDatabase.SKILL_ALIASES))
                   (Project.technologies p))
         (projects (analyze_experience clock text required_skills)).
Proof.
  destruct (analyze_fields clock text required_skills) as [_ [P _]].
  cbv zeta in P; rewrite P; unfold _extract_projects.
  destruct (_find_section text PROJECT_HEADERS) as [[|ch s]|] eqn:F;
    try constructor.
  pose proof (find_section_infix _ _ _ F) as IS.
  pose proof (split_into_entries_shape (ch :: s)) as SH.
  induction (_split_into_entries (ch :: s)) as [|e es IH]; simpl;
    [constructor|].
  inversion SH as [|? ? [Ie _] SH']; subst.
  destruct (parse_project_entry_total e) as [p [E [L [N [D R]]]]].
  rewrite E; constructor; [|exact (IH SH')].
  assert (T : infix e text) by exact (infix_trans _ _ _ Ie IS).
  split; [exact L|].
  split; [exact (infix_trans _ _ _ N T)|].
  split; [exact (infix_trans _ _ _ D T) | exact R].
Qed.

(** *** Headers *)

Lemma char_lower_newline (ch : char) : char_lower ch = NL -> ch = NL.
Proof.
  unfold char_lower, NL.
  destruct (is_upper ch) eqn:U; [|auto].
  apply in_range_bounds in U; lia.
Qed.

Lemma rmatch_first_char_differs {A : Type} (ch x : char) (r : regex)
      (prev : option char) (pos : nat) (s : str) (k : mstate -> option A) :
  N.eqb ch x = false ->
  rmatch false (Seq (Chr ch) r) (MState prev pos (x :: s) []) k = None.
Proof. intros E; simpl; unfold chr_eq; rewrite E; reflexivity. Qed.

Lemma header_search_needs_newline (header : regex) :
  forall (s : str) (prev : option char) (pos : nat),
    ~ In NL s ->
    search_from false (header_pattern header) prev pos s = None.
Proof.
  induction s as [|x s IH]; intros prev pos H; simpl.
  - reflexivity.
  - assert (M : match_here false (header_pattern header) prev pos (x :: s)
                = None).
    { unfold match_here, header_pattern.
      change (SeqL [Chr NL; Sp0; Grp 1 header; Sp0;
                    Cls [COne (c ":"); COne NL]])
        with (Seq (Chr NL) (SeqL [Sp0; Grp 1 header; Sp0;
                                  Cls [COne (c ":"); COne NL]])).
      rewrite rmatch_first_char_differs; [reflexivity|].
      apply N.eqb_neq; intros E; apply H; left; symmetry; exact E. }
    rewrite M; apply IH; intros I; apply H; right; exact I.
Qed.

(** A header is recognised only after a line break: in a text without a
    line break no section is found, whatever the headers, so the whole
    text is the experience section and there are no projects. *)
Theorem find_section_needs_newline (clock : Clock) (text : str)
        (headers : list regex) (required_skills : option (list str)) :
  ~ In NL text ->
  _find_section text headers = None /\
  experience_section text = text /\
  projects (analyze_experience clock text required_skills) = [].
Proof.
  intros H.
  assert (L : ~ In NL (lower text)).
  { intros I; apply in_map_iff in I; destruct I as [ch [E I]].
    apply char_lower_newline in E; subst; exact (H I). }
  assert (F : forall hs, _find_section text hs = None).
  { intros hs; unfold _find_section.
    induction hs as [|h hs IH]; simpl; [reflexivity|].
    unfold search; rewrite (header_search_needs_newline h _ _ _ L).
    exact IH. }
  split; [apply F|].
  split; [unfold experience_section; rewrite F; reflexivity|].
  destruct (analyze_fields clock text required_skills) as [_ [P _]].
  cbv zeta in P; rewrite P; unfold _extract_projects; rewrite F.
  reflexivity.
Qed.

Lemma no_newline_check (s : str) :
  forallb (fun ch => negb (N.eqb ch NL)) s = true -> ~ In NL s.
Proof.
  intros C I; rewrite forallb_forall in C; specialize (C _ I).
  rewrite N.eqb_refl in C; discriminate.
Qed.

Lemma find_section_needs_newline_witness :
  ~ In NL (py "Experience: Software Engineer at Acme 2019 - 2021") /\
  _find_section (py "Experience: Software Engineer at Acme 2019 - 2021")
                EXPERIENCE_HEADERS = None.
Proof.
  assert (H : ~ In NL (py "Experience: Software Engineer at Acme 2019 - 2021")).
  { apply no_newline_check; vm_compute; reflexivity. }
  split; [exact H|].
  exact (proj1 (find_section_needs_newline clock_2026_11 _
                  EXPERIENCE_HEADERS None H)).
Defined.

End ExperienceMore.

(* ================================================================== *)
(** ** Properties of the document processor *)
(* ================================================================== *)

Module DocumentProcessorProps.
Import Py PyFacts DocumentProcessor ProcessorTerms.

#[local] Open Scope string_scope.
#[local] Open Scope list_scope.

(** *** Extensions *)

Lemma rfind_chr_map (f : char -> char) (ch : char) (s : str) :
  (forall x, N.eqb (f x) ch = N.eqb x ch) ->
  rfind_chr ch (map f s) = rfind_chr ch s.
Proof.
  intros H; induction s as [|x s IH]; simpl; [reflexivity|].
  rewrite IH, H; reflexivity.
Qed.

Lemma rfind_chr_absent (ch : char) (s : str) :
  ~ In ch s -> rfind_chr ch s = (-1)%Z.
Proof.
  induction s as [|x s IH]; simpl; intros H; [reflexivity|].
  rewrite IH by (intros I; apply H; right; exact I); simpl.
  destruct (N.eqb x ch) eqn:E; [|reflexivity].
  apply N.eqb_eq in E; exfalso; apply H; left; exact E.
Qed.

Lemma rfind_chr_lower_bound (ch : char) (s : str) :
  (-1 <= rfind_chr ch s)%Z.
Proof.
  induction s as [|x s IH]; simpl; [lia|].
  destruct (Z.eqb (rfind_chr ch s) (-1)); [destruct (N.eqb x ch)|]; lia.
Qed.

(** Lower-casing neither makes nor unmakes a dot or a slash. *)
Lemma char_lower_keeps (ch x : char) :
  ch = DOT \/ ch = SLASH -> N.eqb (char_lower x) ch = N.eqb x ch.
Proof.
  intros H.
  assert (C : forall y, eqb (N.eqb (char_lower y) DOT) (N.eqb y DOT)
                        && eqb (N.eqb (char_lower y) SLASH) (N.eqb y SLASH)
                        = true).
  { apply char_cases; [vm_compute; reflexivity|].
    intros y Hy; rewrite (char_lower_big y Hy), !eqb_reflx; reflexivity. }
  specialize (C x); apply andb_true_iff in C; destruct C as [C1 C2].
  destruct H; subst ch; apply eqb_prop; assumption.
Qed.

Lemma slice_map (f : char -> char) (a b : nat) (s : str) :
  slice a b (map f s) = map f (slice a b s).
Proof. unfold slice; rewrite skipn_map, firstn_map; reflexivity. Qed.

Lemma existsb_not_dot_lower (s : str) :
  existsb (fun ch => negb (N.eqb ch DOT)) (lower s)
  = existsb (fun ch => negb (N.eqb ch DOT)) s.
Proof.
  unfold lower; induction s as [|x s IH]; simpl; [reflexivity|].
  rewrite IH, (char_lower_keeps DOT x) by (left; reflexivity); reflexivity.
Qed.

Lemma splitext_lower (p : str) :
  splitext (lower p) = (lower (fst (splitext p)), lower (snd (splitext p))).
Proof.
  unfold splitext, lower.
  rewrite !rfind_chr_map by (intros x; apply char_lower_keeps; auto).
  destruct (Z.ltb (rfind_chr SLASH p) (rfind_chr DOT p)); [|reflexivity].
  rewrite slice_map.
  pose proof (existsb_not_dot_lower
                (slice (Z.to_nat (rfind_chr SLASH p + 1))
                       (Z.to_nat (rfind_chr DOT p)) p)) as E.
  unfold lower in E; rewrite E; clear E.
  set (b := existsb _ _); destruct b; cbn [fst snd]; [|reflexivity].
  rewrite firstn_map, skipn_map; reflexivity.
Qed.

Lemma type_of_extension_supported (ext : str) :
  is_unknown (type_of_extension ext) = negb (mem ext SUPPORTED_EXTENSIONS).
Proof.
  unfold type_of_extension, SUPPORTED_EXTENSIONS, mem.
  cbn [map existsb].
  destruct (str_eqb ext (py ".pdf")), (str_eqb ext (py ".docx")),
    (str_eqb ext (py ".doc")), (str_eqb ext (py ".txt")); reflexivity.
Qed.

(** Type detection ignores the case of the file name; it answers a
    known type exactly for the extensions of [SUPPORTED_EXTENSIONS]; and
    a name without a dot has an unknown type. *)
Theorem extension_detection (name : str) :
  _detect_type_from_extension (lower name) = _detect_type_from_extension name
  /\
  is_unknown (_detect_type_from_extension name)
  = negb (mem (lower (snd (splitext name))) SUPPORTED_EXTENSIONS)
  /\
  (~ In DOT name -> _detect_type_from_extension name = UNKNOWN).
Proof.
  split; [|split].
  - unfold _detect_type_from_extension.
    rewrite splitext_lower; cbn [snd]; rewrite lower_idem; reflexivity.
  - apply (type_of_extension_supported (lower (snd (splitext name)))).
  - intros H; unfold _detect_type_from_extension, splitext.
    rewrite (rfind_chr_absent DOT name H).
    pose proof (rfind_chr_lower_bound SLASH name) as B.
    replace (Z.ltb (rfind_chr SLASH name) (-1)) with false
      by (symmetry; apply Z.ltb_ge; lia).
    reflexivity.
Qed.

(** *** Uploads *)

Lemma parse_result_shape (t : DocumentType) (name : str) (x : parsed)
      (r : ParseResult) :
  parse_result t name x = r ->
  document_type r = t /\ filename r = Some name /\
  (success r = true -> error r = None) /\
  (success r = false -> text r = [] /\ error r <> None).
Proof.
  intros <-; destruct x; simpl; repeat split; try discriminate; auto.
Qed.

Section Parsers.

Variable parse_pdf_from_bytes parse_docx_from_bytes decode_utf8
  : bytes -> parsed.
Variable parse_pdf parse_docx read_text : str -> parsed.

(** Whatever [process_bytes] returns is a result for a known type: the
    type the extension gives, or else PDF or DOCX read off the first
    bytes; it carries the file name; a success has no error, a failure
    has an error and no text.  The branch that reports an undetermined
    type is never taken. *)
Theorem process_bytes_result (content : bytes) (name : str)
        (r : ParseResult) :
  process_bytes parse_pdf_from_bytes parse_docx_from_bytes decode_utf8
                content name = Returns r ->
  document_type r = upload_type content name /\
  document_type r <> UNKNOWN /\
  filename r = Some name /\
  (success r = true -> error r = None) /\
  (success r = false -> text r = [] /\ error r <> None).
Proof.
  unfold process_bytes, upload_type, _detect_type_from_content.
  assert (K : forall t x,
             t <> UNKNOWN ->
             Returns (parse_result t name x) = Returns r ->
             document_type r = t /\ document_type r <> UNKNOWN /\
             filename r = Some name /\
             (success r = true -> error r = None) /\
             (success r = false -> text r = [] /\ error r <> None)).
  { intros t x Ht H; injection H as E.
    destruct (parse_result_shape t name x r E) as [A [B [C D]]].
    split; [exact A|]; split; [rewrite A; exact Ht|].
    split; [exact B|]; split; [exact C | exact D]. }
  destruct (_detect_type_from_extension name) eqn:T; cbn [is_unknown];
    try (apply K; discriminate).
  destruct (starts_with (py "%PDF") content);
    [|destruct (starts_with (py "PK") content)]; cbn [is_unknown];
    try (apply K; discriminate).
  discriminate.
Qed.

(** [process_bytes] raises [NameError] exactly when the extension is
    not a supported one and the content starts with neither [%PDF] nor
    [PK]: a plain-text upload without a [.txt] name is not decoded. *)
Theorem process_bytes_name_error (content : bytes) (name : str) :
  process_bytes parse_pdf_from_bytes parse_docx_from_bytes decode_utf8
                content name = RaisesNameError
  <->
  _detect_type_from_extension name = UNKNOWN /\
  starts_with (py "%PDF") content = false /\
  starts_with (py "PK") content = false.
Proof.
  unfold process_bytes, _detect_type_from_content.
  destruct (_detect_type_from_extension name) eqn:T; cbn [is_unknown];
    try (split; [discriminate | intros [H _]; discriminate]).
  destruct (starts_with (py "%PDF") content);
    [|destruct (starts_with (py "PK") content)]; cbn [is_unknown];
    split; try discriminate; try tauto;
    intros [_ [A B]]; discriminate.
Qed.

(** [process_file] always returns a result: for the file's base name
    and the type of its extension; an unknown type is a failure that
    names the extension; a success has no error, a failure has an error
    and no text. *)
Theorem process_file_result (file_path : str) :
  let r := process_file parse_pdf parse_docx read_text file_path in
  filename r = Some (basename file_path) /\
  document_type r = _detect_type_from_extension file_path /\
  (document_type r = UNKNOWN ->
   success r = false /\
   error r = Some (py "Unsupported file type: "
                   ++ snd (splitext file_path))) /\
  (success r = true -> error r = None) /\
  (success r = false -> text r = [] /\ error r <> None).
Proof.
  unfold process_file.
  assert (K : forall t x,
             t <> UNKNOWN ->
             let r := parse_result t (basename file_path) x in
             filename r = Some (basename file_path) /\
             document_type r = t /\
             (document_type r = UNKNOWN ->
              success r = false /\
              error r = Some (py "Unsupported file type: "
                              ++ snd (splitext file_path))) /\
             (success r = true -> error r = None) /\
             (success r = false -> text r = [] /\ error r <> None)).
  { intros t x Ht r.
    destruct (parse_result_shape t _ x r eq_refl) as [A [B [C D]]].
    rewrite A; repeat split; try tauto; contradiction. }
  destruct (_detect_type_from_extension file_path) eqn:T; cbn [is_unknown];
    try (apply K; discriminate).
  cbv zeta; simpl; repeat split; try discriminate; auto.
Qed.

End Parsers.

Lemma process_bytes_result_witness :
  process_bytes (fun _ => Failed (py "Failed to parse PDF from bytes: x"))
                (fun _ => Text []) (fun _ => Text [])
                (py "%PDF-1.7") (py "upload")
  = Returns (mkParseResult false [] PDF
               (Some (py "Failed to parse PDF from bytes: x"))
               (Some (py "upload"))) /\
  upload_type (py "%PDF-1.7") (py "upload") = PDF.
Proof.
  assert (H : process_bytes
                (fun _ => Failed (py "Failed to parse PDF from bytes: x"))
                (fun _ => Text []) (fun _ => Text [])
                (py "%PDF-1.7") (py "upload")
              = Returns (mkParseResult false [] PDF
                           (Some (py "Failed to parse PDF from bytes: x"))
                           (Some (py "upload"))))
    by (vm_compute; reflexivity).
  split; [exact H|].
  symmetry; exact (proj1 (process_bytes_result _ _ _ _ _ _ H)).
Defined.

End DocumentProcessorProps.

(* ================================================================== *)
(** ** Properties of the agent *)
(* ================================================================== *)

Module AgentProps.
Import Py PyFacts ReTerms Agent.

#[local] Open Scope list_scope.

Lemma find_chr_first (ch : char) (pre rest : str) :
  ~ In ch pre ->
  find_chr ch (pre ++ ch :: rest) = Z.of_nat (length pre).
Proof.
  induction pre as [|x pre IH]; intros H.
  - simpl; rewrite N.eqb_refl; reflexivity.
  - simpl app; simpl find_chr.
    destruct (N.eqb x ch) eqn:E;
      [apply N.eqb_eq in E; exfalso; apply H; left; exact E|].
    rewrite IH by (intros I; apply H; right; exact I).
    replace (Z.eqb (Z.of_nat (length pre)) (-1)) with false
      by (symmetry; apply Z.eqb_neq; lia).
    simpl length; lia.
Qed.

Lemma rfind_chr_none (ch : char) (s : str) :
  ~ In ch s -> rfind_chr ch s = (-1)%Z.
Proof.
  induction s as [|x s IH]; simpl; intros H; [reflexivity|].
  rewrite IH by (intros I; apply H; right; exact I); simpl.
  destruct (N.eqb x ch) eqn:E; [|reflexivity].
  apply N.eqb_eq in E; exfalso; apply H; left; exact E.
Qed.

Lemma rfind_chr_last (ch : char) (a post : str) :
  ~ In ch post ->
  rfind_chr ch (a ++ ch :: post) = Z.of_nat (length a).
Proof.
  intros H; induction a as [|x a IH].
  - simpl; rewrite (rfind_chr_none ch post H); simpl.
    rewrite N.eqb_refl; reflexivity.
  - simpl app; simpl rfind_chr; rewrite IH.
    replace (Z.eqb (Z.of_nat (length a)) (-1)) with false
      by (symmetry; apply Z.eqb_neq; lia).
    simpl length; lia.
Qed.

Lemma slice_z_middle (a b c : str) :
  slice_z (Z.of_nat (length a)) (Z.of_nat (length a + length b))
          (a ++ b ++ c) = b.
Proof.
  unfold slice_z, slice_bound; rewrite !length_app.
  replace (Z.ltb (Z.of_nat (length a)) 0) with false
    by (symmetry; apply Z.ltb_ge; lia).
  replace (Z.ltb (Z.of_nat (length a + length b)) 0) with false
    by (symmetry; apply Z.ltb_ge; lia).
  rewrite !Z.min_l by lia.
  rewrite Nat2Z.id.
  replace (Z.to_nat (Z.of_nat (length a + length b) - Z.of_nat (length a)))
    with (length b) by lia.
  rewrite skipn_app, skipn_all, Nat.sub_diag; simpl skipn; simpl app.
  rewrite firstn_app, firstn_all, Nat.sub_diag; simpl firstn.
  apply app_nil_r.
Qed.

Lemma find_chr_none (ch : char) (s : str) :
  ~ In ch s -> find_chr ch s = (-1)%Z.
Proof.
  induction s as [|x s IH]; simpl; intros H; [reflexivity|].
  destruct (N.eqb x ch) eqn:E;
    [apply N.eqb_eq in E; exfalso; apply H; left; exact E|].
  rewrite IH by (intros I; apply H; right; exact I); reflexivity.
Qed.

Lemma rfind_chr_bounds (ch : char) (s : str) :
  (-1 <= rfind_chr ch s < Z.of_nat (length s))%Z.
Proof.
  induction s as [|x s IH]; [simpl; lia|].
  simpl rfind_chr; simpl length.
  destruct (Z.eqb (rfind_chr ch s) (-1)); [destruct (N.eqb x ch)|]; lia.
Qed.

Lemma rfind_chr_at_end (ch : char) (s : str) :
  s <> [] -> rfind_chr ch s = (Z.of_nat (length s) - 1)%Z ->
  exists a, s = a ++ [ch].
Proof.
  induction s as [|x s IH]; intros N H; [contradiction|].
  simpl rfind_chr in H; simpl length in H.
  destruct (Z.eqb (rfind_chr ch s) (-1)) eqn:E.
  - destruct (N.eqb x ch) eqn:X; [|lia].
    apply N.eqb_eq in X; subst x.
    destruct s; [exists []; reflexivity | simpl length in H; lia].
  - apply Z.eqb_neq in E.
    destruct s as [|y s]; [simpl in E; lia|].
    destruct IH as [a K]; [discriminate | lia|].
    exists (x :: a); rewrite K; reflexivity.
Qed.

(** The text handed to the JSON decoder is a piece of the stripped
    answer; when the answer has an opening brace before its last closing
    brace, it runs from the first opening brace to the last closing
    brace; when the answer has no closing brace, it is empty; and when
    the answer has no opening brace, it is empty or the closing brace
    the answer ends with. *)
Theorem json_text_spans_braces (response_text : str) :
  infix (json_text response_text) (strip response_text) /\
  (forall pre mid post,
      strip response_text = pre ++ [LBRACE] ++ mid ++ [RBRACE] ++ post ->
      ~ In LBRACE pre -> ~ In RBRACE post ->
      json_text response_text = [LBRACE] ++ mid ++ [RBRACE]) /\
  (~ In RBRACE (strip response_text) -> json_text response_text = []) /\
  (~ In LBRACE (strip response_text) ->
   json_text response_text = [] \/
   (json_text response_text = [RBRACE] /\
    exists a, strip response_text = a ++ [RBRACE])).
Proof.
  unfold json_text; set (content := strip response_text).
  split; [|split; [|split]]; cycle 3.
  { intros H; rewrite (find_chr_none LBRACE content H).
    pose proof (rfind_chr_bounds RBRACE content) as B.
    unfold slice_z, slice_bound.
    change (Z.ltb (-1) 0) with true; cbv iota.
    replace (Z.ltb (rfind_chr RBRACE content + 1) 0) with false
      by (symmetry; apply Z.ltb_ge; lia).
    rewrite (Z.min_l (rfind_chr RBRACE content + 1)) by lia.
    destruct (Z.eq_dec (rfind_chr RBRACE content + 1)
                       (Z.of_nat (length content))) as [E | E].
    - destruct content as [|x0 content0] eqn:C; [left; reflexivity|].
      rewrite <- C in *.
      assert (L : (1 <= Z.of_nat (length content))%Z)
        by (rewrite C; simpl length; lia).
      destruct (rfind_chr_at_end RBRACE content) as [a K];
        [rewrite C; discriminate | lia|].
      right; split; [|exists a; exact K].
      rewrite E, Z.max_r by lia.
      replace (Z.to_nat (Z.of_nat (length content)
                         - (-1 + Z.of_nat (length content)))) with 1 by lia.
      rewrite K at 2; rewrite K in L |- *.
      rewrite length_app in *; simpl length in *.
      replace (Z.to_nat (-1 + Z.of_nat (length a + 1))) with (length a)
        by lia.
      rewrite skipn_app, skipn_all, Nat.sub_diag; reflexivity.
    - left.
      replace (Z.to_nat (rfind_chr RBRACE content + 1
                         - Z.max 0 (-1 + Z.of_nat (length content))))
        with 0 by lia.
      reflexivity. }
  - unfold slice_z.
    destruct (ReFacts.infix_firstn
                (Z.to_nat
                   (slice_bound (rfind_chr RBRACE content + 1)
                                (Z.of_nat (length content))
                    - slice_bound (find_chr LBRACE content)
                                  (Z.of_nat (length content))))
                (skipn (Z.to_nat (slice_bound (find_chr LBRACE content)
                                              (Z.of_nat (length content))))
                       content)
                content) as [p [q E]].
    + exists (firstn (Z.to_nat (slice_bound (find_chr LBRACE content)
                                            (Z.of_nat (length content))))
                     content).
      symmetry; apply firstn_skipn.
    + exists p, q; exact E.
  - intros pre mid post E Hpre Hpost.
    rewrite E.
    change (pre ++ [LBRACE] ++ mid ++ [RBRACE] ++ post)
      with (pre ++ LBRACE :: (mid ++ RBRACE :: post)).
    rewrite (find_chr_first LBRACE pre _ Hpre).
    replace (pre ++ LBRACE :: (mid ++ RBRACE :: post))
      with ((pre ++ LBRACE :: mid) ++ RBRACE :: post)
      by (rewrite <- app_assoc; reflexivity).
    rewrite (rfind_chr_last RBRACE (pre ++ LBRACE :: mid) post Hpost).
    rewrite <- app_assoc, length_app; simpl app.
    replace (Z.of_nat (length pre + length (LBRACE :: mid)) + 1)%Z
      with (Z.of_nat (length pre + length (LBRACE :: mid ++ [RBRACE])))
      by (simpl length; rewrite length_app; simpl length; lia).
    replace (pre ++ LBRACE :: mid ++ RBRACE :: post)
      with (pre ++ (LBRACE :: mid ++ [RBRACE]) ++ post)
      by (simpl app; rewrite <- app_assoc; reflexivity).
    exact (slice_z_middle pre (LBRACE :: mid ++ [RBRACE]) post).
  - intros H; rewrite (rfind_chr_none RBRACE content H).
    unfold slice_z, slice_bound; simpl Z.add; simpl Z.ltb.
    replace (Z.min 0 (Z.of_nat (length content))) with 0%Z by lia.
    assert (B : (0 <= (if Z.ltb (find_chr LBRACE content) 0
                       then Z.max 0 (find_chr LBRACE content
                                     + Z.of_nat (length content))
                       else Z.min (find_chr LBRACE content)
                                  (Z.of_nat (length content))))%Z).
    { destruct (Z.ltb (find_chr LBRACE content) 0) eqn:L; [lia|].
      apply Z.ltb_ge in L; lia. }
    replace (Z.to_nat (0 - _)) with 0 by lia.
    reflexivity.
Qed.

End AgentProps.

(* ================================================================== *)
(** ** Runs of a character: [a{n,}] under [re.sub] and [re.split] *)
(* ================================================================== *)

Module RunFacts.
Import Py PyFacts Re ReTerms ReFacts RunTerms.

#[local] Open Scope list_scope.

(** *** Runs of one character *)

Lemma run_length_le (p : char -> bool) (s : str) : run_length p s <= length s.
Proof.
  induction s as [|x s IH]; simpl; [lia|].
  destruct (p x); simpl; lia.
Qed.

Lemma run_length_tail (p : char -> bool) (s : str) :
  match skipn (run_length p s) s with
  | [] => True
  | y :: _ => p y = false
  end.
Proof.
  induction s as [|x s IH]; simpl; [exact I|].
  destruct (p x) eqn:E; simpl; [exact IH | exact E].
Qed.

Lemma run_state_spec (n : nat) :
  forall st : mstate,
    n <= length (m_rest st) ->
    m_pos (run_state n st) = m_pos st + n /\
    m_rest (run_state n st) = skipn n (m_rest st) /\
    m_groups (run_state n st) = m_groups st.
Proof.
  induction n as [|n IH]; intros st H; simpl.
  - repeat split; lia.
  - destruct (m_rest st) as [|x xs] eqn:E; simpl in H; [lia|].
    destruct (IH (advance x xs st)) as [A [B C]]; [simpl; lia|].
    simpl in A, B, C; rewrite A, B, C; repeat split; lia.
Qed.

(** *** Scanning *)

Lemma scan_cons (ic : bool) (r : regex) (prev : option char) (pos : nat)
      (x : char) (rest : str) :
  scan ic r prev pos (x :: rest) 0
  = match match_here ic r prev pos (x :: rest) with
    | Some m => m :: scan ic r (Some x) (S pos) rest (m_end m - pos - 1)
    | None => scan ic r (Some x) (S pos) rest 0
    end.
Proof. reflexivity. Qed.

Lemma scan_nil (ic : bool) (r : regex) (prev : option char) (pos : nat) :
  scan ic r prev pos [] 0
  = match match_here ic r prev pos [] with
    | Some m => [m]
    | None => []
    end.
Proof. reflexivity. Qed.

(** The characters a match has covered are passed over. *)
Lemma scan_skip (ic : bool) (r : regex) :
  forall (rest : str) (prev : option char) (pos skip : nat),
    skip <= length rest ->
    exists prev',
      scan ic r prev pos rest skip
      = scan ic r prev' (pos + skip) (skipn skip rest) 0.
Proof.
  induction rest as [|x rest IH]; intros prev pos skip H.
  - simpl in H; replace skip with 0 by lia.
    exists prev; rewrite Nat.add_0_r; reflexivity.
  - destruct skip as [|skip].
    + exists prev; rewrite Nat.add_0_r; reflexivity.
    + simpl in H.
      destruct (IH (Some x) (S pos) skip) as [prev' E]; [lia|].
      exists prev'; simpl scan; simpl skipn.
      rewrite E, Nat.add_succ_r; reflexivity.
Qed.

Lemma sub_at_rebase (repl : str) (ms : list rmatch_obj) (pos : nat)
      (x : char) (rest : str) :
  Forall (fun m => S pos <= m_start m /\ S pos <= m_end m) ms ->
  sub_at repl ms pos (x :: rest) = x :: sub_at repl ms (S pos) rest.
Proof.
  intros H; destruct ms as [|m ms]; [reflexivity|].
  inversion H as [|? ? [A B] _]; subst.
  simpl sub_at.
  replace (m_start m - pos) with (S (m_start m - S pos)) by lia.
  replace (m_end m - pos) with (S (m_end m - S pos)) by lia.
  reflexivity.
Qed.

Lemma split_at_rebase (ms : list rmatch_obj) (pos : nat)
      (x : char) (rest : str) :
  Forall (fun m => S pos <= m_start m /\ S pos <= m_end m) ms ->
  exists first others,
    split_at ms (S pos) rest = first :: others /\
    split_at ms pos (x :: rest) = (x :: first) :: others.
Proof.
  intros H; destruct ms as [|m ms].
  - exists rest, []; split; reflexivity.
  - inversion H as [|? ? [A B] _]; subst.
    simpl split_at.
    replace (m_start m - pos) with (S (m_start m - S pos)) by lia.
    replace (m_end m - pos) with (S (m_end m - S pos)) by lia.
    eexists; eexists; split; reflexivity.
Qed.

(** *** The pattern [a{min,}] *)

Section Runs.

Variable a : regex.
Variable p : char -> bool.

Hypothesis atom :
  forall (st : mstate) (k : mstate -> option mstate),
    rmatch false a st k
    = match m_rest st with
      | x :: xs => if p x then k (advance x xs st) else None
      | [] => None
      end.

(** The greedy repetition takes the whole run. *)
Lemma star_takes_run (rest : str) :
  forall st : mstate,
    m_rest st = rest ->
    rmatch false (Star a) st Some
    = Some (run_state (run_length p rest) st).
Proof.
  induction rest as [|x xs IH]; intros st E;
    rewrite rmatch_star_unfold, atom, E.
  - reflexivity.
  - simpl run_length; destruct (p x); [|reflexivity].
    simpl m_pos.
    replace (Nat.ltb (m_pos st) (S (m_pos st))) with true
      by (symmetry; apply Nat.ltb_lt; lia).
    rewrite (IH (advance x xs st) eq_refl).
    simpl run_state; rewrite E; reflexivity.
Qed.

Lemma at_least_takes_run (min : nat) :
  forall (rest : str) (st : mstate),
    m_rest st = rest ->
    rmatch false (at_least min a) st Some
    = if Nat.leb min (run_length p rest)
      then Some (run_state (run_length p rest) st)
      else None.
Proof.
  induction min as [|min IH]; intros rest st E.
  - simpl at_least; simpl Nat.leb; apply star_takes_run, E.
  - simpl at_least.
    change (rmatch false (Seq a (at_least min a)) st Some)
      with (rmatch false a st
                   (fun st' => rmatch false (at_least min a) st' Some)).
    rewrite atom, E.
    destruct rest as [|x xs]; [reflexivity|].
    simpl run_length; destruct (p x); [|reflexivity].
    rewrite (IH xs (advance x xs st) eq_refl).
    simpl Nat.leb; simpl run_state; rewrite E; reflexivity.
Qed.

Lemma match_here_run (min : nat) (prev : option char) (pos : nat)
      (rest : str) :
  match_here false (at_least min a) prev pos rest
  = if Nat.leb min (run_length p rest)
    then Some (MatchObj pos (pos + run_length p rest)
                        (firstn (run_length p rest) rest) [])
    else None.
Proof.
  unfold match_here.
  rewrite (at_least_takes_run min rest (MState prev pos rest []) eq_refl).
  destruct (Nat.leb min (run_length p rest)); [|reflexivity].
  destruct (run_state_spec (run_length p rest) (MState prev pos rest []))
    as [A [B C]]; [simpl; apply run_length_le|].
  simpl in A, C; rewrite A, C.
  replace (pos + run_length p rest - pos) with (run_length p rest) by lia.
  reflexivity.
Qed.

Lemma scan_run_bounds (min : nat) :
  forall (rest : str) (prev : option char) (pos skip : nat),
    Forall (fun m => pos <= m_start m /\ pos <= m_end m)
           (scan false (at_least min a) prev pos rest skip).
Proof.
  assert (W : forall pos l,
             Forall (fun m : rmatch_obj =>
                       S pos <= m_start m /\ S pos <= m_end m) l ->
             Forall (fun m => pos <= m_start m /\ pos <= m_end m) l).
  { intros pos l; apply Forall_impl; intros m [A B]; split; lia. }
  assert (M : forall prev pos rest m,
             match_here false (at_least min a) prev pos rest = Some m ->
             pos <= m_start m /\ pos <= m_end m).
  { intros prev pos rest m H; rewrite match_here_run in H.
    destruct (Nat.leb min (run_length p rest)); [|discriminate].
    inversion H; subst; simpl; split; lia. }
  induction rest as [|x rest IH]; intros prev pos skip.
  - simpl; destruct skip; [|constructor].
    destruct (match_here false (at_least min a) prev pos []) eqn:E;
      [|constructor].
    constructor; [exact (M _ _ _ _ E) | constructor].
  - simpl; destruct skip; [|apply W, IH].
    destruct (match_here false (at_least min a) prev pos (x :: rest)) eqn:E;
      [|apply W, IH].
    constructor; [exact (M _ _ _ _ E) | apply W, IH].
Qed.

(** What [re.split] gives for [a+]: no piece holds a character of the
    class. *)
Lemma split_run_pieces (fuel : nat) :
  forall (rest : str) (prev : option char) (pos : nat),
    length rest <= fuel ->
    Forall (Forall (fun x => p x = false))
           (split_at (scan false (at_least 1 a) prev pos rest 0) pos rest).
Proof.
  induction fuel as [|fuel IH]; intros rest prev pos H.
  - destruct rest; [|simpl in H; lia].
    rewrite scan_nil, match_here_run; simpl.
    repeat constructor.
  - destruct rest as [|x rest].
    + rewrite scan_nil, match_here_run; simpl.
      repeat constructor.
    + simpl in H.
      rewrite scan_cons, match_here_run.
      simpl run_length; destruct (p x) eqn:E.
      * simpl Nat.leb; cbn [m_end m_start].
        replace (pos + S (run_length p rest) - pos - 1)
          with (run_length p rest) by lia.
        destruct (scan_skip false (at_least 1 a) rest (Some x) (S pos)
                            (run_length p rest) (run_length_le _ _))
          as [prev' K].
        rewrite K; simpl split_at.
        replace (pos - pos) with 0 by lia.
        replace (pos + S (run_length p rest) - pos)
          with (S (run_length p rest)) by lia.
        simpl firstn; simpl skipn.
        constructor; [constructor|].
        replace (pos + S (run_length p rest))
          with (S pos + run_length p rest) by lia.
        apply IH.
        pose proof (length_skipn (run_length p rest) rest); lia.
      * simpl Nat.leb.
        destruct (split_at_rebase
                    (scan false (at_least 1 a) (Some x) (S pos) rest 0)
                    pos x rest (scan_run_bounds 1 rest _ _ _))
          as [first [others [A B]]].
        rewrite B.
        pose proof (IH rest (Some x) (S pos) ltac:(lia)) as F.
        rewrite A in F; inversion F as [|? ? F1 F2]; subst.
        constructor; [constructor; assumption | exact F2].
Qed.

End Runs.

(** *** Squeezing *)

Lemma squeeze_span (c : char) (min : nat) (repl : str) (s : str) :
  forall run : nat,
    squeeze c min repl run s
    = flush c min repl (run + run_length (N.eqb c) s)
      ++ match skipn (run_length (N.eqb c) s) s with
         | [] => []
         | y :: t => y :: squeeze c min repl 0 t
         end.
Proof.
  induction s as [|x s IH]; intros run; simpl.
  - rewrite Nat.add_0_r, app_nil_r; reflexivity.
  - destruct (N.eqb c x); simpl.
    + rewrite IH, Nat.add_succ_r; reflexivity.
    + rewrite Nat.add_0_r; reflexivity.
Qed.

Lemma chr_atom (c : char) :
  forall (st : mstate) (k : mstate -> option mstate),
    rmatch false (Chr c) st k
    = match m_rest st with
      | x :: xs => if N.eqb c x then k (advance x xs st) else None
      | [] => None
      end.
Proof. reflexivity. Qed.

Lemma cls_atom (cs : list citem) :
  forall (st : mstate) (k : mstate -> option mstate),
    rmatch false (Cls cs) st k
    = match m_rest st with
      | x :: xs => if existsb (fun i => citem_has i x) cs
                   then k (advance x xs st) else None
      | [] => None
      end.
Proof.
  intros st k; simpl; destruct (m_rest st) as [|x xs]; [reflexivity|].
  unfold cls_has; simpl; rewrite orb_false_r; reflexivity.
Qed.

(** [re.sub] of [c{min,}] squeezes the runs of [c]. *)
Lemma sub_run (c : char) (min : nat) (repl : str) (fuel : nat) :
  forall (rest : str) (prev : option char) (pos : nat),
    length rest <= fuel ->
    sub_at repl (scan false (at_least (S min) (Chr c)) prev pos rest 0)
           pos rest
    = squeeze c (S min) repl 0 rest.
Proof.
  induction fuel as [|fuel IH]; intros rest prev pos H.
  - destruct rest; [|simpl in H; lia].
    rewrite scan_nil, (match_here_run _ _ (chr_atom c)); reflexivity.
  - destruct rest as [|x rest].
    + rewrite scan_nil, (match_here_run _ _ (chr_atom c)); reflexivity.
    + simpl in H.
      rewrite scan_cons, (match_here_run _ _ (chr_atom c)).
      rewrite (squeeze_span c (S min) repl (x :: rest) 0).
      simpl run_length; destruct (N.eqb c x) eqn:E.
      * apply N.eqb_eq in E; subst x.
        set (n := run_length (N.eqb c) rest).
        simpl skipn; simpl Nat.add.
        assert (T : match skipn n rest with
                    | [] => []
                    | y :: t => y :: squeeze c (S min) repl 0 t
                    end = squeeze c (S min) repl 0 (skipn n rest)).
        { pose proof (run_length_tail (N.eqb c) rest) as R; fold n in R.
          destruct (skipn n rest) as [|y t]; [reflexivity|].
          simpl; rewrite R; reflexivity. }
        destruct (Nat.leb (S min) (S n)) eqn:L.
        -- cbn [m_end m_start].
           replace (pos + S n - pos - 1) with n by lia.
           destruct (scan_skip false (at_least (S min) (Chr c)) rest
                               (Some c) (S pos) n (run_length_le _ _))
             as [prev' K].
           rewrite K; simpl sub_at.
           replace (pos - pos) with 0 by lia.
           replace (pos + S n - pos) with (S n) by lia.
           simpl firstn; simpl skipn; simpl app.
           replace (pos + S n) with (S pos + n) by lia.
           rewrite IH
             by (pose proof (length_skipn n rest); lia).
           unfold flush; rewrite L, T; reflexivity.
        -- rewrite (sub_at_rebase repl _ pos c rest
                                  (scan_run_bounds _ _ (chr_atom c) _ _ _ _ _)).
           rewrite IH by lia.
           rewrite (squeeze_span c (S min) repl rest 0); fold n.
           unfold flush; rewrite L; simpl Nat.add.
           apply Nat.leb_gt in L.
           replace (Nat.leb (S min) n) with false
             by (symmetry; apply Nat.leb_gt; lia).
           reflexivity.
      * simpl skipn; simpl Nat.add; simpl Nat.leb; cbv iota.
        rewrite (sub_at_rebase repl _ pos x rest
                               (scan_run_bounds _ _ (chr_atom c) _ _ _ _ _)).
        rewrite IH by lia.
        reflexivity.
Qed.

(** *** Strings without long runs *)

Lemma repeat_shift (c : char) (n : nat) (s : str) :
  repeat c n ++ c :: s = repeat c (S n) ++ s.
Proof.
  induction n as [|n IH]; simpl; [reflexivity|].
  rewrite IH; reflexivity.
Qed.

Lemma no_run_weaken (c : char) (n : nat) (s : str) :
  forall r r' : nat,
    r' <= r -> no_run c n r s = true -> no_run c n r' s = true.
Proof.
  induction s as [|x s IH]; intros r r' L H; simpl in *; [reflexivity|].
  destruct (N.eqb c x); [|exact H].
  apply andb_true_iff in H; destruct H as [A B].
  apply Nat.ltb_lt in A.
  apply andb_true_iff; split; [apply Nat.ltb_lt; lia|].
  apply (IH (S r)); [lia | exact B].
Qed.

(** A run of [j] characters [c], then [t], which does not go on with
    [c]. *)
Lemma no_run_repeat (c : char) (n : nat) (t : str) :
  match t with [] => True | y :: _ => N.eqb c y = false end ->
  forall j r : nat,
    no_run c n r (repeat c j ++ t)
    = (Nat.eqb j 0 || Nat.ltb (r + j) n) && no_run c n 0 t.
Proof.
  intros T; induction j as [|j IH]; intros r; simpl.
  - destruct t as [|y t]; [reflexivity|]; simpl; rewrite T; reflexivity.
  - rewrite N.eqb_refl, IH.
    destruct (no_run c n 0 t); [|rewrite !andb_false_r; reflexivity].
    rewrite !andb_true_r.
    destruct (Nat.ltb (S r) n) eqn:A, (Nat.ltb (S r + j) n) eqn:B,
             (Nat.ltb (r + S j) n) eqn:C, (Nat.eqb j 0) eqn:D;
      try reflexivity; exfalso;
      repeat match goal with
             | H : Nat.ltb _ _ = true |- _ => apply Nat.ltb_lt in H
             | H : Nat.ltb _ _ = false |- _ => apply Nat.ltb_ge in H
             | H : Nat.eqb _ _ = true |- _ => apply Nat.eqb_eq in H
             | H : Nat.eqb _ _ = false |- _ => apply Nat.eqb_neq in H
             end; lia.
Qed.

(** A run of another character resets the count. *)
Lemma no_run_other (c d : char) (n : nat) (t : str) :
  N.eqb d c = false ->
  forall j r : nat,
    1 <= j -> no_run d n r (repeat c j ++ t) = no_run d n 0 (repeat c j ++ t).
Proof.
  intros D j r J; destruct j as [|j]; [lia|].
  simpl; rewrite D; reflexivity.
Qed.

Lemma no_run_other_skip (c d : char) (n : nat) (t : str) :
  N.eqb d c = false ->
  forall j : nat, no_run d n 0 (repeat c j ++ t) = no_run d n 0 t.
Proof.
  intros D; induction j as [|j IH]; simpl; [reflexivity|].
  rewrite D; exact IH.
Qed.

Lemma no_run_full (c : char) (n : nat) (b : str) :
  forall j r : nat,
    1 <= j -> n <= r + j -> no_run c n r (repeat c j ++ b) = false.
Proof.
  induction j as [|j IH]; intros r J L; [lia|].
  simpl; rewrite N.eqb_refl.
  destruct (Nat.ltb (S r) n) eqn:A; [|reflexivity].
  apply Nat.ltb_lt in A; simpl.
  apply IH; lia.
Qed.

Lemma no_run_infix_false (c : char) (n : nat) (a b : str) :
  1 <= n ->
  forall r : nat, no_run c n r (a ++ repeat c n ++ b) = false.
Proof.
  intros N1; induction a as [|x a IH]; intros r.
  - simpl app; apply no_run_full; lia.
  - simpl; destruct (N.eqb c x); rewrite IH;
      [apply andb_false_r | reflexivity].
Qed.

Lemma no_run_false_infix (c : char) (n : nat) (s : str) :
  forall r : nat,
    r < n -> no_run c n r s = false -> infix (repeat c n) (repeat c r ++ s).
Proof.
  induction s as [|x s IH]; intros r R H; simpl in H; [discriminate|].
  destruct (N.eqb c x) eqn:E.
  - apply N.eqb_eq in E; subst x; rewrite repeat_shift.
    destruct (Nat.ltb (S r) n) eqn:A.
    + apply Nat.ltb_lt in A; simpl in H; exact (IH (S r) A H).
    + apply Nat.ltb_ge in A; replace n with (S r) by lia.
      exists [], s; reflexivity.
  - destruct (IH 0 ltac:(lia) H) as [a [b K]]; simpl in K.
    exists (repeat c r ++ x :: a), b.
    rewrite K, <- app_assoc; reflexivity.
Qed.

(** [no_run c n 0 s] says that [s] holds no [n] characters [c] in a
    row. *)
Lemma no_run_iff (c : char) (n : nat) (s : str) :
  1 <= n -> (no_run c n 0 s = true <-> ~ infix (repeat c n) s).
Proof.
  intros N1; split.
  - intros H [a [b E]]; subst s.
    rewrite (no_run_infix_false c n a b N1 0) in H; discriminate.
  - intros H; destruct (no_run c n 0 s) eqn:E; [reflexivity|].
    exfalso; apply H.
    exact (no_run_false_infix c n s 0 ltac:(lia) E).
Qed.

Lemma no_run_of_infix (c : char) (n : nat) (s t : str) :
  1 <= n -> infix t s -> no_run c n 0 s = true -> no_run c n 0 t = true.
Proof.
  intros N1 I H; apply (no_run_iff c n t N1); intros K.
  apply (proj1 (no_run_iff c n s N1) H).
  destruct I as [a [b E]], K as [a' [b' E']]; subst s t.
  exists (a ++ a'), (b' ++ b); rewrite <- !app_assoc; reflexivity.
Qed.

(** *** What squeezing leaves *)

Section Squeeze.

Variable c : char.
Variables min k : nat.

Lemma flush_repeat (run : nat) :
  exists j, flush c min (repeat c k) run = repeat c j /\
            (j = run \/ (min <= run /\ j = k)).
Proof.
  unfold flush; destruct (Nat.leb min run) eqn:L.
  - exists k; split; [reflexivity|].
    apply Nat.leb_le in L; right; split; [exact L | reflexivity].
  - exists run; split; [reflexivity | left; reflexivity].
Qed.

(** No run of the squeezed character reaches [lim], when the
    replacement is shorter than [lim] and every run of [lim] or more is
    replaced. *)
Lemma squeeze_no_run (lim : nat) (s : str) :
  k < lim -> min <= lim ->
  forall run : nat, no_run c lim 0 (squeeze c min (repeat c k) run s) = true.
Proof.
  intros K M.
  assert (F : forall run (t : str),
             match t with [] => True | y :: _ => N.eqb c y = false end ->
             no_run c lim 0 t = true ->
             no_run c lim 0 (flush c min (repeat c k) run ++ t) = true).
  { intros run t T H.
    destruct (flush_repeat run) as [j [E J]]; rewrite E.
    rewrite (no_run_repeat c lim t T), H, andb_true_r.
    destruct j as [|j]; [reflexivity|]; simpl.
    apply Nat.ltb_lt.
    destruct J as [J | [J1 J2]]; [|lia].
    subst run; unfold flush in E.
    destruct (Nat.leb min (S j)) eqn:L.
    - apply (f_equal (@length char)) in E.
      rewrite !repeat_length in E; lia.
    - apply Nat.leb_gt in L; lia. }
  induction s as [|x s IH]; intros run; simpl.
  - rewrite <- (app_nil_r (flush c min (repeat c k) run)).
    apply F; [exact I | reflexivity].
  - destruct (N.eqb c x) eqn:E; [apply IH|].
    apply F; [exact E|].
    simpl; rewrite E; apply IH.
Qed.

(** With a pending run the squeezed text begins with [c]. *)
Lemma squeeze_head (s : str) (run : nat) :
  1 <= k -> 1 <= run ->
  exists t, squeeze c min (repeat c k) run s = c :: t.
Proof.
  intros K R; rewrite squeeze_span.
  destruct (flush_repeat (run + run_length (N.eqb c) s)) as [j [E J]].
  rewrite E.
  destruct j as [|j]; [exfalso; destruct J as [J | [_ J]]; lia|].
  simpl; eexists; reflexivity.
Qed.

(** Squeezing the runs of [c] makes no run of another character
    longer. *)
Lemma squeeze_keeps_no_run (d : char) (n : nat) (s : str) :
  N.eqb d c = false -> 1 <= k ->
  forall run r : nat,
    no_run d n r s = true ->
    no_run d n r (squeeze c min (repeat c k) run s) = true.
Proof.
  intros D K.
  assert (O : forall j r, no_run d n r (repeat c j) = true).
  { intros j r; rewrite <- (app_nil_r (repeat c j)).
    destruct j as [|j]; [reflexivity|].
    rewrite (no_run_other c d n [] D (S j) r) by lia.
    rewrite no_run_other_skip by exact D; reflexivity. }
  induction s as [|x s IH]; intros run r H; simpl.
  - destruct (flush_repeat run) as [j [E _]]; rewrite E; apply O.
  - destruct (N.eqb c x) eqn:E.
    + apply N.eqb_eq in E; subst x.
      simpl in H; rewrite D in H.
      destruct (squeeze_head s (S run) K ltac:(lia)) as [t T].
      pose proof (IH (S run) 0 H) as G.
      rewrite T in G |- *; simpl in G |- *; rewrite D in G |- *; exact G.
    + destruct (flush_repeat run) as [j [F _]]; rewrite F.
      assert (G : no_run d n r (x :: squeeze c min (repeat c k) 0 s) = true).
      { simpl in H |- *; destruct (N.eqb d x).
        - apply andb_true_iff in H; destruct H as [A B].
          rewrite A; simpl; exact (IH 0 (S r) B).
        - exact (IH 0 0 H). }
      destruct j as [|j]; [exact G|].
      rewrite (no_run_other c d n _ D (S j) r) by lia.
      rewrite no_run_other_skip by exact D.
      exact (no_run_weaken d n _ r 0 ltac:(lia) G).
Qed.

(** A text whose runs are all shorter than [lim] is left as it is,
    when squeezing changes no run shorter than [lim]. *)
Lemma squeeze_fixed (lim : nat) (s : str) :
  (forall j, j < lim -> flush c min (repeat c k) j = repeat c j) ->
  forall run : nat,
    run < lim -> no_run c lim run s = true ->
    squeeze c min (repeat c k) run s = repeat c run ++ s.
Proof.
  intros F; induction s as [|x s IH]; intros run R H; simpl.
  - rewrite app_nil_r; apply F, R.
  - simpl in H; destruct (N.eqb c x) eqn:E.
    + apply N.eqb_eq in E; subst x.
      apply andb_true_iff in H; destruct H as [A B].
      apply Nat.ltb_lt in A.
      rewrite (IH (S run) A B), repeat_shift; reflexivity.
    + rewrite (F run R), (IH 0 ltac:(lia) H); reflexivity.
Qed.

End Squeeze.

End RunFacts.

(* ================================================================== *)
(** ** Properties of the PDF text clean-up and of the sentences *)
(* ================================================================== *)

Module PdfParserProps.
Import Py PyFacts Re ReTerms ReFacts RunTerms RunFacts PdfParser.
Import ExperienceMore.

#[local] Open Scope list_scope.

(** *** Lines *)

Lemma split_chr_no_sep (sep : char) (s : str) :
  Forall (fun piece => ~ In sep piece) (split_chr sep s).
Proof.
  induction s as [|x s IH]; simpl.
  - constructor; [intros [] | constructor].
  - destruct (N.eqb x sep) eqn:E.
    + constructor; [intros [] | exact IH].
    + destruct (split_chr sep s) as [|y ys]; [repeat constructor|].
      * intros [K | []]; subst; rewrite N.eqb_refl in E; discriminate.
      * inversion IH as [|? ? A B]; subst.
        constructor; [|exact B].
        intros [K | K]; [subst; rewrite N.eqb_refl in E; discriminate|].
        exact (A K).
Qed.

Lemma split_chr_app (sep : char) (x t : str) :
  ~ In sep x -> split_chr sep (x ++ sep :: t) = x :: split_chr sep t.
Proof.
  induction x as [|y x IH]; intros H; simpl.
  - rewrite N.eqb_refl; reflexivity.
  - destruct (N.eqb y sep) eqn:E;
      [apply N.eqb_eq in E; exfalso; apply H; left; exact E|].
    rewrite IH by (intros K; apply H; right; exact K); reflexivity.
Qed.

Lemma split_chr_whole (sep : char) (x : str) :
  ~ In sep x -> split_chr sep x = [x].
Proof.
  induction x as [|y x IH]; intros H; simpl; [reflexivity|].
  destruct (N.eqb y sep) eqn:E;
    [apply N.eqb_eq in E; exfalso; apply H; left; exact E|].
  rewrite IH by (intros K; apply H; right; exact K); reflexivity.
Qed.

(** Splitting undoes joining, for lines that hold no separator. *)
Lemma split_chr_join (sep : char) (ls : list str) :
  ls <> [] -> Forall (fun l => ~ In sep l) ls ->
  split_chr sep (join [sep] ls) = ls.
Proof.
  induction ls as [|x ls IH]; intros N F; [contradiction|].
  inversion F as [|? ? Fx Fl]; subst.
  destruct ls as [|y ls].
  - simpl; apply split_chr_whole, Fx.
  - change (join [sep] (x :: y :: ls))
      with (x ++ sep :: join [sep] (y :: ls)).
    rewrite (split_chr_app sep x _ Fx), IH; [reflexivity | discriminate | exact Fl].
Qed.

Lemma filter_all {A : Type} (f : A -> bool) (l : list A) :
  Forall (fun x => f x = true) l -> filter f l = l.
Proof.
  induction 1 as [|x l Hx Hl IH]; simpl; [reflexivity|].
  rewrite Hx, IH; reflexivity.
Qed.

Lemma map_fixed {A : Type} (f : A -> A) (l : list A) :
  Forall (fun x => f x = x) l -> map f l = l.
Proof.
  induction 1 as [|x l Hx Hl IH]; simpl; [reflexivity|].
  rewrite Hx, IH; reflexivity.
Qed.

(** The lines [_clean_extracted_text] keeps. *)
Lemma cleaned_lines_shape (text : str) :
  Forall (fun line =>
            (line <> [] /\ strip line = line /\ isdigit line = false /\
             In line (map strip (split_chr NL text))) /\ ~ In NL line)
         (filter (fun line => negb (str_eqb line []) && negb (isdigit line))
                 (map strip (split_chr NL text))).
Proof.
  apply Forall_forall; intros line H.
  apply filter_In in H; destruct H as [H K].
  apply andb_true_iff in K; destruct K as [K1 K2].
  apply negb_true_iff in K1, K2.
  split; [split; [|split; [|split]]|].
  - intros E; subst line; discriminate.
  - apply in_map_iff in H; destruct H as [l [E _]]; subst line.
    apply strip_idem.
  - exact K2.
  - exact H.
  - apply in_map_iff in H; destruct H as [l [E H]]; subst line.
    pose proof (split_chr_no_sep NL text) as S.
    rewrite Forall_forall in S; specialize (S l H).
    assert (F : Forall (fun x => x <> NL) l).
    { apply Forall_forall; intros x I E; subst x; exact (S I). }
    apply (strip_Forall _ l) in F.
    rewrite Forall_forall in F; intros I; exact (F NL I eq_refl).
Qed.

(** Cleaning a page twice changes nothing more, and every line of a
    cleaned page is a stripped line of the page that is neither empty
    nor made of digits only. *)
Theorem clean_extracted_text_lines (text : str) :
  _clean_extracted_text (_clean_extracted_text text)
  = _clean_extracted_text text
  /\
  (_clean_extracted_text text = []
   \/
   Forall (fun line =>
             line <> [] /\ strip line = line /\ isdigit line = false /\
             In line (map strip (split_chr NL text)))
          (split_chr NL (_clean_extracted_text text))).
Proof.
  pose proof (cleaned_lines_shape text) as S.
  unfold _clean_extracted_text at 1 3 4 5.
  unfold _clean_extracted_text at 1.
  set (keep := fun line => negb (str_eqb line []) && negb (isdigit line))
    in *.
  set (ls := filter keep (map strip (split_chr NL text))) in *.
  destruct ls as [|l0 ls'] eqn:L.
  - split; [reflexivity | left; reflexivity].
  - rewrite <- L in *.
    assert (N : ls <> []) by (rewrite L; discriminate).
    assert (J : split_chr NL (join [NL] ls) = ls).
    { apply split_chr_join; [exact N|].
      apply (Forall_impl _ (P := fun line =>
               (line <> [] /\ strip line = line /\ isdigit line = false /\
                In line (map strip (split_chr NL text))) /\ ~ In NL line));
        [|exact S].
      intros l [_ K]; exact K. }
    rewrite J; split.
    + rewrite (map_fixed strip ls), (filter_all keep ls); [reflexivity| |].
      * apply (Forall_impl _ (P := fun line =>
               (line <> [] /\ strip line = line /\ isdigit line = false /\
                In line (map strip (split_chr NL text))) /\ ~ In NL line));
          [|exact S].
        intros l [[A [_ [B _]]] _]; unfold keep.
        rewrite B; destruct l; [contradiction | reflexivity].
      * apply (Forall_impl _ (P := fun line =>
               (line <> [] /\ strip line = line /\ isdigit line = false /\
                In line (map strip (split_chr NL text))) /\ ~ In NL line));
          [|exact S].
        intros l [[_ [A _]] _]; exact A.
    + right.
      apply (Forall_impl _ (P := fun line =>
               (line <> [] /\ strip line = line /\ isdigit line = false /\
                In line (map strip (split_chr NL text))) /\ ~ In NL line));
        [|exact S].
      intros l [K _]; exact K.
Qed.

(** *** White space *)

Lemma sub_spaces (text : str) :
  Re.sub spaces_pattern [SPACE] text = squeeze SPACE 1 [SPACE] 0 text.
Proof.
  exact (sub_run SPACE 0 [SPACE] (length text) text None 0 (le_n _)).
Qed.

Lemma sub_newlines (text : str) :
  Re.sub newlines_pattern [NL; NL] text = squeeze NL 3 [NL; NL] 0 text.
Proof.
  exact (sub_run NL 2 [NL; NL] (length text) text None 0 (le_n _)).
Qed.

Lemma normalize_whitespace_no_runs (text : str) :
  no_run SPACE 2 0 (_normalize_whitespace text) = true /\
  no_run NL 3 0 (_normalize_whitespace text) = true.
Proof.
  unfold _normalize_whitespace; rewrite sub_spaces, sub_newlines.
  split.
  - apply (no_run_of_infix SPACE 2 _ _ ltac:(lia) (infix_strip _)).
    apply (squeeze_keeps_no_run NL 3 2 SPACE 2); [reflexivity | lia|].
    apply (squeeze_no_run SPACE 1 1 2); lia.
  - apply (no_run_of_infix NL 3 _ _ ltac:(lia) (infix_strip _)).
    apply (squeeze_no_run NL 3 2 3); lia.
Qed.

(** The result of [_normalize_whitespace] holds no two spaces in a row
    and no three newlines in a row, has no white space at either end,
    and is left as it is by a second pass. *)
Theorem normalize_whitespace_normal_form (text : str) :
  ~ infix [SPACE; SPACE] (_normalize_whitespace text) /\
  ~ infix [NL; NL; NL] (_normalize_whitespace text) /\
  strip (_normalize_whitespace text) = _normalize_whitespace text /\
  _normalize_whitespace (_normalize_whitespace text)
  = _normalize_whitespace text.
Proof.
  destruct (normalize_whitespace_no_runs text) as [A B].
  split; [|split; [|split]].
  - exact (proj1 (no_run_iff SPACE 2 _ ltac:(lia)) A).
  - exact (proj1 (no_run_iff NL 3 _ ltac:(lia)) B).
  - unfold _normalize_whitespace; apply strip_idem.
  - assert (S1 : squeeze SPACE 1 [SPACE] 0 (_normalize_whitespace text)
                = _normalize_whitespace text).
    { apply (squeeze_fixed SPACE 1 1 2 (_normalize_whitespace text));
        [| lia | exact A].
      intros j J; unfold flush.
      destruct j as [|[|j]]; [reflexivity | reflexivity | lia]. }
    assert (S2 : squeeze NL 3 [NL; NL] 0 (_normalize_whitespace text)
                = _normalize_whitespace text).
    { apply (squeeze_fixed NL 3 2 3 (_normalize_whitespace text));
        [| lia | exact B].
      intros j J; unfold flush.
      replace (Nat.leb 3 j) with false
        by (symmetry; apply Nat.leb_gt; lia).
      reflexivity. }
    unfold _normalize_whitespace at 1.
    rewrite sub_spaces, S1, sub_newlines, S2.
    unfold _normalize_whitespace; apply strip_idem.
Qed.

(** The same holds of the text of a reader, whatever its pages give;
    a reader without a page that yields text gives the empty string. *)
Theorem reader_text_normal_form (pages : list (option str)) :
  ~ infix [SPACE; SPACE] (_extract_text_from_reader pages) /\
  ~ infix [NL; NL; NL] (_extract_text_from_reader pages) /\
  strip (_extract_text_from_reader pages) = _extract_text_from_reader pages /\
  (Forall (fun page => page = None \/ page = Some []) pages ->
   _extract_text_from_reader pages = []).
Proof.
  unfold _extract_text_from_reader.
  set (text_parts := flat_map _ _).
  destruct (normalize_whitespace_no_runs (join [NL; NL] text_parts))
    as [A B].
  split; [|split; [|split]].
  - exact (proj1 (no_run_iff SPACE 2 _ ltac:(lia)) A).
  - exact (proj1 (no_run_iff NL 3 _ ltac:(lia)) B).
  - unfold _normalize_whitespace; apply strip_idem.
  - intros H.
    assert (E : text_parts = []).
    { unfold text_parts; clear A B text_parts.
      induction H as [|page pages [P | P] _ IH]; simpl; subst;
        [reflexivity | exact IH | exact IH]. }
    rewrite E; reflexivity.
Qed.

End PdfParserProps.

Module SentenceProps.
Import Py PyFacts Re ReTerms ReFacts RunTerms RunFacts.
Import SkillDatabase SkillExtractor ExtractorTerms ExtractorProps.
Import ExperienceMore.

#[local] Open Scope list_scope.

Lemma not_break (x : char) :
  existsb (fun i => citem_has i x)
          [COne (N_of_ascii "."); COne (N_of_ascii "!");
           COne (N_of_ascii "?"); COne 10%N] = false ->
  ~ In x sentence_breaks.
Proof.
  simpl; intros H I.
  repeat (apply orb_false_iff in H; destruct H as [? H]).
  unfold sentence_breaks in I; simpl in I.
  repeat match goal with
         | K : _ \/ _ |- _ => destruct K as [K | K]
         | K : _ = x |- _ => subst x; simpl in *; discriminate
         | K : False |- _ => contradiction
         end.
Qed.

Lemma split_sentences_pieces (text : str) :
  Forall (Forall (fun x => ~ In x sentence_breaks))
         (Re.split sentence_break text).
Proof.
  pose proof (split_run_pieces _ _
                (cls_atom [COne (N_of_ascii "."); COne (N_of_ascii "!");
                           COne (N_of_ascii "?"); COne 10%N])
                (length text) text None 0 (le_n _)) as P.
  unfold Re.split, finditer.
  change sentence_break
    with (at_least 1 (Cls [COne (N_of_ascii "."); COne (N_of_ascii "!");
                           COne (N_of_ascii "?"); COne 10%N])).
  apply (Forall_impl _ (P := Forall (fun x =>
           existsb (fun i => citem_has i x)
                   [COne (N_of_ascii "."); COne (N_of_ascii "!");
                    COne (N_of_ascii "?"); COne 10%N] = false)));
    [|exact P].
  intros piece; apply Forall_impl; exact not_break.
Qed.

Lemma sentence_no_break (text s : str) :
  In s (_split_sentences text) ->
  Forall (fun x => ~ In x sentence_breaks) s.
Proof.
  unfold _split_sentences; intros H.
  apply in_map_iff in H; destruct H as [piece [E H]]; subst s.
  apply filter_In in H; destruct H as [H _].
  apply strip_Forall.
  pose proof (split_sentences_pieces text) as P.
  rewrite Forall_forall in P; exact (P _ H).
Qed.

(** Lower-casing makes no sentence break. *)
Lemma lower_keeps_break (x : char) :
  In (char_lower x) sentence_breaks -> In x sentence_breaks.
Proof.
  assert (C : forall y,
             (if existsb (N.eqb (char_lower y)) sentence_breaks
              then existsb (N.eqb y) sentence_breaks else true) = true).
  { apply char_cases; [vm_compute; reflexivity|].
    intros y Hy; rewrite (char_lower_big y Hy).
    destruct (existsb (N.eqb y) sentence_breaks); reflexivity. }
  intros H; specialize (C x).
  assert (E : existsb (N.eqb (char_lower x)) sentence_breaks = true).
  { apply existsb_exists; exists (char_lower x); split;
      [exact H | apply N.eqb_refl]. }
  rewrite E in C; apply existsb_exists in C; destruct C as [z [I K]].
  apply N.eqb_eq in K; subst z; exact I.
Qed.

Lemma Forall_infix {A : Type} (P : A -> Prop) (g s : list A) :
  (exists a b, s = a ++ g ++ b) -> Forall P s -> Forall P g.
Proof.
  intros [a [b E]] H; subst s.
  apply Forall_app in H; destruct H as [_ H].
  apply Forall_app in H; destruct H as [H _]; exact H.
Qed.

(** Every sentence is a non-empty piece of the text, without white
    space at either end, that holds none of the characters [.], [!],
    [?] and newline. *)
Theorem sentences_hold_no_break (text : str) :
  Forall (fun s => s <> [] /\ strip s = s /\ infix s text /\
                   Forall (fun x => ~ In x sentence_breaks) s)
         (_split_sentences text).
Proof.
  unfold _split_sentences; apply Forall_forall; intros s H.
  apply in_map_iff in H; destruct H as [piece [E H]]; subst s.
  apply filter_In in H; destruct H as [H K].
  apply negb_true_iff in K.
  split; [|split; [|split]].
  - intros E; rewrite E in K; discriminate.
  - apply strip_idem.
  - apply (infix_trans _ piece); [apply infix_strip|].
    pose proof (split_at_infix (finditer false sentence_break text) 0 text)
      as P.
    rewrite Forall_forall in P; exact (P _ H).
  - apply strip_Forall.
    pose proof (split_sentences_pieces text) as P.
    rewrite Forall_forall in P; exact (P _ H).
Qed.

(** No record has a name or a context that holds one of the characters
    [.], [!], [?] and newline: a mention is looked for inside one
    sentence, so that a dotted alias such as [node.js] is never reported
    as a name. *)
Theorem extracted_text_holds_no_break (text : str) :
  Forall (fun r =>
            Forall (fun x => ~ In x sentence_breaks) (name r) /\
            Forall (fun x => ~ In x sentence_breaks) (context r))
         (extract_skills text).
Proof.
  apply (Forall_impl _ (P := from_sentences (_split_sentences text)));
    [|apply extract_skills_from].
  intros r [sentence [I [C [N _]]]].
  pose proof (sentence_no_break text sentence I) as B.
  split.
  - apply findall1_infix in N.
    apply (Forall_infix _ _ _ N).
    unfold lower; apply Forall_forall; intros y Hy.
    apply in_map_iff in Hy; destruct Hy as [x [E Hx]]; subst y.
    rewrite Forall_forall in B.
    intros K; exact (B x Hx (lower_keeps_break x K)).
  - rewrite C; apply strip_Forall, B.
Qed.

End SentenceProps.
